(** * Me_As_AI: a persona chat client (React / TypeScript)

    A shallow embedding of the client-side state coordination of the
    application: the streaming chat update loop of [App.tsx], the
    speech-synthesis playback handlers of [App.tsx] and [ChatMessage.tsx],
    the composer and speech-recognition handlers of [ChatInput]
    (second half of [components/ChatMessage.tsx]) and the chat session
    service of [services/geminiService.ts].

    React state is modelled by explicit state passing: a handler takes the
    state of the render it closes over and returns the state after its
    [set...] calls, together with the calls it makes on the browser or on
    the chat service.  Values the code reads from its environment
    ([Date.now()], [window.speechSynthesis.speaking], the outcome of an SDK
    call) are arguments of the handler.

    What the model takes for granted:
    - a handler runs on the state of the latest render: no event is
      handled between a state update and the render that follows it;
    - an [async] function runs without interruption between two
      [await]s, and anything may run at an [await]: the page of the last
      part keeps the locals of every suspended call of
      [handleSendMessage] and lets the events of their streams interleave
      with all other events;
    - a stream ends: it yields finitely many chunks, then completes or
      throws. *)

From Stdlib Require Import Ascii String DecimalString DecimalZ.
From Stdlib Require Import List Bool Arith NArith ZArith Lia.
Import ListNotations.

(* ================================================================== *)
(** * JavaScript strings *)
(* ================================================================== *)

(** A JavaScript string is a sequence of UTF-16 code units. *)
Definition char16 := N.
Definition jsstring := list char16.

(** An ASCII literal of the source, as code units. *)
Definition lit (s : string) : jsstring :=
  map N_of_ascii (list_ascii_of_string s).
Arguments lit s%_string.

Fixpoint jsstring_eqb (a b : jsstring) : bool :=
  match a, b with
  | [], [] => true
  | x :: a', y :: b' => N.eqb x y && jsstring_eqb a' b'
  | _, _ => false
  end.

(** Truthiness of a string value: [if (s)]. *)
Definition truthy (s : jsstring) : bool :=
  match s with [] => false | _ :: _ => true end.

(** [opt || dflt] and [if (opt)] on a [string | undefined]. *)
Definition truthy_opt (o : option jsstring) : bool :=
  match o with Some s => truthy s | None => false end.

(** ECMAScript WhiteSpace and LineTerminator code points, the set
    [String.prototype.trim] strips. *)
Definition isWhiteSpace (c : char16) : bool :=
  match c with
  | 0x0009 | 0x000A | 0x000B | 0x000C | 0x000D | 0x0020 | 0x00A0
  | 0x1680 | 0x2028 | 0x2029 | 0x202F | 0x205F | 0x3000 | 0xFEFF => true
  | _ => (0x2000 <=? c) && (c <=? 0x200A)
  end%N.

Fixpoint trimStart (s : jsstring) : jsstring :=
  match s with
  | [] => []
  | c :: s' => if isWhiteSpace c then trimStart s' else s
  end.

Definition trimEnd (s : jsstring) : jsstring := rev (trimStart (rev s)).

(** [s.trim()] *)
Definition trim (s : jsstring) : jsstring := trimEnd (trimStart s).

(** A string that is empty or made of white space only. *)
Definition blank (s : jsstring) : Prop := Forall (fun c => isWhiteSpace c = true) s.

(** [n.toString()] for an integral number such as [Date.now()]: decimal
    digits, with a leading minus sign for a negative value. *)
Definition Number_toString (n : Z) : jsstring :=
  lit (NilZero.string_of_int (Z.to_int n)).

(* ================================================================== *)
(** * types.ts *)
(* ================================================================== *)

Inductive SenderType := USER | AI | SYSTEM.

(** [timestamp] is a [Date]; it is kept as its time value in ms. *)
Record Message := mkMessage {
  id : jsstring;
  text : jsstring;
  sender : SenderType;
  timestamp : Z
}.

Definition SenderType_eqb (a b : SenderType) : bool :=
  match a, b with
  | USER, USER | AI, AI | SYSTEM, SYSTEM => true
  | _, _ => false
  end.

(** [{ ...msg, text: t }] *)
Definition withText (msg : Message) (t : jsstring) : Message :=
  {| id := id msg; text := t; sender := sender msg; timestamp := timestamp msg |}.

(** Values a [catch] clause can receive: an [Error] with its message, or
    anything else. *)
Inductive JsThrown :=
| ErrorObject (message : jsstring)
| OtherValue.

(* ================================================================== *)
(** * The chat SDK, as far as the client uses it *)
(* ================================================================== *)

Module Genai.

(** A streamed chunk; [text] is the getter [chunk.text], a
    [string | undefined]. *)
Record GenerateContentResponse := mkChunk { text : option jsstring }.

(** An [AsyncIterable] as the sequence of outcomes of its successive
    [next()] calls: it yields a chunk and goes on, completes, or throws.
    Only streams that end are represented. *)
Inductive AsyncIterable :=
| IterReturn
| IterYield (chunk : GenerateContentResponse) (rest : AsyncIterable)
| IterThrow (e : JsThrown).

Inductive IterResult :=
| NextValue (chunk : GenerateContentResponse) (rest : AsyncIterable)
| NextDone
| NextThrows (e : JsThrown).

(** The first [next()] of an iteration. *)
Definition next (it : AsyncIterable) : IterResult :=
  match it with
  | IterReturn => NextDone
  | IterYield c rest => NextValue c rest
  | IterThrow e => NextThrows e
  end.

Record GoogleGenAI := mkGoogleGenAI { apiKey : jsstring }.

(** The handle [chats.create] returns, with the configuration it was
    created from. *)
Record Chat := mkChat {
  owner : GoogleGenAI;
  model : jsstring;
  systemInstruction : jsstring
}.

End Genai.

(* ================================================================== *)
(** * services/geminiService.ts *)
(* ================================================================== *)

Module GeminiService.
Import Genai.

(** The module-level [let chat] and [let ai]. *)
Record ServiceState := mkService {
  chat : option Chat;
  ai : option GoogleGenAI
}.

(** A computation on the module state that returns or throws. *)
Definition M (A : Type) : Type := ServiceState -> ServiceState * (A + JsThrown).

Definition ret {A} (a : A) : M A := fun st => (st, inl a).
Definition throw {A} (e : JsThrown) : M A := fun st => (st, inr e).
Definition bind {A B} (m : M A) (k : A -> M B) : M B :=
  fun st => match m st with
            | (st', inl a) => k a st'
            | (st', inr e) => (st', inr e)
            end.
(** [try { m } catch (e) { h e }] *)
Definition try_catch {A} (m : M A) (h : JsThrown -> M A) : M A :=
  fun st => match m st with
            | (st', inl a) => (st', inl a)
            | (st', inr e) => h e st'
            end.
Definition get : M ServiceState := fun st => (st, inl st).
Definition set_chat (c : option Chat) : M unit :=
  fun st => ({| chat := c; ai := ai st |}, inl tt).
Definition set_ai (a : option GoogleGenAI) : M unit :=
  fun st => ({| chat := chat st; ai := a |}, inl tt).

Notation "x <- m ;; k" := (bind m (fun x => k))
  (at level 61, m at next level, right associativity).
Notation "m ;;; k" := (bind m (fun _ => k))
  (at level 61, right associativity).

Section Service.
(** [process.env.API_KEY] and the persona prompt constant. *)
Variable API_KEY : option jsstring.
Variable TEJASWI_MAHADEV_SYSTEM_PROMPT : jsstring.

Definition getAiInstance : M GoogleGenAI :=
  st <- get ;;
  match ai st with
  | Some a => ret a
  | None =>
      match API_KEY with
      | Some key =>
          if truthy key
          then set_ai (Some (mkGoogleGenAI key)) ;;; ret (mkGoogleGenAI key)
          else throw (ErrorObject (lit
                 "API_KEY environment variable not set. Cannot initialize GoogleGenAI."))
      | None =>
          throw (ErrorObject (lit
            "API_KEY environment variable not set. Cannot initialize GoogleGenAI."))
      end
  end.

(** [createThrows] is the outcome of the SDK call [chats.create]:
    [None] when it returns the handle, [Some e] when it throws [e]. *)
Definition initializeChat (createThrows : option JsThrown) : M unit :=
  currentAi <- getAiInstance ;;
  st <- get ;;
  match chat st with
  | Some _ => ret tt
  | None =>
      try_catch
        (match createThrows with
         | None =>
             set_chat (Some (mkChat currentAi
                               (lit "gemini-2.5-flash-preview-04-17")
                               TEJASWI_MAHADEV_SYSTEM_PROMPT))
         | Some e => throw e
         end)
        (fun error => throw error)
  end.

(** The promise [sendMessageToTejaswiStream] returns settles to
    [inl stream] (resolved) or [inr e] (rejected).

    [whileSuspended] is what other code does to the module state
    while the call is suspended at [await initializeChat()];
    [sendOutcome] is the outcome of [chat.sendMessageStream]. *)
Definition sendMessageToTejaswiStream
    (createThrows : option JsThrown)
    (whileSuspended : ServiceState -> ServiceState)
    (sendOutcome : Chat -> jsstring -> AsyncIterable + JsThrown)
    (userMessage : jsstring) : M AsyncIterable :=
  fun st0 =>
    match initializeChat createThrows st0 with
    | (st1, inr initError) =>
        (* errorStream(): a generator whose body throws at once *)
        (st1, inl (IterThrow initError))
    | (st1, inl _) =>
        let st2 := whileSuspended st1 in
        match chat st2 with
        | None =>
            (st2, inl (IterThrow (ErrorObject (lit
                    "Chat not initialized. Cannot send message."))))
        | Some c =>
            match sendOutcome c userMessage with
            | inl result => (st2, inl result)
            | inr error => (st2, inr error)
            end
        end
    end.

Definition resetChatSession (st : ServiceState) : ServiceState :=
  {| chat := None; ai := ai st |}.

End Service.
End GeminiService.

(* ================================================================== *)
(** * App.tsx *)
(* ================================================================== *)

Module App.
(** What a handler reads from [window] when it runs. *)
Record Window := mkWindow {
  speechSynthesis_present : bool;    (* window.speechSynthesis is there *)
  speechSynthesis_speaking : bool;   (* window.speechSynthesis.speaking *)
  SpeechRecognition_present : bool   (* either constructor is in window *)
}.

(** The utterance in [utteranceRef]: its text, and the message id its
    [onstart] callback closes over.  Voice, pitch and rate do not bear on
    the state of the application and are left out. *)
Record Utterance := mkUtterance {
  utteranceText : jsstring;
  utteranceMessageId : jsstring
}.

(** Calls a handler makes on the browser and on the chat service. *)
Inductive Effect :=
| SpeechCancel                         (* window.speechSynthesis.cancel() *)
| SpeechSpeak (u : Utterance)          (* window.speechSynthesis.speak(u) *)
| StreamCall (userMessage : jsstring)  (* sendMessageToTejaswiStream(text) *)
| ResetChatSession.                    (* resetChatSession() *)

Record State := mkState {
  messages : list Message;
  isLoading : bool;
  error : option jsstring;
  apiKeyMissing : bool;
  speechSynthesisSupported : bool;
  speechRecognitionSupported : bool;
  currentlySpeakingMessageId : option jsstring;
  utteranceRef : option Utterance
}.

(** The state of the first render. *)
Definition initialState : State :=
  mkState [] false None false false false None None.

Definition setMessages (f : list Message -> list Message) (st : State) : State :=
  mkState (f (messages st)) (isLoading st) (error st) (apiKeyMissing st)
    (speechSynthesisSupported st) (speechRecognitionSupported st)
    (currentlySpeakingMessageId st) (utteranceRef st).
Definition setIsLoading (b : bool) (st : State) : State :=
  mkState (messages st) b (error st) (apiKeyMissing st)
    (speechSynthesisSupported st) (speechRecognitionSupported st)
    (currentlySpeakingMessageId st) (utteranceRef st).
Definition setError (e : option jsstring) (st : State) : State :=
  mkState (messages st) (isLoading st) e (apiKeyMissing st)
    (speechSynthesisSupported st) (speechRecognitionSupported st)
    (currentlySpeakingMessageId st) (utteranceRef st).
Definition setApiKeyMissing (b : bool) (st : State) : State :=
  mkState (messages st) (isLoading st) (error st) b
    (speechSynthesisSupported st) (speechRecognitionSupported st)
    (currentlySpeakingMessageId st) (utteranceRef st).
Definition setSpeechSynthesisSupported (b : bool) (st : State) : State :=
  mkState (messages st) (isLoading st) (error st) (apiKeyMissing st)
    b (speechRecognitionSupported st)
    (currentlySpeakingMessageId st) (utteranceRef st).
Definition setSpeechRecognitionSupported (b : bool) (st : State) : State :=
  mkState (messages st) (isLoading st) (error st) (apiKeyMissing st)
    (speechSynthesisSupported st) b
    (currentlySpeakingMessageId st) (utteranceRef st).
Definition setCurrentlySpeakingMessageId (m : option jsstring) (st : State) : State :=
  mkState (messages st) (isLoading st) (error st) (apiKeyMissing st)
    (speechSynthesisSupported st) (speechRecognitionSupported st)
    m (utteranceRef st).
Definition setUtteranceRef (u : option Utterance) (st : State) : State :=
  mkState (messages st) (isLoading st) (error st) (apiKeyMissing st)
    (speechSynthesisSupported st) (speechRecognitionSupported st)
    (currentlySpeakingMessageId st) u.

(** [window.speechSynthesis && window.speechSynthesis.speaking] *)
Definition synthSpeaking (w : Window) : bool :=
  speechSynthesis_present w && speechSynthesis_speaking w.

Definition initialGreetingText : jsstring :=
  lit "Yo! What's up? Ready to cook up something cool, or just wanna chat about the latest in tech? "
  ++ [0xD83E; 0xDDD1; 0x200D; 0xD83D; 0xDCBB]%N
  ++ lit " Let me know what's on your mind!".

Definition resetGreetingText : jsstring :=
  lit "Alright, fresh start! What's on your mind now? Let's build something awesome or explore some new tech! "
  ++ [0xD83D; 0xDE80]%N.

(** The mount effect.  [now] is [Date.now()], [date] is [new Date()]. *)
Definition mount (API_KEY : option jsstring) (w : Window) (now date : Z)
    (st : State) : State :=
  if negb (truthy_opt API_KEY) then
    setError (Some (lit
      "API_KEY environment variable is not set. This application requires an API key to function."))
      (setApiKeyMissing true st)
  else
    let st := setSpeechSynthesisSupported (speechSynthesis_present w) st in
    let st := setSpeechRecognitionSupported (SpeechRecognition_present w) st in
    let initialGreeting :=
      {| id := lit "init-greet-" ++ Number_toString now;
         text := initialGreetingText;
         sender := AI;
         timestamp := date |} in
    setMessages (fun _ => [initialGreeting]) st.

(** ** handleSendMessage *)

(** The clock readings of one call, in evaluation order. *)
Record SendClock := mkSendClock {
  userNow : Z;    (* Date.now() of the user message id *)
  userDate : Z;   (* new Date() of the user message *)
  aiNow : Z;      (* Date.now() of aiMessageId *)
  aiDate : Z      (* new Date() of the assistant message *)
}.

(** The locals of a call that live across its [await]s. *)
Record SendCtx := mkSendCtx {
  aiMessageId : jsstring;
  currentAiResponseText : jsstring
}.

(** The synchronous part of the call, up to the [await] of the stream:
    [None] when the call returns early. *)
Definition handleSendMessage_begin (st : State) (w : Window)
    (text : jsstring) (clk : SendClock)
    : State * list Effect * option SendCtx :=
  if apiKeyMissing st then
    (setError (Some (lit "Cannot send message: API_KEY is missing.")) st, [], None)
  else
    let '(st, fx) :=
      if synthSpeaking w
      then (setCurrentlySpeakingMessageId None st, [SpeechCancel])
      else (st, []) in
    let userMessage :=
      {| id := Number_toString (userNow clk) ++ lit "-user";
         text := text;
         sender := USER;
         timestamp := userDate clk |} in
    let st := setMessages (fun prevMessages => prevMessages ++ [userMessage]) st in
    let st := setIsLoading true st in
    let st := setError None st in
    let aiMessageId := Number_toString (aiNow clk) ++ lit "-ai" in
    let st := setMessages (fun prevMessages =>
                prevMessages ++
                [{| id := aiMessageId; text := []; sender := AI;
                    timestamp := aiDate clk |}]) st in
    (st, fx ++ [StreamCall text], Some (mkSendCtx aiMessageId [])).

(** The updater both the loop and the [catch] pass to [setMessages]. *)
Definition replaceText (aiMessageId newText : jsstring)
    (prevMessages : list Message) : list Message :=
  map (fun msg => if jsstring_eqb (id msg) aiMessageId
                  then withText msg newText else msg) prevMessages.

(** One turn of the [for await] loop body. *)
Definition handleSendMessage_chunk (st : State) (ctx : SendCtx)
    (chunk : Genai.GenerateContentResponse) : State * SendCtx :=
  match Genai.text chunk with
  | Some chunkText =>
      if truthy chunkText then
        let currentAiResponseText := currentAiResponseText ctx ++ chunkText in
        (setMessages (replaceText (aiMessageId ctx) currentAiResponseText) st,
         mkSendCtx (aiMessageId ctx) currentAiResponseText)
      else (st, ctx)
  | None => (st, ctx)
  end.

Definition errorMessageOf (e : JsThrown) : jsstring :=
  match e with
  | ErrorObject message => message
  | OtherValue => lit "An unknown error occurred with the AI service."
  end.

Definition streamErrorBanner (errorMessage : jsstring) : jsstring :=
  lit "Tejaswi seems to be having a moment... " ++ [0xD83E; 0xDD2F]%N
  ++ lit " (" ++ errorMessage ++ lit ")".

Definition streamErrorNotice (errorMessage : jsstring) : jsstring :=
  lit "Sorry, I hit a snag! Error: " ++ errorMessage.

(** The [catch] clause. *)
Definition handleSendMessage_catch (st : State) (ctx : SendCtx)
    (e : JsThrown) : State :=
  let errorMessage := errorMessageOf e in
  let st := setError (Some (streamErrorBanner errorMessage)) st in
  setMessages (replaceText (aiMessageId ctx) (streamErrorNotice errorMessage)) st.

(** The [finally] clause. *)
Definition handleSendMessage_finally (st : State) : State :=
  setIsLoading false st.

(** The [for await] loop over a stream, run without interruption: the
    state and locals when it leaves, and what it threw, if it did. *)
Fixpoint forAwait (st : State) (ctx : SendCtx) (stream : Genai.AsyncIterable)
    : State * SendCtx * option JsThrown :=
  match stream with
  | Genai.IterReturn => (st, ctx, None)
  | Genai.IterThrow e => (st, ctx, Some e)
  | Genai.IterYield chunk rest =>
      let '(st', ctx') := handleSendMessage_chunk st ctx chunk in
      forAwait st' ctx' rest
  end.

(** A whole call with nothing else running in between.  [outcome] is how
    the promise of [sendMessageToTejaswiStream(text)] settles. *)
Definition handleSendMessage (st : State) (w : Window) (text : jsstring)
    (clk : SendClock) (outcome : Genai.AsyncIterable + JsThrown)
    : State * list Effect :=
  match handleSendMessage_begin st w text clk with
  | (st1, fx, None) => (st1, fx)
  | (st1, fx, Some ctx) =>
      let '(st2, ctx2, thrown) :=
        match outcome with
        | inl stream => forAwait st1 ctx stream
        | inr e => (st1, ctx, Some e)
        end in
      let st3 :=
        match thrown with
        | Some e => handleSendMessage_catch st2 ctx2 e
        | None => st2
        end in
      (handleSendMessage_finally st3, fx)
  end.

(** ** handleResetConversation *)

Definition handleResetConversation (st : State) (w : Window) (now date : Z)
    : State * list Effect :=
  let '(st, fx) :=
    if synthSpeaking w
    then (setCurrentlySpeakingMessageId None st, [SpeechCancel])
    else (st, []) in
  let st := setMessages (fun _ => []) st in
  let st := setError None st in
  let st := setIsLoading false st in
  let initialGreeting :=
    {| id := lit "reset-greet-" ++ Number_toString now;
       text := resetGreetingText;
       sender := AI;
       timestamp := date |} in
  (setMessages (fun _ => [initialGreeting]) st, fx ++ [ResetChatSession]).

(** ** Speech synthesis *)

Definition handlePlaySpeech (st : State) (w : Window)
    (text messageId : jsstring) : State * list Effect :=
  if negb (speechSynthesisSupported st) || negb (truthy text) then (st, [])
  else
    let stop_here :=
      speechSynthesis_speaking w &&
      match currentlySpeakingMessageId st with
      | Some cur => jsstring_eqb cur messageId
      | None => false
      end in
    let fx := if speechSynthesis_speaking w then [SpeechCancel] else [] in
    if stop_here then (setCurrentlySpeakingMessageId None st, fx)
    else
      let u := mkUtterance text messageId in
      (setUtteranceRef (Some u) st, fx ++ [SpeechSpeak u]).

(** The callbacks [handlePlaySpeech] puts on an utterance. *)
Definition utterance_onstart (u : Utterance) (st : State) : State :=
  setCurrentlySpeakingMessageId (Some (utteranceMessageId u)) st.
Definition utterance_onend (st : State) : State :=
  setCurrentlySpeakingMessageId None st.
Definition utterance_onerror (st : State) : State :=
  let st := setError (Some (lit "Oops, couldn't play that message. "
                            ++ [0xD83D; 0xDE2C]%N)) st in
  setCurrentlySpeakingMessageId None st.

Definition handleStopSpeech (st : State) (w : Window) : State * list Effect :=
  if speechSynthesisSupported st && speechSynthesis_speaking w
  then (setCurrentlySpeakingMessageId None st, [SpeechCancel])
  else (st, []).

Definition handleSpeechError (st : State) (message : jsstring) : State :=
  setError (Some message) st.

(** ** Rendering, as far as the handlers depend on it *)

(** ChatHistory: [isCurrentlySpeaking={currentlySpeakingMessageId === msg.id}] *)
Definition isCurrentlySpeaking (st : State) (msg : Message) : bool :=
  match currentlySpeakingMessageId st with
  | Some cur => jsstring_eqb cur (id msg)
  | None => false
  end.

(** ChatMessage: the speaker button is rendered for
    [isAI && speechSynthesisSupported && message.text]. *)
Definition speakerButtonShown (st : State) (msg : Message) : bool :=
  SenderType_eqb (sender msg) AI && speechSynthesisSupported st && truthy (text msg).

(** ChatMessage.handleSpeakerClick *)
Definition handleSpeakerClick (st : State) (w : Window) (msg : Message)
    : State * list Effect :=
  if isCurrentlySpeaking st msg
  then handleStopSpeech st w
  else handlePlaySpeech st w (text msg) (id msg).

(** The error banner of the page, [{error && (<div>...{error}</div>)}]:
    the text it shows and the controls it carries; [None] when it is not
    rendered. *)
Record Banner := mkBanner {
  bannerText : jsstring;
  bannerControls : list (State -> State)   (* click handlers inside it *)
}.

Definition renderErrorBanner (st : State) : option Banner :=
  match error st with
  | Some e => if truthy e then Some (mkBanner e []) else None
  | None => None
  end.

End App.

(* ================================================================== *)
(** * ChatInput (components/ChatMessage.tsx, second half) *)
(* ================================================================== *)

Module ChatInput.

(** The props that are data; the two callback props show up as the
    actions [OnSendMessage] and [OnSpeechError]. *)
Record Props := mkProps {
  isLoading : bool;
  speechRecognitionSupported : bool
}.

(** [inputValue] and [isRecording] are React state,
    [latestFinalTranscriptRef] is the ref's [current]. *)
Record State := mkState {
  inputValue : jsstring;
  isRecording : bool;
  latestFinalTranscriptRef : jsstring
}.

Definition initialState : State := mkState [] false [].

Definition setInputValue (v : jsstring) (st : State) : State :=
  mkState v (isRecording st) (latestFinalTranscriptRef st).
Definition setIsRecording (b : bool) (st : State) : State :=
  mkState (inputValue st) b (latestFinalTranscriptRef st).
Definition setLatestFinalTranscript (t : jsstring) (st : State) : State :=
  mkState (inputValue st) (isRecording st) t.

(** Calls a handler makes: on its callback props, on the recognition
    object, on the timer. *)
Inductive Action :=
| OnSendMessage (message : jsstring)
| OnSpeechError (message : jsstring)
| RecognitionStart      (* recognition.start() that returned *)
| RecognitionStop       (* recognition.stop() *)
| SetTimeoutRetry.      (* setTimeout(retry, 100) *)

(** [event.results[i]]: its [isFinal] flag and the transcript of its
    alternative [0], the only one the code reads. *)
Record SpeechRecognitionResult := mkResult {
  isFinal : bool;
  transcript : jsstring
}.

Record SpeechRecognitionEvent := mkEvent {
  resultIndex : nat;
  results : list SpeechRecognitionResult
}.

Inductive SpeechRecognitionErrorCode :=
| no_speech | aborted | audio_capture | network | not_allowed
| service_not_allowed | bad_grammar | language_not_supported.

Definition errorCodeString (c : SpeechRecognitionErrorCode) : jsstring :=
  match c with
  | no_speech => lit "no-speech"
  | aborted => lit "aborted"
  | audio_capture => lit "audio-capture"
  | network => lit "network"
  | not_allowed => lit "not-allowed"
  | service_not_allowed => lit "service-not-allowed"
  | bad_grammar => lit "bad-grammar"
  | language_not_supported => lit "language-not-supported"
  end.

Record SpeechRecognitionErrorEvent := mkErrorEvent {
  error : SpeechRecognitionErrorCode;
  message : jsstring
}.

(** The loop of [onresult]: the transcripts from [resultIndex] on,
    concatenated. *)
Definition currentTranscriptOf (event : SpeechRecognitionEvent) : jsstring :=
  concat (map transcript (skipn (resultIndex event) (results event))).

(** [event.results[event.results.length - 1].isFinal].  On an empty
    result list the source throws here, after [setInputValue]; the ref is
    left as it is, as for a last result that is not final. *)
Definition lastIsFinal (event : SpeechRecognitionEvent) : bool :=
  match rev (results event) with
  | r :: _ => isFinal r
  | [] => false
  end.

(** recognition.onresult *)
Definition onresult (st : State) (event : SpeechRecognitionEvent) : State :=
  let currentTranscript := currentTranscriptOf event in
  let st := setInputValue currentTranscript st in
  if lastIsFinal event
  then setLatestFinalTranscript (trim currentTranscript) st
  else st.

(** recognition.onend *)
Definition onend (st : State) : State * list Action :=
  let st := setIsRecording false st in
  let textToSend := latestFinalTranscriptRef st in
  if truthy textToSend
  then (setLatestFinalTranscript [] (setInputValue [] st), [OnSendMessage textToSend])
  else (st, []).

(** The message [onerror] ends up with: every branch of the [switch]
    assigns it, so the two assignments before the [switch] are dead. *)
Definition speechErrorMessage (event : SpeechRecognitionErrorEvent) : jsstring :=
  match error event with
  | no_speech =>
      lit "Didn't catch that, could you try again? " ++ [0xD83E; 0xDD14]%N
  | audio_capture =>
      lit "Hmm, couldn't access your microphone. Check permissions? "
      ++ [0xD83C; 0xDFA4]%N
  | not_allowed =>
      lit "Looks like microphone access was denied. You can change this in browser settings if you want to use voice input! "
      ++ [0xD83D; 0xDC4D]%N
  | _ =>
      lit "Oops, voice input ran into a snag: " ++ errorCodeString (error event)
      ++ lit ". " ++ message event
  end.

(** recognition.onerror *)
Definition onerror (st : State) (event : SpeechRecognitionErrorEvent)
    : State * list Action :=
  let st := setIsRecording false st in
  (setLatestFinalTranscript [] st, [OnSpeechError (speechErrorMessage event)]).

(** handleSubmit, also reached from handleKeyPress on Enter *)
Definition handleSubmit (p : Props) (st : State) : State * list Action :=
  if truthy (trim (inputValue st)) && negb (isLoading p)
  then (setLatestFinalTranscript [] (setInputValue [] st),
        [OnSendMessage (trim (inputValue st))])
  else (st, []).

(** The textarea's [onChange]. *)
Definition onChange (st : State) (value : jsstring) : State :=
  setInputValue value st.

(** How a call of [recognition.start()] ends. *)
Inductive StartOutcome :=
| Started
| StartThrows (name : jsstring).   (* error.name *)

(** toggleRecording.  [recognitionAvailable] tells whether the module
    level [recognition] object exists. *)
Definition toggleRecording (recognitionAvailable : bool) (p : Props)
    (start : StartOutcome) (st : State) : State * list Action :=
  if negb recognitionAvailable || negb (speechRecognitionSupported p) then
    (st, [OnSpeechError (lit "Sorry, voice input isn't available on your browser. "
                         ++ [0xD83D; 0xDE15]%N)])
  else if isRecording st then (st, [RecognitionStop])
  else
    let st := setLatestFinalTranscript [] (setInputValue [] st) in
    match start with
    | Started => (setIsRecording true st, [RecognitionStart])
    | StartThrows name =>
        if jsstring_eqb name (lit "NotAllowedError")
           || jsstring_eqb name (lit "SecurityError")
        then (setIsRecording false st,
              [OnSpeechError (lit "Microphone access denied. Please enable it in your browser settings. "
                              ++ [0xD83C; 0xDFA4]%N)])
        else if jsstring_eqb name (lit "InvalidStateError")
        then (st, [RecognitionStop; SetTimeoutRetry])
        else (setIsRecording false st,
              [OnSpeechError (lit "Couldn't start voice recording. Maybe try again?")])
    end.

(** The callback of the [setTimeout] in toggleRecording. *)
Definition retryStart (start : StartOutcome) (st : State) : State * list Action :=
  let st := setLatestFinalTranscript [] (setInputValue [] st) in
  match start with
  | Started => (setIsRecording true st, [RecognitionStart])
  | StartThrows _ =>
      (setIsRecording false st,
       [OnSpeechError (lit "Still couldn't start voice recording. Try refreshing? "
                       ++ [0xD83E; 0xDD14]%N)])
  end.

(** The [disabled] attributes of the three controls. *)
Definition textareaDisabled (p : Props) (st : State) : bool :=
  isLoading p && negb (isRecording st).
Definition micButtonDisabled (p : Props) : bool :=
  isLoading p || negb (speechRecognitionSupported p).
Definition sendButtonDisabled (p : Props) (st : State) : bool :=
  isLoading p || negb (truthy (trim (inputValue st))) || isRecording st.

End ChatInput.

(* ================================================================== *)
(** * The page: App, ChatInput and the calls in flight *)
(* ================================================================== *)

Module Page.

(** The state of the page between two events: the state of [App], the
    state of its [ChatInput], and the locals of the [handleSendMessage]
    calls that are suspended at an [await]. *)
Record Sys := mkSys {
  app : App.State;
  input : ChatInput.State;
  inflight : list App.SendCtx
}.

Inductive Event :=
(* the composer *)
| TypeText (value : jsstring)
| PressEnter (w : App.Window) (clk : App.SendClock)
| ClickSend (w : App.Window) (clk : App.SendClock)
| ClickMic (start : ChatInput.StartOutcome)
| RetryTimer (start : ChatInput.StartOutcome)
(* the recognition object *)
| RecognitionResult (event : ChatInput.SpeechRecognitionEvent)
| RecognitionEnd (w : App.Window) (clk : App.SendClock)
| RecognitionError (event : ChatInput.SpeechRecognitionErrorEvent)
(* the stream of the [i]-th call in flight *)
| StreamChunk (i : nat) (chunk : Genai.GenerateContentResponse)
| StreamEnd (i : nat)
| StreamThrow (i : nat) (e : JsThrown)
(* the header and the transcript *)
| ClickNewChat (w : App.Window) (now date : Z)
| ClickSpeaker (w : App.Window) (k : nat)
(* the utterance callbacks *)
| UtteranceStart (u : App.Utterance)
| UtteranceEnd
| UtteranceError.

Definition propsOf (s : Sys) : ChatInput.Props :=
  ChatInput.mkProps (App.isLoading (app s)) (App.speechRecognitionSupported (app s)).

(** [App] renders the configuration notice, and nothing else, for
    [apiKeyMissing && messages.length === 0]. *)
Definition pageShown (s : Sys) : bool :=
  negb (App.apiKeyMissing (app s) &&
        match App.messages (app s) with [] => true | _ => false end).

Definition removeNth {A} (i : nat) (l : list A) : list A :=
  firstn i l ++ skipn (S i) l.
Definition updateNth {A} (i : nat) (x : A) (l : list A) : list A :=
  firstn i l ++ x :: skipn (S i) l.

(** A call [ChatInput] makes on one of its callback props, run in [App]. *)
Definition deliver (w : App.Window) (clk : App.SendClock) (s : Sys)
    (a : ChatInput.Action) : Sys :=
  match a with
  | ChatInput.OnSendMessage message =>
      let '(app', _, started) := App.handleSendMessage_begin (app s) w message clk in
      mkSys app' (input s)
            (inflight s ++ match started with Some ctx => [ctx] | None => [] end)
  | ChatInput.OnSpeechError message =>
      mkSys (App.handleSpeechError (app s) message) (input s) (inflight s)
  | _ => s
  end.

(** A [ChatInput] handler's result put back in the page. *)
Definition afterInput (w : App.Window) (clk : App.SendClock) (s : Sys)
    (r : ChatInput.State * list ChatInput.Action) : Sys :=
  fold_left (deliver w clk) (snd r) (mkSys (app s) (fst r) (inflight s)).

(** Passed along with the handlers that never call [onSendMessage], where
    the window and the clock are not read. *)
Definition noWindow : App.Window := App.mkWindow false false false.
Definition noClock : App.SendClock := App.mkSendClock 0 0 0 0.

Section Session.
(** Whether the module-level [recognition] object was created. *)
Variable recognitionAvailable : bool.

(** Whether an event can occur: its control is rendered and not
    disabled, its stream is in flight.  The callbacks of the recognition
    object, of the retry timer and of the utterances are let through
    whenever the page is shown, which is more than a browser does. *)
Definition enabled (s : Sys) (e : Event) : bool :=
  match e with
  | TypeText _ | PressEnter _ _ =>
      pageShown s && negb (ChatInput.textareaDisabled (propsOf s) (input s))
  | ClickSend _ _ =>
      pageShown s && negb (ChatInput.sendButtonDisabled (propsOf s) (input s))
  | ClickMic _ =>
      pageShown s && negb (ChatInput.micButtonDisabled (propsOf s))
  | RetryTimer _ => pageShown s && recognitionAvailable
  | RecognitionResult _ | RecognitionEnd _ _ | RecognitionError _ =>
      pageShown s && recognitionAvailable
  | StreamChunk i _ | StreamEnd i | StreamThrow i _ =>
      i <? length (inflight s)
  | ClickNewChat _ _ _ => pageShown s
  | ClickSpeaker _ k =>
      pageShown s &&
      match nth_error (App.messages (app s)) k with
      | Some msg => App.speakerButtonShown (app s) msg
      | None => false
      end
  | UtteranceStart _ | UtteranceEnd | UtteranceError => pageShown s
  end.

(** The handler an event runs. *)
Definition react (s : Sys) (e : Event) : Sys :=
  match e with
  | TypeText value =>
      mkSys (app s) (ChatInput.onChange (input s) value) (inflight s)
  | PressEnter w clk | ClickSend w clk =>
      afterInput w clk s (ChatInput.handleSubmit (propsOf s) (input s))
  | ClickMic start =>
      afterInput noWindow noClock s
        (ChatInput.toggleRecording recognitionAvailable (propsOf s) start (input s))
  | RetryTimer start =>
      afterInput noWindow noClock s (ChatInput.retryStart start (input s))
  | RecognitionResult event =>
      mkSys (app s) (ChatInput.onresult (input s) event) (inflight s)
  | RecognitionEnd w clk =>
      afterInput w clk s (ChatInput.onend (input s))
  | RecognitionError event =>
      afterInput noWindow noClock s (ChatInput.onerror (input s) event)
  | StreamChunk i chunk =>
      match nth_error (inflight s) i with
      | Some ctx =>
          let '(app', ctx') := App.handleSendMessage_chunk (app s) ctx chunk in
          mkSys app' (input s) (updateNth i ctx' (inflight s))
      | None => s
      end
  | StreamEnd i =>
      mkSys (App.handleSendMessage_finally (app s)) (input s)
            (removeNth i (inflight s))
  | StreamThrow i e =>
      match nth_error (inflight s) i with
      | Some ctx =>
          mkSys (App.handleSendMessage_finally
                   (App.handleSendMessage_catch (app s) ctx e))
                (input s) (removeNth i (inflight s))
      | None => s
      end
  | ClickNewChat w now date =>
      mkSys (fst (App.handleResetConversation (app s) w now date))
            (input s) (inflight s)
  | ClickSpeaker w k =>
      match nth_error (App.messages (app s)) k with
      | Some msg => mkSys (fst (App.handleSpeakerClick (app s) w msg))
                          (input s) (inflight s)
      | None => s
      end
  | UtteranceStart u =>
      mkSys (App.utterance_onstart u (app s)) (input s) (inflight s)
  | UtteranceEnd =>
      mkSys (App.utterance_onend (app s)) (input s) (inflight s)
  | UtteranceError =>
      mkSys (App.utterance_onerror (app s)) (input s) (inflight s)
  end.

Definition step (s : Sys) (e : Event) : Sys :=
  if enabled s e then react s e else s.

Definition run (s : Sys) (events : list Event) : Sys :=
  fold_left step events s.

(** The page after the mount effect. *)
Definition init (API_KEY : option jsstring) (w : App.Window) (now date : Z) : Sys :=
  mkSys (App.mount API_KEY w now date App.initialState) ChatInput.initialState [].

Inductive reachable : Sys -> Prop :=
| reachable_init API_KEY w now date : reachable (init API_KEY w now date)
| reachable_step s e : reachable s -> reachable (step s e).

(** The clock readings of the [handleSendMessage] call an event makes
    past its [apiKeyMissing] guard, if it makes one. *)
Definition sendClockOf (s : Sys) (e : Event) : option App.SendClock :=
  if enabled s e && negb (App.apiKeyMissing (app s)) then
    match e with
    | PressEnter _ clk | ClickSend _ clk =>
        match snd (ChatInput.handleSubmit (propsOf s) (input s)) with
        | ChatInput.OnSendMessage _ :: _ => Some clk
        | _ => None
        end
    | RecognitionEnd _ clk =>
        match snd (ChatInput.onend (input s)) with
        | ChatInput.OnSendMessage _ :: _ => Some clk
        | _ => None
        end
    | _ => None
    end
  else None.

(** The clock readings of all such calls along a run. *)
Fixpoint sendClocks (s : Sys) (events : list Event) : list App.SendClock :=
  match events with
  | [] => []
  | e :: rest =>
      match sendClockOf s e with
      | Some clk => clk :: sendClocks (step s e) rest
      | None => sendClocks (step s e) rest
      end
  end.

End Session.
End Page.

(* ================================================================== *)
(** * Vocabulary of the statements *)
(* ================================================================== *)

(** A decimal numeral starts with a digit or a minus sign. *)
Definition isNumeralStart (c : char16) : bool :=
  ((48 <=? c) && (c <=? 57) || (c =? 45))%N.

(** The text a chunk contributes: nothing when [chunk.text] is undefined
    (or empty). *)
Definition fragmentOf (chunk : Genai.GenerateContentResponse) : jsstring :=
  match Genai.text chunk with Some t => t | None => [] end.




(** The two messages a call of [handleSendMessage] appends, the second
    with the text it has at some later point. *)
Definition userMessageOf (text : jsstring) (clk : App.SendClock) : Message :=
  {| id := Number_toString (App.userNow clk) ++ lit "-user";
     text := text; sender := USER; timestamp := App.userDate clk |}.

Definition aiMessageOf (clk : App.SendClock) (t : jsstring) : Message :=
  {| id := Number_toString (App.aiNow clk) ++ lit "-ai";
     text := t; sender := AI; timestamp := App.aiDate clk |}.


Definition isSpeechSpeak (fx : App.Effect) : bool :=
  match fx with App.SpeechSpeak _ => true | _ => false end.

Definition isOnSendMessage (a : ChatInput.Action) : bool :=
  match a with ChatInput.OnSendMessage _ => true | _ => false end.

(** The greeting [handleResetConversation] builds. *)
Definition resetGreetingOf (now date : Z) : Message :=
  {| id := lit "reset-greet-" ++ Number_toString now;
     text := App.resetGreetingText; sender := AI; timestamp := date |}.

(** The greeting the mount effect builds. *)
Definition initialGreetingOf (now date : Z) : Message :=
  {| id := lit "init-greet-" ++ Number_toString now;
     text := App.initialGreetingText; sender := AI; timestamp := date |}.



(** Events that are not a recognition result whose last segment is
    final. *)
Definition notFinalResult (e : Page.Event) : bool :=
  match e with
  | Page.RecognitionResult event => negb (ChatInput.lastIsFinal event)
  | _ => true
  end.

(** The ref holds nothing, or text that is not blank. *)
Definition refTrimmed (st : ChatInput.State) : Prop :=
  truthy (ChatInput.latestFinalTranscriptRef st) = true ->
  ~ blank (ChatInput.latestFinalTranscriptRef st).

(** What an event does to the transcript, to the calls in flight and to
    the error banner: it keeps the transcript (and may retire a call), it
    starts a send, it replaces the text of the messages of the [k]-th call
    in flight (whose accumulator then holds that text, unless the call is
    retired), or it resets the conversation. *)
Inductive StepKind (ra : bool) (s : Page.Sys) (e : Page.Event) : Prop :=
| KeepsTranscript :
    Page.sendClockOf ra s e = None ->
    App.messages (Page.app (Page.step ra s e)) = App.messages (Page.app s) ->
    (Page.inflight (Page.step ra s e) = Page.inflight s \/
     exists k, Page.inflight (Page.step ra s e) = Page.removeNth k (Page.inflight s)) ->
    (App.error (Page.app (Page.step ra s e)) = None -> App.error (Page.app s) = None) ->
    StepKind ra s e
| Sends (t : jsstring) (clk : App.SendClock) :
    Page.sendClockOf ra s e = Some clk ->
    truthy t = true ->
    (t = trim (ChatInput.inputValue (Page.input s)) \/
     t = ChatInput.latestFinalTranscriptRef (Page.input s)) ->
    App.messages (Page.app (Page.step ra s e))
    = App.messages (Page.app s) ++ [userMessageOf t clk; aiMessageOf clk []] ->
    Page.inflight (Page.step ra s e)
    = Page.inflight s ++ [App.mkSendCtx (id (aiMessageOf clk [])) []] ->
    StepKind ra s e
| ReplacesText (ctx : App.SendCtx) (t : jsstring) (k : nat) :
    Page.sendClockOf ra s e = None ->
    nth_error (Page.inflight s) k = Some ctx ->
    App.messages (Page.app (Page.step ra s e))
    = App.replaceText (App.aiMessageId ctx) t (App.messages (Page.app s)) ->
    (Page.inflight (Page.step ra s e)
     = Page.updateNth k (App.mkSendCtx (App.aiMessageId ctx) t) (Page.inflight s) \/
     Page.inflight (Page.step ra s e) = Page.removeNth k (Page.inflight s)) ->
    (App.error (Page.app (Page.step ra s e)) = None -> App.error (Page.app s) = None) ->
    StepKind ra s e
| Resets (w : App.Window) (now date : Z) :
    Page.sendClockOf ra s e = None ->
    e = Page.ClickNewChat w now date ->
    App.messages (Page.app (Page.step ra s e)) = [resetGreetingOf now date] ->
    Page.inflight (Page.step ra s e) = Page.inflight s ->
    StepKind ra s e.

(** Where a message of the transcript comes from. *)
Inductive MessageOrigin (m : Message) : Prop :=
| FromMount (now date : Z) : m = initialGreetingOf now date -> MessageOrigin m
| FromReset (now date : Z) : m = resetGreetingOf now date -> MessageOrigin m
| FromUser (t : jsstring) (clk : App.SendClock) :
    ~ blank t -> m = userMessageOf t clk -> MessageOrigin m
| FromAssistant (clk : App.SendClock) (t : jsstring) :
    m = aiMessageOf clk t -> MessageOrigin m.

Definition isAssistantId (i : jsstring) : Prop :=
  exists n, i = Number_toString n ++ lit "-ai".

(** The invariant of the page the statements below rest on. *)
Definition wellFormed (s : Page.Sys) : Prop :=
  Forall MessageOrigin (App.messages (Page.app s)) /\
  Forall isAssistantId (map App.aiMessageId (Page.inflight s)) /\
  refTrimmed (Page.input s).

(** An event that opens a recognition session: it called
    [recognition.start()] and the call returned. *)
Definition startsSession (ra : bool) (s : Page.Sys) (e : Page.Event) : Prop :=
  (exists start, e = Page.ClickMic start /\
     In ChatInput.RecognitionStart
        (snd (ChatInput.toggleRecording ra (Page.propsOf s) start (Page.input s))))
  \/ e = Page.RetryTimer ChatInput.Started.

(** In state [s] the end of the recognition session is a no-op: [onend]
    calls nothing and the transcript stays as it is. *)
Definition endsQuietly (ra : bool) (s : Page.Sys) : Prop :=
  snd (ChatInput.onend (Page.input s)) = [] /\
  forall w clk,
    App.messages (Page.app (Page.step ra s (Page.RecognitionEnd w clk)))
    = App.messages (Page.app s).

(** The message id marked as currently speaking. *)
Definition markedSpeaking (st : App.State) (mid : jsstring) : Prop :=
  App.currentlySpeakingMessageId st = Some mid.

(** Whether each event of a run can occur in the state it meets. *)
Fixpoint allEnabled (ra : bool) (s : Page.Sys) (events : list Page.Event) : bool :=
  match events with
  | [] => true
  | e :: rest => Page.enabled ra s e && allEnabled ra (Page.step ra s e) rest
  end.

Definition isGreetingId (i : jsstring) : Prop :=
  exists now, i = lit "init-greet-" ++ Number_toString now \/
              i = lit "reset-greet-" ++ Number_toString now.

(** The ids of the messages of the sends that read the clocks [used]. *)
Definition sendIds (used : list App.SendClock) : list jsstring :=
  flat_map (fun c => [id (userMessageOf [] c); id (aiMessageOf c [])]) used.

(** The ids of a transcript: at most one greeting id, in front, then
    distinct ids of sends that read the clocks [used]. *)
Definition idsWithin (used : list App.SendClock) (ids : list jsstring) : Prop :=
  exists gid rest,
    ids = gid ++ rest /\
    (gid = [] \/ exists i, gid = [i] /\ isGreetingId i) /\
    NoDup rest /\
    incl rest (sendIds used).

(** The position of the most recently appended assistant message. *)
Fixpoint lastAssistantFrom (k : nat) (msgs : list Message) (found : option nat)
    : option nat :=
  match msgs with
  | [] => found
  | m :: rest =>
      lastAssistantFrom (S k) rest
        (if SenderType_eqb (sender m) AI then Some k else found)
  end.

Definition lastAssistantIndex (msgs : list Message) : option nat :=
  lastAssistantFrom 0 msgs None.

(** A change of the transcript as the specification words it: messages
    appended at the end, the whole sequence cleared down to a greeting, or
    the text, and only the text, of the most recently appended assistant
    message changed in place. *)
Definition changeAsSpecified (old new : list Message) : Prop :=
  (exists added, new = old ++ added) \/
  (exists greeting, new = [greeting]) \/
  (length new = length old /\
   forall k m m', nth_error old k = Some m -> nth_error new k = Some m' ->
     m' = m \/
     (lastAssistantIndex old = Some k /\
      id m' = id m /\ sender m' = sender m /\ timestamp m' = timestamp m)).

(** A change of the transcript as the code makes it: the third case is
    the text, and only the text, of the assistant messages that carry the
    id of a call in flight. *)
Definition changeAsCoded (inflight : list App.SendCtx) (old new : list Message) : Prop :=
  (exists added, new = old ++ added) \/
  (exists now date, new = [resetGreetingOf now date]) \/
  (exists ctx t,
     In ctx inflight /\
     new = App.replaceText (App.aiMessageId ctx) t old /\
     length new = length old /\
     forall k m m', nth_error old k = Some m -> nth_error new k = Some m' ->
       id m' = id m /\ sender m' = sender m /\ timestamp m' = timestamp m /\
       (m' = m \/ (sender m = AI /\ id m = App.aiMessageId ctx /\ text m' = t))).


(* ================================================================== *)
(** * App.tsx: the voice of an utterance *)
(* ================================================================== *)

Module Voices.

(** [s.startsWith(search)] and [s.includes(search)] *)
Fixpoint startsWith (s search : jsstring) : bool :=
  match search, s with
  | [], _ => true
  | x :: search', y :: s' => N.eqb x y && startsWith s' search'
  | _ :: _, [] => false
  end.

Fixpoint includes (s search : jsstring) : bool :=
  match s with
  | [] => startsWith [] search
  | _ :: s' => startsWith s search || includes s' search
  end.

(** The fields of a [SpeechSynthesisVoice] the code reads. *)
Record SpeechSynthesisVoice := mkVoice {
  lang : jsstring;
  name : jsstring;
  default : bool
}.

Section Selection.
(** [String.prototype.toLowerCase], left open. *)
Variable toLowerCase : jsstring -> jsstring.

Definition isGoogleFemaleEnglish (voice : SpeechSynthesisVoice) : bool :=
  includes (lang voice) (lit "en") && includes (name voice) (lit "Google")
  && includes (name voice) (lit "Female").

Definition isFemaleEnglish (voice : SpeechSynthesisVoice) : bool :=
  includes (lang voice) (lit "en") && includes (name voice) (lit "Female").

Definition isFallbackEnglish (voice : SpeechSynthesisVoice) : bool :=
  includes (lang voice) (lit "en")
  && (default voice || includes (toLowerCase (name voice)) (lit "female")).

(** The three [voices.find] calls of [handlePlaySpeech]: the voice it puts
    on the utterance, [None] when it leaves the utterance's voice alone. *)
Definition tejaswiVoice (voices : list SpeechSynthesisVoice)
    : option SpeechSynthesisVoice :=
  match find isGoogleFemaleEnglish voices with
  | Some voice => Some voice
  | None =>
      match find isFemaleEnglish voices with
      | Some voice => Some voice
      | None => find isFallbackEnglish voices
      end
  end.

End Selection.
End Voices.

(* ================================================================== *)
(** * ChatMessage (components/ChatMessage.tsx, first half): formatText *)
(* ================================================================== *)

Module ChatMessage.

(** The characters the [.] of a regular expression does not match. *)
Definition isLineTerminator (c : char16) : bool :=
  match c with
  | 0x000A | 0x000D | 0x2028 | 0x2029 => true
  | _ => false
  end%N.

(** [text.split('\n')] *)
Fixpoint splitLines (s : jsstring) : list jsstring :=
  match s with
  | [] => [[]]
  | c :: s' =>
      if (c =? 0x0A)%N then [] :: splitLines s'
      else match splitLines s' with
           | line :: lines => (c :: line) :: lines
           | [] => [[c]]
           end
  end.

(** The lazy [.*?] of a pattern, followed by the rest of the pattern [k]:
    the rest is tried first, and a character that is not a line terminator
    is consumed only when the rest fails.  Returns what the dots consumed
    and what the rest returned. *)
Fixpoint lazyDots {A : Type} (k : jsstring -> option A) (s : jsstring)
    : option (jsstring * A) :=
  match k s with
  | Some r => Some ([], r)
  | None =>
      match s with
      | c :: s' =>
          if isLineTerminator c then None
          else match lazyDots k s' with
               | Some (dots, r) => Some (c :: dots, r)
               | None => None
               end
      | [] => None
      end
  end.

(** [\[(.*?)\]\((.*?)\)] at the start of [s], followed by the rest of the
    pattern [k]: the two groups and what the rest returned. *)
Definition markdownLink {A : Type} (k : jsstring -> option A) (s : jsstring)
    : option (jsstring * jsstring * A) :=
  match s with
  | 0x5B :: s1 =>                                         (* [ *)
      match lazyDots
              (fun s2 =>
                 match s2 with
                 | 0x5D :: 0x28 :: s3 =>                  (* ]( *)
                     lazyDots (fun s4 =>
                                 match s4 with
                                 | 0x29 :: s5 => k s5     (* ) *)
                                 | _ => None
                                 end) s3
                 | _ => None
                 end) s1 with
      | Some (label, (href, r)) => Some (label, href, r)
      | None => None
      end
  | _ => None
  end%N.

(** [https?:\/\/] at the start of [s]: what it matched and what follows. *)
Definition urlScheme (s : jsstring) : option (jsstring * jsstring) :=
  match s with
  | 0x68 :: 0x74 :: 0x74 :: 0x70 :: 0x73 :: 0x3A :: 0x2F :: 0x2F :: s' =>
      Some (lit "https://", s')
  | 0x68 :: 0x74 :: 0x74 :: 0x70 :: 0x3A :: 0x2F :: 0x2F :: s' =>
      Some (lit "http://", s')
  | _ => None
  end%N.

(** The greedy [\S+] at the end of a pattern: the longest run of
    characters that are not white space, and what follows it. *)
Fixpoint nonSpaces (s : jsstring) : jsstring * jsstring :=
  match s with
  | [] => ([], [])
  | c :: s' =>
      if isWhiteSpace c then ([], s)
      else let '(run, rest) := nonSpaces s' in (c :: run, rest)
  end.

(** [https?:\/\/\S+] at the start of [s]. *)
Definition bareUrl (s : jsstring) : option (jsstring * jsstring) :=
  match urlScheme s with
  | Some (scheme, s') =>
      match nonSpaces s' with
      | (c :: run, rest) => Some (scheme ++ c :: run, rest)
      | ([], _) => None
      end
  | None => None
  end.

(** The pattern of the [split], [(\[.*?\]\(.*?\)|https?:\/\/\S+)], at the
    start of [s]: the text it matched, which is also its one group, and
    what follows. *)
Definition linkAt (s : jsstring) : option (jsstring * jsstring) :=
  match markdownLink (fun rest => Some rest) s with
  | Some (label, href, rest) =>
      Some ((0x5B :: label) ++ (0x5D :: 0x28 :: href) ++ [0x29], rest)%N
  | None => bareUrl s
  end.

(** [line.split(/(...)/g)] from the position where [s] starts, [piece]
    being the characters passed since the last match, last one first: the
    pattern is tried at each position in turn; a match closes the piece,
    adds its group and goes on after it.  Each turn uses one unit of
    [fuel]. *)
Fixpoint splitLinksFrom (fuel : nat) (piece s : jsstring) : list jsstring :=
  match fuel with
  | O => []
  | S fuel' =>
      match s with
      | [] => [rev piece]
      | c :: s' =>
          match linkAt s with
          | Some (group, rest) => rev piece :: group :: splitLinksFrom fuel' [] rest
          | None => splitLinksFrom fuel' (c :: piece) s'
          end
      end
  end.

Definition splitLinks (line : jsstring) : list jsstring :=
  splitLinksFrom (S (length line)) [] line.

(** What a part is rendered as: the part itself, or an [<a>] element. *)
Inductive Node :=
| TextNode (part : jsstring)
| Anchor (href label : jsstring).

(** [part.match(/^https?:\/\/\S+$/)] *)
Definition isBareUrl (part : jsstring) : bool :=
  match bareUrl part with
  | Some (_, []) => true
  | _ => false
  end.

(** The callback of the inner [map]. *)
Definition renderPart (part : jsstring) : Node :=
  match markdownLink (fun rest => match rest with [] => Some tt | _ => None end) part with
  | Some (label, href, _) => Anchor href label
  | None => if isBareUrl part then Anchor part part else TextNode part
  end.

(** A rendered line: its nodes, and whether a [<br />] follows. *)
Record Line := mkLine {
  nodes : list Node;
  lineBreak : bool
}.

Fixpoint formatLines (count lineIndex : nat) (lines : list jsstring) : list Line :=
  match lines with
  | [] => []
  | line :: rest =>
      mkLine (map renderPart (splitLinks line)) (lineIndex <? count - 1)
      :: formatLines count (S lineIndex) rest
  end.

(** formatText *)
Definition formatText (text : jsstring) : list Line :=
  formatLines (length (splitLines text)) 0 (splitLines text).

End ChatMessage.

(** A transcript whose first message is a greeting, of the mount or of a
    reset. *)
Definition startsWithGreeting (msgs : list Message) : Prop :=
  exists g rest, msgs = g :: rest /\
    exists now date, g = initialGreetingOf now date \/ g = resetGreetingOf now date.

Definition isClickNewChat (e : Page.Event) : bool :=
  match e with Page.ClickNewChat _ _ _ => true | _ => false end.

(** The three flags no handler sets after the mount. *)
Definition sameConfiguration (a b : App.State) : Prop :=
  App.apiKeyMissing a = App.apiKeyMissing b /\
  App.speechSynthesisSupported a = App.speechSynthesisSupported b /\
  App.speechRecognitionSupported a = App.speechRecognitionSupported b.

(** The calls a handler makes never start an utterance over one that is
    being spoken: there is at most one [speak()], and while the
    synthesiser is speaking a [cancel()] comes before it. *)
Definition neverSpeaksOver (speaking : bool) (fx : list App.Effect) : Prop :=
  length (filter isSpeechSpeak fx) <= 1 /\
  (speaking = true ->
   forall before u after, fx = before ++ App.SpeechSpeak u :: after ->
     In App.SpeechCancel before).

(** Text with no white space at either end, and not empty. *)
Definition trimmed (t : jsstring) : Prop := trim t = t /\ t <> [].

(** [lines.join('\n')] *)
Fixpoint joinLines (lines : list jsstring) : jsstring :=
  match lines with
  | [] => []
  | [line] => line
  | line :: rest => line ++ 0x0A%N :: joinLines rest
  end.

(** The number of line feeds of a text. *)
Definition lineFeeds (text : jsstring) : nat :=
  length (filter (fun c => (c =? 0x0A)%N) text).

Definition dotText (s : jsstring) : Prop :=
  Forall (fun c => ChatMessage.isLineTerminator c = false) s.

Definition spaceFree (s : jsstring) : Prop :=
  Forall (fun c => isWhiteSpace c = false) s.

(** The text of a markdown link, [[label](href)]. *)
Definition markdownSource (label href : jsstring) : jsstring :=
  (0x5B%N :: label) ++ (0x5D%N :: 0x28%N :: href) ++ [0x29%N].

(** A bare URL: a scheme, then at least one character, none of them white
    space. *)
Definition isUrlText (part : jsstring) : Prop :=
  exists scheme rest,
    (scheme = lit "http://" \/ scheme = lit "https://") /\
    part = scheme ++ rest /\ rest <> [] /\ spaceFree rest.

(** Nodes that go text, anchor, text, ..., anchor, text. *)
Inductive Alternating : list ChatMessage.Node -> Prop :=
| alternating_last (t : jsstring) : Alternating [ChatMessage.TextNode t]
| alternating_link (t href label : jsstring) (rest : list ChatMessage.Node) :
    Alternating rest ->
    Alternating (ChatMessage.TextNode t :: ChatMessage.Anchor href label :: rest).

(** The text of a markdown link whose label and target stay on one line. *)
Definition isMarkdownText (part : jsstring) : Prop :=
  exists label href, part = markdownSource label href /\ dotText label /\ dotText href.

(** The texts the pattern of the split matches. *)
Definition isLinkText (part : jsstring) : Prop := isMarkdownText part \/ isUrlText part.

Definition startsWithSpace (s : jsstring) : Prop :=
  match s with
  | [] => True
  | c :: _ => isWhiteSpace c = true
  end.

Definition endsWithSpace (s : jsstring) : Prop := startsWithSpace (rev s).

(** Case analysis on a character matched against a literal: only the
    case of the literal is left. *)
Ltac literal c H :=
  destruct c as [|c]; [discriminate H|];
  do 7 (try (destruct c as [c|c|]; try discriminate H)).


(** ** Histories of a run *)




(** [t] is the text the composer held, without the white space at its
    ends, when the Enter key or the send button was used at some point of
    the run. *)
Definition submittedIn (ra : bool) (s0 : Page.Sys) (events : list Page.Event)
    (t : jsstring) : Prop :=
  exists before e after w clk,
    events = before ++ e :: after /\
    (e = Page.PressEnter w clk \/ e = Page.ClickSend w clk) /\
    Page.enabled ra (Page.run ra s0 before) e = true /\
    t = trim (ChatInput.inputValue (Page.input (Page.run ra s0 before))).

(** [t] is the transcript, without the white space at its ends, of a
    final recognition result delivered at some point of the run. *)
Definition dictatedIn (ra : bool) (s0 : Page.Sys) (events : list Page.Event)
    (t : jsstring) : Prop :=
  exists before event after,
    events = before ++ Page.RecognitionResult event :: after /\
    Page.enabled ra (Page.run ra s0 before) (Page.RecognitionResult event) = true /\
    ChatInput.lastIsFinal event = true /\
    t = trim (ChatInput.currentTranscriptOf event).



(* ================================================================== *)
(** * Facts about strings *)
(* ================================================================== *)

Example isWhiteSpace_samples :
  map isWhiteSpace [32; 9; 10; 13; 0xA0; 0x2003; 0x3000; 0xFEFF; 97; 0; 0x200B; 0x200D]%N
  = [true; true; true; true; true; true; true; true; false; false; false; false].
Proof. reflexivity. Qed.

Example trim_sample : trim (lit "  hi there ") = lit "hi there".
Proof. reflexivity. Qed.

Example trim_white_sample : trim ([9; 32; 10; 0xA0]%N) = [].
Proof. reflexivity. Qed.

Example Number_toString_samples :
  Number_toString 1718000000123 = lit "1718000000123" /\
  Number_toString 0 = lit "0" /\
  Number_toString (-5) = lit "-5".
Proof. repeat split. Qed.

Lemma jsstring_eqb_eq (a b : jsstring) : jsstring_eqb a b = true <-> a = b.
Proof.
  revert b; induction a as [|x a IH]; intros [|y b]; simpl; split;
    try congruence; try reflexivity.
  - rewrite andb_true_iff, N.eqb_eq, IH. intros [-> ->]; reflexivity.
  - intros [= -> ->]. now rewrite N.eqb_refl, (proj2 (IH b) eq_refl).
Qed.

Lemma jsstring_eqb_refl (a : jsstring) : jsstring_eqb a a = true.
Proof. now apply jsstring_eqb_eq. Qed.

Lemma jsstring_eqb_neq (a b : jsstring) : jsstring_eqb a b = false <-> a <> b.
Proof.
  split.
  - intros H E. apply jsstring_eqb_eq in E. congruence.
  - intros H. destruct (jsstring_eqb a b) eqn:E; [|reflexivity].
    apply jsstring_eqb_eq in E. contradiction.
Qed.

Lemma lit_inj (s t : string) : lit s = lit t -> s = t.
Proof.
  unfold lit. intros H.
  rewrite <- (string_of_list_ascii_of_string s), <- (string_of_list_ascii_of_string t).
  f_equal.
  revert H. generalize (list_ascii_of_string s) (list_ascii_of_string t).
  induction l as [|a l IH]; intros [|b l']; simpl; try congruence.
  intros [= Hab Hl]. f_equal; [|now apply IH].
  rewrite <- (ascii_N_embedding a), <- (ascii_N_embedding b). now rewrite Hab.
Qed.

Lemma Z_to_int_not_nil (n : Z) :
  Z.to_int n <> Decimal.Pos Decimal.Nil /\ Z.to_int n <> Decimal.Neg Decimal.Nil.
Proof.
  destruct n as [|p|p]; simpl; split; try discriminate;
    intros [= H]; now apply (DecimalPos.Unsigned.to_uint_nonnil p).
Qed.

Lemma Number_toString_inj (n m : Z) :
  Number_toString n = Number_toString m -> n = m.
Proof.
  intros H. apply lit_inj in H.
  apply DecimalZ.to_int_inj.
  destruct (Z_to_int_not_nil n) as [Hn1 Hn2], (Z_to_int_not_nil m) as [Hm1 Hm2].
  pose proof (NilZero.isi _ Hn1 Hn2) as En.
  pose proof (NilZero.isi _ Hm1 Hm2) as Em.
  rewrite H in En. congruence.
Qed.

Lemma Number_toString_head (n : Z) :
  exists c rest, Number_toString n = c :: rest /\ isNumeralStart c = true.
Proof.
  unfold Number_toString.
  destruct (Z.to_int n) as [d|d]; simpl.
  - destruct d; simpl; eexists; eexists; split; reflexivity.
  - eexists; eexists; split; reflexivity.
Qed.

(** The ids of the two messages of a send end in different letters, and a
    greeting id starts with a letter where a send id starts with a
    numeral. *)
Lemma user_id_inj (n m : Z) :
  Number_toString n ++ lit "-user" = Number_toString m ++ lit "-user" -> n = m.
Proof. intros H. apply app_inv_tail in H. now apply Number_toString_inj. Qed.

Lemma ai_id_inj (n m : Z) :
  Number_toString n ++ lit "-ai" = Number_toString m ++ lit "-ai" -> n = m.
Proof. intros H. apply app_inv_tail in H. now apply Number_toString_inj. Qed.

Lemma user_id_not_ai_id (n m : Z) :
  Number_toString n ++ lit "-user" <> Number_toString m ++ lit "-ai".
Proof.
  intros H. apply (f_equal (@rev _)) in H.
  rewrite !rev_app_distr in H. simpl in H. discriminate.
Qed.

Lemma send_id_not_greeting (n m : Z) (suffix prefix : string) (p : char16) (ps : jsstring) :
  lit prefix = p :: ps -> isNumeralStart p = false ->
  Number_toString n ++ lit suffix <> lit prefix ++ Number_toString m.
Proof.
  intros Hp Hnum H.
  destruct (Number_toString_head n) as (c & rest & E & Hc).
  rewrite E, Hp in H. simpl in H. injection H as -> _. congruence.
Qed.

Lemma trimStart_blank (s : jsstring) : blank s -> trimStart s = [].
Proof.
  induction 1 as [|c s Hc _ IH]; simpl; [reflexivity|]. now rewrite Hc.
Qed.

Lemma trim_blank (s : jsstring) : blank s -> trim s = [].
Proof.
  intros H. unfold trim, trimEnd. now rewrite (trimStart_blank s H).
Qed.

Lemma trimStart_head (s : jsstring) (c : char16) (r : jsstring) :
  trimStart s = c :: r -> isWhiteSpace c = false.
Proof.
  induction s as [|x s IH]; simpl; [discriminate|].
  destruct (isWhiteSpace x) eqn:E; [exact IH|].
  intros [= -> _]; exact E.
Qed.

(** What [trim] returns is empty or has a character that is not white
    space. *)
Lemma trim_not_blank (s : jsstring) : truthy (trim s) = true -> ~ blank (trim s).
Proof.
  unfold trim, trimEnd.
  destruct (trimStart (rev (trimStart s))) as [|c r] eqn:E; [discriminate|].
  intros _ B. apply trimStart_head in E.
  unfold blank in B. rewrite Forall_forall in B.
  specialize (B c). simpl in B. rewrite B in E; [discriminate|].
  apply in_or_app. right. now left.
Qed.

Lemma truthy_trim_not_blank (s : jsstring) : truthy (trim s) = true -> ~ blank s.
Proof.
  intros H B. rewrite (trim_blank s B) in H. discriminate.
Qed.

(* ================================================================== *)
(** * The chat service: failures of initialisation *)
(* ================================================================== *)

(** C10. When [initializeChat] throws, or when the chat handle is absent
    once the call resumes after it, the promise of
    [sendMessageToTejaswiStream] is resolved, not rejected, and the
    iterable it resolves to throws on its first [next()]: the error of the
    initialisation in the first case, the "Chat not initialized" error in
    the second. *)
Theorem sendMessageToTejaswiStream_init_failure_in_stream
    (API_KEY : option jsstring) (PROMPT : jsstring)
    (createThrows : option JsThrown)
    (whileSuspended : GeminiService.ServiceState -> GeminiService.ServiceState)
    (sendOutcome : Genai.Chat -> jsstring -> Genai.AsyncIterable + JsThrown)
    (userMessage : jsstring) (st : GeminiService.ServiceState) :
  let initialised := GeminiService.initializeChat API_KEY PROMPT createThrows st in
  (exists initError, snd initialised = inr initError) \/
  GeminiService.chat (whileSuspended (fst initialised)) = None ->
  exists stream e,
    snd (GeminiService.sendMessageToTejaswiStream API_KEY PROMPT createThrows
           whileSuspended sendOutcome userMessage st) = inl stream /\
    Genai.next stream = Genai.NextThrows e /\
    (snd initialised = inr e \/
     (snd initialised = inl tt /\
      e = ErrorObject (lit "Chat not initialized. Cannot send message."))).
Proof.
  intros initialised H. subst initialised.
  unfold GeminiService.sendMessageToTejaswiStream.
  destruct (GeminiService.initializeChat API_KEY PROMPT createThrows st)
    as [st1 [[]|initError]] eqn:E; simpl in *.
  - destruct H as [[e He]|H]; [discriminate|].
    rewrite H. simpl. eexists; eexists; repeat split. right. split; reflexivity.
  - eexists; eexists; repeat split. now left.
Qed.

Lemma sendMessageToTejaswiStream_init_failure_in_stream_witness :
  let st := GeminiService.mkService None None in
  let initialised := GeminiService.initializeChat None [] None st in
  ((exists initError, snd initialised = inr initError) \/
   GeminiService.chat (GeminiService.resetChatSession (fst initialised)) = None) /\
  exists stream e,
    snd (GeminiService.sendMessageToTejaswiStream None [] None
           GeminiService.resetChatSession (fun _ _ => inl Genai.IterReturn)
           (lit "hi") st) = inl stream /\
    Genai.next stream = Genai.NextThrows e /\
    (snd initialised = inr e \/
     (snd initialised = inl tt /\
      e = ErrorObject (lit "Chat not initialized. Cannot send message."))).
Proof.
  split.
  - left. eexists. reflexivity.
  - apply (sendMessageToTejaswiStream_init_failure_in_stream None []
             None GeminiService.resetChatSession
             (fun _ _ => inl Genai.IterReturn) (lit "hi")
             (GeminiService.mkService None None)).
    left. eexists. reflexivity.
Defined.

(** Initialisation fails exactly when no client is cached and the API key
    is unset or empty, or when no handle is cached and [chats.create]
    throws. *)
Lemma initializeChat_failure (API_KEY : option jsstring) (PROMPT : jsstring)
    (createThrows : option JsThrown) (st : GeminiService.ServiceState) (e : JsThrown) :
  snd (GeminiService.initializeChat API_KEY PROMPT createThrows st) = inr e <->
  (GeminiService.ai st = None /\ truthy_opt API_KEY = false /\
   e = ErrorObject (lit "API_KEY environment variable not set. Cannot initialize GoogleGenAI."))
  \/ ((GeminiService.ai st <> None \/ truthy_opt API_KEY = true) /\
      GeminiService.chat st = None /\ createThrows = Some e).
Proof.
  unfold GeminiService.initializeChat, GeminiService.getAiInstance,
    GeminiService.bind, GeminiService.get, GeminiService.ret,
    GeminiService.throw, GeminiService.try_catch, GeminiService.set_ai,
    GeminiService.set_chat.
  destruct st as [c a]; simpl.
  destruct a as [a|]; simpl.
  - destruct c as [c|]; simpl.
    + split; [discriminate|]. intros [(H & _)|(_ & H & _)]; discriminate.
    + destruct createThrows as [e'|]; simpl.
      * split.
        -- intros [= ->]. right. repeat split. left. discriminate.
        -- intros [(H & _)|(_ & _ & [= ->])]; [discriminate|reflexivity].
      * split; [discriminate|]. intros [(H & _)|(_ & _ & H)]; discriminate.
  - destruct API_KEY as [key|]; simpl.
    + destruct (truthy key) eqn:K; simpl.
      * destruct c as [c|]; simpl.
        -- split; [discriminate|].
           intros [(_ & H & _)|(_ & H & _)]; discriminate.
        -- destruct createThrows as [e'|]; simpl.
           ++ split.
              ** intros [= ->]. right. repeat split. now right.
              ** intros [(_ & H & _)|(_ & _ & [= ->])]; [discriminate|reflexivity].
           ++ split; [discriminate|].
              intros [(_ & H & _)|(_ & _ & H)]; discriminate.
      * split.
        -- intros [= <-]. left. repeat split.
        -- intros [(_ & _ & ->)|([H|H] & _)]; [reflexivity|congruence|discriminate].
    + split.
      * intros [= <-]. left. repeat split.
      * intros [(_ & _ & ->)|([H|H] & _)]; [reflexivity|congruence|discriminate].
Qed.

(** An error of [chat.sendMessageStream] itself is the one case in which
    the promise is rejected. *)
Lemma sendMessageToTejaswiStream_rejects_iff
    (API_KEY : option jsstring) (PROMPT : jsstring)
    (createThrows : option JsThrown)
    (whileSuspended : GeminiService.ServiceState -> GeminiService.ServiceState)
    (sendOutcome : Genai.Chat -> jsstring -> Genai.AsyncIterable + JsThrown)
    (userMessage : jsstring) (st : GeminiService.ServiceState) (e : JsThrown) :
  snd (GeminiService.sendMessageToTejaswiStream API_KEY PROMPT createThrows
         whileSuspended sendOutcome userMessage st) = inr e <->
  exists c,
    snd (GeminiService.initializeChat API_KEY PROMPT createThrows st) = inl tt /\
    GeminiService.chat
      (whileSuspended (fst (GeminiService.initializeChat API_KEY PROMPT createThrows st)))
      = Some c /\
    sendOutcome c userMessage = inr e.
Proof.
  unfold GeminiService.sendMessageToTejaswiStream.
  destruct (GeminiService.initializeChat API_KEY PROMPT createThrows st)
    as [st1 [[]|initError]]; simpl.
  - destruct (GeminiService.chat (whileSuspended st1)) as [c|]; simpl.
    + destruct (sendOutcome c userMessage) as [r|e'] eqn:S; simpl.
      * split; [discriminate|]. intros (c' & _ & [= <-] & H). congruence.
      * split.
        -- intros [= ->]. exists c. repeat split. exact S.
        -- intros (c' & _ & [= <-] & H). congruence.
    + split; [discriminate|]. intros (c' & _ & H & _). discriminate.
  - split; [discriminate|]. intros (c' & H & _). discriminate.
Qed.

(* ================================================================== *)
(** * The streaming loop *)
(* ================================================================== *)

Section Streaming.
Variables (st : App.State) (w : App.Window) (text : jsstring) (clk : App.SendClock).
Hypothesis key_present : App.apiKeyMissing st = false.

Let aiId := Number_toString (App.aiNow clk) ++ lit "-ai".

Lemma begin_eq :
  exists st1,
    App.handleSendMessage_begin st w text clk
    = (st1, (if App.synthSpeaking w then [App.SpeechCancel] else [])
            ++ [App.StreamCall text],
       Some (App.mkSendCtx aiId [])) /\
    App.messages st1 = App.messages st ++ [userMessageOf text clk; aiMessageOf clk []] /\
    App.isLoading st1 = true /\ App.error st1 = None /\
    App.apiKeyMissing st1 = false /\
    App.speechSynthesisSupported st1 = App.speechSynthesisSupported st /\
    App.speechRecognitionSupported st1 = App.speechRecognitionSupported st /\
    App.currentlySpeakingMessageId st1
    = (if App.synthSpeaking w then None else App.currentlySpeakingMessageId st) /\
    App.utteranceRef st1 = App.utteranceRef st.
Proof.
  unfold App.handleSendMessage_begin. rewrite key_present.
  destruct (App.synthSpeaking w); simpl; eexists; (split; [reflexivity|]);
    simpl; rewrite <- app_assoc; repeat split; auto.
Qed.

End Streaming.

Lemma replaceText_app (i t : jsstring) (a b : list Message) :
  App.replaceText i t (a ++ b) = App.replaceText i t a ++ App.replaceText i t b.
Proof. apply map_app. Qed.

Lemma replaceText_length (i t : jsstring) (l : list Message) :
  length (App.replaceText i t l) = length l.
Proof. apply length_map. Qed.


(** After a turn that changed the transcript, every message that carries
    the id of the call shows the accumulator. *)
Lemma chunk_shows_accumulator st ctx chunk msg :
  truthy (fragmentOf chunk) = true ->
  In msg (App.messages (fst (App.handleSendMessage_chunk st ctx chunk))) ->
  id msg = App.aiMessageId ctx ->
  text msg = App.currentAiResponseText ctx ++ fragmentOf chunk.
Proof.
  unfold App.handleSendMessage_chunk, fragmentOf.
  destruct (Genai.text chunk) as [[|c t]|]; simpl; try discriminate.
  intros _ Hin Hid. unfold App.replaceText in Hin.
  apply in_map_iff in Hin. destruct Hin as (m & <- & _).
  destruct (jsstring_eqb (id m) (App.aiMessageId ctx)) eqn:E; [reflexivity|].
  apply jsstring_eqb_neq in E. contradiction.
Qed.





(* ================================================================== *)
(** * Reset *)
(* ================================================================== *)

(** C2. From any state, [handleResetConversation] leaves a transcript of
    exactly one message, the fresh greeting with sender AI, no error and
    the loading flag cleared. *)
Theorem reset_leaves_one_fresh_greeting
    (st : App.State) (w : App.Window) (now date : Z) :
  let st' := fst (App.handleResetConversation st w now date) in
  App.messages st' = [resetGreetingOf now date] /\
  sender (resetGreetingOf now date) = AI /\
  App.error st' = None /\
  App.isLoading st' = false.
Proof.
  unfold App.handleResetConversation.
  destruct (App.synthSpeaking w); simpl; repeat split.
Qed.

(** What else the reset does: it cancels speech that is going on, clears
    the marker with it, and resets the chat session. *)
Lemma reset_effects (st : App.State) (w : App.Window) (now date : Z) :
  snd (App.handleResetConversation st w now date)
  = (if App.synthSpeaking w then [App.SpeechCancel] else []) ++ [App.ResetChatSession] /\
  App.currentlySpeakingMessageId (fst (App.handleResetConversation st w now date))
  = (if App.synthSpeaking w then None else App.currentlySpeakingMessageId st).
Proof.
  unfold App.handleResetConversation.
  destruct (App.synthSpeaking w); simpl; split; reflexivity.
Qed.

(* ================================================================== *)
(** * Cancelling playback *)
(* ================================================================== *)

(** C9. When a message is being spoken (the synthesiser reports
    [speaking] and the marker holds the id of the message) and its speaker
    button is used, or [handleStopSpeech] or [handlePlaySpeech] is called
    for that message, the marker is cleared and the only call made on the
    synthesiser is [cancel()]: no utterance is started. *)
Theorem cancel_playback_clears_marker
    (st : App.State) (w : App.Window) (msg : Message) :
  App.speakerButtonShown st msg = true ->
  App.speechSynthesis_speaking w = true ->
  App.currentlySpeakingMessageId st = Some (id msg) ->
  let click := App.handleSpeakerClick st w msg in
  let stop := App.handleStopSpeech st w in
  let play := App.handlePlaySpeech st w (text msg) (id msg) in
  (App.currentlySpeakingMessageId (fst click) = None /\ snd click = [App.SpeechCancel]) /\
  (App.currentlySpeakingMessageId (fst stop) = None /\ snd stop = [App.SpeechCancel]) /\
  (App.currentlySpeakingMessageId (fst play) = None /\ snd play = [App.SpeechCancel]) /\
  filter isSpeechSpeak (snd click ++ snd stop ++ snd play) = [].
Proof.
  unfold App.speakerButtonShown. rewrite !andb_true_iff.
  intros ((_ & Hsup) & Htext) Hspeaking Hmark.
  unfold App.handleSpeakerClick, App.isCurrentlySpeaking, App.handleStopSpeech,
    App.handlePlaySpeech.
  rewrite Hmark, jsstring_eqb_refl, Hsup, Hspeaking, Htext. simpl.
  repeat split.
Qed.

Lemma cancel_playback_clears_marker_witness :
  let msg := mkMessage (lit "8-ai") (lit "Hey") AI 8 in
  let st := App.mkState [msg] false None false true true (Some (lit "8-ai"))
              (Some (App.mkUtterance (lit "Hey") (lit "8-ai"))) in
  let w := App.mkWindow true true true in
  (App.speakerButtonShown st msg = true /\
   App.speechSynthesis_speaking w = true /\
   App.currentlySpeakingMessageId st = Some (id msg)) /\
  ((App.currentlySpeakingMessageId (fst (App.handleSpeakerClick st w msg)) = None /\
    snd (App.handleSpeakerClick st w msg) = [App.SpeechCancel]) /\
   (App.currentlySpeakingMessageId (fst (App.handleStopSpeech st w)) = None /\
    snd (App.handleStopSpeech st w) = [App.SpeechCancel]) /\
   (App.currentlySpeakingMessageId
      (fst (App.handlePlaySpeech st w (text msg) (id msg))) = None /\
    snd (App.handlePlaySpeech st w (text msg) (id msg)) = [App.SpeechCancel]) /\
   filter isSpeechSpeak
     (snd (App.handleSpeakerClick st w msg) ++ snd (App.handleStopSpeech st w)
      ++ snd (App.handlePlaySpeech st w (text msg) (id msg))) = []).
Proof.
  intros msg st w. split.
  - repeat split.
  - apply (cancel_playback_clears_marker st w msg); reflexivity.
Defined.

(** Playing another message while one is spoken does start an utterance,
    after the [cancel()]. *)
Lemma play_other_message_starts_utterance
    (st : App.State) (w : App.Window) (t mid : jsstring) :
  App.speechSynthesisSupported st = true -> truthy t = true ->
  App.currentlySpeakingMessageId st <> Some mid ->
  snd (App.handlePlaySpeech st w t mid)
  = (if App.speechSynthesis_speaking w then [App.SpeechCancel] else [])
    ++ [App.SpeechSpeak (App.mkUtterance t mid)].
Proof.
  intros Hsup Ht Hne. unfold App.handlePlaySpeech. rewrite Hsup, Ht. simpl.
  destruct (App.currentlySpeakingMessageId st) as [cur|].
  - destruct (jsstring_eqb cur mid) eqn:E.
    + apply jsstring_eqb_eq in E. subst. contradiction.
    + rewrite andb_false_r. reflexivity.
  - rewrite andb_false_r. reflexivity.
Qed.

(* ================================================================== *)
(** * Failure of the chat stream *)
(* ================================================================== *)

Lemma replaceText_ids (i t : jsstring) (l : list Message) :
  map id (App.replaceText i t l) = map id l.
Proof.
  unfold App.replaceText. rewrite map_map. apply map_ext.
  intros m. now destruct (jsstring_eqb (id m) i).
Qed.








(* ================================================================== *)
(** * The composer and the recognition handlers *)
(* ================================================================== *)

Lemma truthy_false (s : jsstring) : truthy s = false <-> s = [].
Proof. destruct s; simpl; split; congruence. Qed.

(** [onend] does one of two things. *)
Lemma onend_cases (st : ChatInput.State) :
  (ChatInput.latestFinalTranscriptRef st = [] /\
   ChatInput.onend st = (ChatInput.setIsRecording false st, []))
  \/
  (ChatInput.latestFinalTranscriptRef st <> [] /\
   ChatInput.onend st
   = (ChatInput.mkState [] false [],
      [ChatInput.OnSendMessage (ChatInput.latestFinalTranscriptRef st)])).
Proof.
  unfold ChatInput.onend. destruct st as [v r [|c t]]; simpl.
  - left. split; reflexivity.
  - right. split; [discriminate|reflexivity].
Qed.

Lemma handleSubmit_cases (p : ChatInput.Props) (st : ChatInput.State) :
  (ChatInput.handleSubmit p st = (st, []) /\
   (trim (ChatInput.inputValue st) = [] \/ ChatInput.isLoading p = true))
  \/
  (ChatInput.handleSubmit p st
   = (ChatInput.mkState [] (ChatInput.isRecording st) [],
      [ChatInput.OnSendMessage (trim (ChatInput.inputValue st))]) /\
   truthy (trim (ChatInput.inputValue st)) = true /\ ChatInput.isLoading p = false).
Proof.
  unfold ChatInput.handleSubmit.
  destruct (truthy (trim (ChatInput.inputValue st))) eqn:T; simpl.
  - destruct (ChatInput.isLoading p); simpl.
    + left. split; [reflexivity|now right].
    + right. repeat split.
  - left. split; [reflexivity|]. left. now apply truthy_false.
Qed.

(** The handlers other than [handleSubmit] and [onend] never call
    [onSendMessage]. *)
Lemma toggleRecording_no_send ra p start st :
  filter isOnSendMessage (snd (ChatInput.toggleRecording ra p start st)) = [].
Proof.
  unfold ChatInput.toggleRecording.
  destruct (negb ra || negb (ChatInput.speechRecognitionSupported p)); [reflexivity|].
  destruct (ChatInput.isRecording st); [reflexivity|].
  destruct start as [|name]; [reflexivity|].
  destruct (jsstring_eqb name (lit "NotAllowedError") || jsstring_eqb name (lit "SecurityError"));
    [reflexivity|].
  destruct (jsstring_eqb name (lit "InvalidStateError")); reflexivity.
Qed.

Lemma retryStart_no_send start st :
  filter isOnSendMessage (snd (ChatInput.retryStart start st)) = [].
Proof. destruct start; reflexivity. Qed.

Lemma onerror_no_send st event :
  filter isOnSendMessage (snd (ChatInput.onerror st event)) = [].
Proof. reflexivity. Qed.

(** What each handler does to the ref. *)
Lemma toggleRecording_ref ra p start st :
  ChatInput.latestFinalTranscriptRef (fst (ChatInput.toggleRecording ra p start st)) = [] \/
  fst (ChatInput.toggleRecording ra p start st) = st.
Proof.
  unfold ChatInput.toggleRecording.
  destruct (negb ra || negb (ChatInput.speechRecognitionSupported p)); [now right|].
  destruct (ChatInput.isRecording st); [now right|].
  destruct start as [|name]; [now left|].
  destruct (jsstring_eqb name (lit "NotAllowedError") || jsstring_eqb name (lit "SecurityError"));
    [now left|].
  destruct (jsstring_eqb name (lit "InvalidStateError")); now left.
Qed.

Lemma toggleRecording_starts p st :
  ChatInput.speechRecognitionSupported p = true ->
  ChatInput.isRecording st = false ->
  ChatInput.toggleRecording true p ChatInput.Started st
  = (ChatInput.mkState [] true [], [ChatInput.RecognitionStart]).
Proof.
  intros Hs Hr. unfold ChatInput.toggleRecording. rewrite Hs, Hr. reflexivity.
Qed.

Lemma onresult_ref st event :
  ChatInput.latestFinalTranscriptRef (ChatInput.onresult st event)
  = if ChatInput.lastIsFinal event
    then trim (ChatInput.currentTranscriptOf event)
    else ChatInput.latestFinalTranscriptRef st.
Proof.
  unfold ChatInput.onresult. now destruct (ChatInput.lastIsFinal event).
Qed.

Lemma refTrimmed_empty st : ChatInput.latestFinalTranscriptRef st = [] -> refTrimmed st.
Proof. unfold refTrimmed. intros ->. discriminate. Qed.

Lemma onresult_refTrimmed st event :
  refTrimmed st -> refTrimmed (ChatInput.onresult st event).
Proof.
  unfold refTrimmed. rewrite onresult_ref.
  destruct (ChatInput.lastIsFinal event); [intros _; apply trim_not_blank|auto].
Qed.

(* ================================================================== *)
(** * The page: what one event does *)
(* ================================================================== *)

Lemma deliver_input w clk s a : Page.input (Page.deliver w clk s a) = Page.input s.
Proof.
  destruct a; simpl; try reflexivity.
  now destruct (App.handleSendMessage_begin (Page.app s) w message clk) as [[? ?] ?].
Qed.

Lemma fold_deliver_input w clk (l : list ChatInput.Action) s0 :
  Page.input (fold_left (Page.deliver w clk) l s0) = Page.input s0.
Proof.
  revert s0. induction l as [|a l IH]; intros s0; simpl; [reflexivity|].
  now rewrite IH, deliver_input.
Qed.

Lemma afterInput_input w clk s r : Page.input (Page.afterInput w clk s r) = fst r.
Proof. unfold Page.afterInput. now rewrite fold_deliver_input. Qed.

(** Actions other than [onSendMessage] leave the transcript and the calls
    in flight alone, and never clear the banner. *)
Lemma fold_deliver_no_send w clk (l : list ChatInput.Action) s0 :
  filter isOnSendMessage l = [] ->
  App.messages (Page.app (fold_left (Page.deliver w clk) l s0)) = App.messages (Page.app s0) /\
  Page.inflight (fold_left (Page.deliver w clk) l s0) = Page.inflight s0 /\
  (App.error (Page.app (fold_left (Page.deliver w clk) l s0)) = None ->
   App.error (Page.app s0) = None).
Proof.
  revert s0. induction l as [|a l IH]; intros s0 Hf; [simpl; auto|].
  pose proof (IH (Page.deliver w clk s0 a)) as IHa.
  destruct a as [m|m| | |]; simpl in Hf; try discriminate;
    destruct (IHa Hf) as (Hm & Hi & He);
    cbn [fold_left]; rewrite Hm, Hi; repeat split; auto.
  intros H. apply He in H. discriminate.
Qed.

Lemma afterInput_no_send w clk s r :
  filter isOnSendMessage (snd r) = [] ->
  App.messages (Page.app (Page.afterInput w clk s r)) = App.messages (Page.app s) /\
  Page.inflight (Page.afterInput w clk s r) = Page.inflight s /\
  (App.error (Page.app (Page.afterInput w clk s r)) = None -> App.error (Page.app s) = None).
Proof.
  intros Hf. unfold Page.afterInput.
  exact (fold_deliver_no_send w clk (snd r)
           (Page.mkSys (Page.app s) (fst r) (Page.inflight s)) Hf).
Qed.

Lemma in_firstn_in {A} n (l : list A) x : In x (firstn n l) -> In x l.
Proof. intros H. rewrite <- (firstn_skipn n l). apply in_or_app. now left. Qed.

Lemma in_skipn_in {A} n (l : list A) x : In x (skipn n l) -> In x l.
Proof. intros H. rewrite <- (firstn_skipn n l). apply in_or_app. now right. Qed.

Lemma incl_map_removeNth {A B} (f : A -> B) i (l : list A) :
  incl (map f (Page.removeNth i l)) (map f l).
Proof.
  unfold Page.removeNth. intros x Hx.
  apply in_map_iff in Hx. destruct Hx as (y & <- & Hy). apply in_map.
  apply in_app_or in Hy. destruct Hy as [Hy|Hy].
  - eapply in_firstn_in; eauto.
  - eapply in_skipn_in; eauto.
Qed.

Lemma incl_map_updateNth {A B} (f : A -> B) i (x y : A) (l : list A) :
  nth_error l i = Some x -> f y = f x ->
  incl (map f (Page.updateNth i y l)) (map f l).
Proof.
  unfold Page.updateNth. intros Hn Hf z Hz.
  apply in_map_iff in Hz. destruct Hz as (u & <- & Hu).
  apply in_app_or in Hu. destruct Hu as [Hu|[<-|Hu]].
  - apply in_map. eapply in_firstn_in; eauto.
  - rewrite Hf. apply in_map. eapply nth_error_In; eauto.
  - apply in_map. eapply in_skipn_in; eauto.
Qed.

Lemma afterInput_send_refused w clk s st' t :
  App.apiKeyMissing (Page.app s) = true ->
  App.messages (Page.app (Page.afterInput w clk s (st', [ChatInput.OnSendMessage t])))
  = App.messages (Page.app s) /\
  Page.inflight (Page.afterInput w clk s (st', [ChatInput.OnSendMessage t]))
  = Page.inflight s /\
  App.error (Page.app (Page.afterInput w clk s (st', [ChatInput.OnSendMessage t]))) <> None.
Proof.
  intros Hk. unfold Page.afterInput. simpl.
  unfold App.handleSendMessage_begin. rewrite Hk. simpl.
  rewrite app_nil_r. repeat split. discriminate.
Qed.

Lemma afterInput_send w clk s st' t :
  App.apiKeyMissing (Page.app s) = false ->
  App.messages (Page.app (Page.afterInput w clk s (st', [ChatInput.OnSendMessage t])))
  = App.messages (Page.app s) ++ [userMessageOf t clk; aiMessageOf clk []] /\
  Page.inflight (Page.afterInput w clk s (st', [ChatInput.OnSendMessage t]))
  = Page.inflight s ++ [App.mkSendCtx (id (aiMessageOf clk [])) []].
Proof.
  intros Hk. unfold Page.afterInput. simpl.
  destruct (begin_eq (Page.app s) w t clk Hk) as (st1 & Hb & Hm & _).
  rewrite Hb. simpl. split; [exact Hm|reflexivity].
Qed.

Lemma handleSpeakerClick_frame st w msg :
  App.messages (fst (App.handleSpeakerClick st w msg)) = App.messages st /\
  App.error (fst (App.handleSpeakerClick st w msg)) = App.error st.
Proof.
  unfold App.handleSpeakerClick, App.handleStopSpeech, App.handlePlaySpeech.
  destruct (App.isCurrentlySpeaking st msg).
  - destruct (App.speechSynthesisSupported st && App.speechSynthesis_speaking w);
      split; reflexivity.
  - destruct (negb (App.speechSynthesisSupported st) || negb (truthy (text msg)));
      [split; reflexivity|].
    match goal with |- context [if ?b then _ else _] => destruct b end;
      split; reflexivity.
Qed.

Lemma step_disabled ra s e : Page.enabled ra s e = false -> Page.step ra s e = s.
Proof. unfold Page.step. now intros ->. Qed.

Lemma step_enabled ra s e : Page.enabled ra s e = true -> Page.step ra s e = Page.react ra s e.
Proof. unfold Page.step. now intros ->. Qed.

Lemma sendClockOf_disabled ra s e : Page.enabled ra s e = false -> Page.sendClockOf ra s e = None.
Proof. unfold Page.sendClockOf. now intros ->. Qed.

(** The submit path of the composer, as a step of the page. *)
Lemma submit_kind ra s e w clk :
  (e = Page.PressEnter w clk \/ e = Page.ClickSend w clk) ->
  Page.enabled ra s e = true -> StepKind ra s e.
Proof.
  intros He En.
  assert (Hstep : Page.step ra s e
                  = Page.afterInput w clk s
                      (ChatInput.handleSubmit (Page.propsOf s) (Page.input s))).
  { rewrite (step_enabled _ _ _ En). destruct He as [->| ->]; reflexivity. }
  assert (Hclk : Page.sendClockOf ra s e
                 = if negb (App.apiKeyMissing (Page.app s))
                   then match snd (ChatInput.handleSubmit (Page.propsOf s) (Page.input s)) with
                        | ChatInput.OnSendMessage _ :: _ => Some clk
                        | _ => None
                        end
                   else None).
  { unfold Page.sendClockOf. rewrite En. destruct He as [->| ->]; reflexivity. }
  destruct (handleSubmit_cases (Page.propsOf s) (Page.input s))
    as [(Hs & _)|(Hs & Ht & _)]; rewrite Hs in Hstep, Hclk.
  - apply KeepsTranscript; rewrite ?Hstep, ?Hclk.
    + now destruct (negb (App.apiKeyMissing (Page.app s))).
    + reflexivity.
    + now left.
    + auto.
  - destruct (App.apiKeyMissing (Page.app s)) eqn:Hk.
    + destruct (afterInput_send_refused w clk s
                  (ChatInput.mkState [] (ChatInput.isRecording (Page.input s)) [])
                  (trim (ChatInput.inputValue (Page.input s))) Hk) as (Hm & Hi & Herr).
      apply KeepsTranscript; rewrite ?Hstep, ?Hclk.
      * reflexivity.
      * exact Hm.
      * now left.
      * intros H. contradiction.
    + destruct (afterInput_send w clk s
                  (ChatInput.mkState [] (ChatInput.isRecording (Page.input s)) [])
                  (trim (ChatInput.inputValue (Page.input s))) Hk) as (Hm & Hi).
      apply (Sends ra s e (trim (ChatInput.inputValue (Page.input s))) clk);
        rewrite ?Hstep, ?Hclk; auto.
Qed.

(** The end of a recognition session, as a step of the page. *)
Lemma recognition_end_kind ra s w clk :
  Page.enabled ra s (Page.RecognitionEnd w clk) = true ->
  StepKind ra s (Page.RecognitionEnd w clk).
Proof.
  intros En.
  assert (Hstep : Page.step ra s (Page.RecognitionEnd w clk)
                  = Page.afterInput w clk s (ChatInput.onend (Page.input s))).
  { now rewrite (step_enabled _ _ _ En). }
  assert (Hclk : Page.sendClockOf ra s (Page.RecognitionEnd w clk)
                 = if negb (App.apiKeyMissing (Page.app s))
                   then match snd (ChatInput.onend (Page.input s)) with
                        | ChatInput.OnSendMessage _ :: _ => Some clk
                        | _ => None
                        end
                   else None).
  { unfold Page.sendClockOf. now rewrite En. }
  destruct (onend_cases (Page.input s)) as [(_ & Hs)|(Hne & Hs)];
    rewrite Hs in Hstep, Hclk.
  - apply KeepsTranscript; rewrite ?Hstep, ?Hclk.
    + now destruct (negb (App.apiKeyMissing (Page.app s))).
    + reflexivity.
    + now left.
    + auto.
  - destruct (App.apiKeyMissing (Page.app s)) eqn:Hk.
    + destruct (afterInput_send_refused w clk s (ChatInput.mkState [] false [])
                  (ChatInput.latestFinalTranscriptRef (Page.input s)) Hk)
        as (Hm & Hi & Herr).
      apply KeepsTranscript; rewrite ?Hstep, ?Hclk.
      * reflexivity.
      * exact Hm.
      * now left.
      * intros H. contradiction.
    + destruct (afterInput_send w clk s (ChatInput.mkState [] false [])
                  (ChatInput.latestFinalTranscriptRef (Page.input s)) Hk) as (Hm & Hi).
      apply (Sends ra s _ (ChatInput.latestFinalTranscriptRef (Page.input s)) clk);
        rewrite ?Hstep, ?Hclk; auto.
      destruct (ChatInput.latestFinalTranscriptRef (Page.input s)); [contradiction|reflexivity].
Qed.

(** A handler of the composer that never calls [onSendMessage], as a step
    of the page. *)
Lemma quiet_input_kind ra s e w clk r :
  Page.step ra s e = Page.afterInput w clk s r ->
  Page.sendClockOf ra s e = None ->
  filter isOnSendMessage (snd r) = [] ->
  StepKind ra s e.
Proof.
  intros Hstep Hclk Hf.
  destruct (afterInput_no_send w clk s r Hf) as (Hm & Hi & He).
  apply KeepsTranscript; rewrite ?Hstep; auto.
Qed.

Lemma sendClockOf_other ra s e :
  match e with
  | Page.PressEnter _ _ | Page.ClickSend _ _ | Page.RecognitionEnd _ _ => False
  | _ => True
  end -> Page.sendClockOf ra s e = None.
Proof.
  unfold Page.sendClockOf.
  destruct (Page.enabled ra s e && negb (App.apiKeyMissing (Page.app s)));
    destruct e; simpl; tauto.
Qed.

Lemma updateNth_same {A} k (x : A) (l : list A) :
  nth_error l k = Some x -> Page.updateNth k x l = l.
Proof.
  unfold Page.updateNth. revert l. induction k as [|k IH]; intros [|y l]; simpl;
    try discriminate.
  - now intros [= ->].
  - intros H. f_equal. now apply IH.
Qed.

(** Every event is of one of the four kinds. *)
Lemma step_kind ra s e : StepKind ra s e.
Proof.
  destruct (Page.enabled ra s e) eqn:En.
  2:{ apply KeepsTranscript; rewrite ?(step_disabled _ _ _ En); auto.
      now apply sendClockOf_disabled. }
  destruct e as [value|w clk|w clk|start|start|event|w clk|event
                |k chunk|k|k thrown|w now date|w k|u| |].
  - (* TypeText *)
    apply KeepsTranscript; rewrite ?(step_enabled _ _ _ En); simpl; auto.
    now apply sendClockOf_other.
  - eapply submit_kind; eauto.
  - eapply submit_kind; eauto.
  - (* ClickMic *)
    eapply quiet_input_kind;
      [rewrite (step_enabled _ _ _ En); reflexivity
      |now apply sendClockOf_other|apply toggleRecording_no_send].
  - eapply quiet_input_kind;
      [rewrite (step_enabled _ _ _ En); reflexivity
      |now apply sendClockOf_other|apply retryStart_no_send].
  - (* RecognitionResult *)
    apply KeepsTranscript; rewrite ?(step_enabled _ _ _ En); simpl; auto.
    now apply sendClockOf_other.
  - now apply recognition_end_kind.
  - eapply quiet_input_kind;
      [rewrite (step_enabled _ _ _ En); reflexivity
      |now apply sendClockOf_other|apply onerror_no_send].
  - (* StreamChunk *)
    assert (Hclk : Page.sendClockOf ra s (Page.StreamChunk k chunk) = None)
      by now apply sendClockOf_other.
    pose proof (step_enabled _ _ _ En) as Hstep. simpl in Hstep.
    destruct (nth_error (Page.inflight s) k) as [ctx|] eqn:Hn.
    + unfold App.handleSendMessage_chunk in Hstep.
      destruct (Genai.text chunk) as [[|c t]|]; simpl in Hstep;
        rewrite ?(updateNth_same _ _ _ Hn) in Hstep.
      * apply KeepsTranscript; auto; rewrite Hstep; auto.
      * apply (ReplacesText ra s _ ctx (App.currentAiResponseText ctx ++ c :: t) k); auto;
          rewrite Hstep; auto.
      * apply KeepsTranscript; auto; rewrite Hstep; auto.
    + apply KeepsTranscript; auto; rewrite Hstep; auto.
  - (* StreamEnd *)
    apply KeepsTranscript; rewrite ?(step_enabled _ _ _ En); simpl; eauto.
    now apply sendClockOf_other.
  - (* StreamThrow *)
    assert (Hclk : Page.sendClockOf ra s (Page.StreamThrow k thrown) = None)
      by now apply sendClockOf_other.
    pose proof (step_enabled _ _ _ En) as Hstep. simpl in Hstep.
    destruct (nth_error (Page.inflight s) k) as [ctx|] eqn:Hn.
    + apply (ReplacesText ra s _ ctx (App.streamErrorNotice (App.errorMessageOf thrown)) k);
        auto; rewrite ?Hstep; simpl; auto.
      discriminate.
    + apply KeepsTranscript; auto; rewrite Hstep; auto.
  - (* ClickNewChat *)
    apply (Resets ra s _ w now date); rewrite ?(step_enabled _ _ _ En); simpl; auto.
    + now apply sendClockOf_other.
    + unfold App.handleResetConversation. now destruct (App.synthSpeaking w).
  - (* ClickSpeaker *)
    assert (Hclk : Page.sendClockOf ra s (Page.ClickSpeaker w k) = None)
      by now apply sendClockOf_other.
    pose proof (step_enabled _ _ _ En) as Hstep. simpl in Hstep.
    destruct (nth_error (App.messages (Page.app s)) k) as [msg|].
    + destruct (handleSpeakerClick_frame (Page.app s) w msg) as (Hm & He).
      apply KeepsTranscript; auto; rewrite Hstep; simpl; auto.
      now rewrite He.
    + apply KeepsTranscript; auto; rewrite Hstep; auto.
  - apply KeepsTranscript; rewrite ?(step_enabled _ _ _ En); simpl; auto.
    now apply sendClockOf_other.
  - apply KeepsTranscript; rewrite ?(step_enabled _ _ _ En); simpl; auto.
    now apply sendClockOf_other.
  - apply KeepsTranscript; rewrite ?(step_enabled _ _ _ En); simpl; auto.
    + now apply sendClockOf_other.
    + discriminate.
Qed.

(** The ids of the calls in flight after an event were there before it,
    but for the id of a send the event started. *)
Lemma inflight_ids_kept {A} (f : A -> jsstring) (old new : list A) :
  new = old \/ (exists k, new = Page.removeNth k old) ->
  incl (map f new) (map f old).
Proof.
  intros [->|(k & ->)]; [apply incl_refl|apply incl_map_removeNth].
Qed.

Lemma inflight_ids_replaced k ctx t (old new : list App.SendCtx) :
  nth_error old k = Some ctx ->
  new = Page.updateNth k (App.mkSendCtx (App.aiMessageId ctx) t) old \/
  new = Page.removeNth k old ->
  incl (map App.aiMessageId new) (map App.aiMessageId old).
Proof.
  intros Hn [->| ->]; [|apply incl_map_removeNth].
  eapply incl_map_updateNth; eauto.
Qed.

(** What an event does to the ref of the composer. *)
Lemma step_ref ra s e :
  let ref' := ChatInput.latestFinalTranscriptRef (Page.input (Page.step ra s e)) in
  ref' = [] \/
  ref' = ChatInput.latestFinalTranscriptRef (Page.input s) \/
  exists event, e = Page.RecognitionResult event /\
                ChatInput.lastIsFinal event = true /\
                ref' = trim (ChatInput.currentTranscriptOf event).
Proof.
  cbv zeta. unfold Page.step.
  destruct (Page.enabled ra s e); [|now right; left].
  destruct e as [value|w clk|w clk|start|start|event|w clk|event
                |k chunk|k|k thrown|w now date|w k|u| |];
    simpl; rewrite ?afterInput_input; try (now right; left).
  - destruct (handleSubmit_cases (Page.propsOf s) (Page.input s)) as [(-> & _)|(-> & _)];
      simpl; auto.
  - destruct (handleSubmit_cases (Page.propsOf s) (Page.input s)) as [(-> & _)|(-> & _)];
      simpl; auto.
  - destruct (toggleRecording_ref ra (Page.propsOf s) start (Page.input s)) as [H|H];
      [now left|right; left; now rewrite H].
  - left. now destruct start.
  - rewrite onresult_ref. destruct (ChatInput.lastIsFinal event) eqn:F; [|now right; left].
    right; right. exists event. auto.
  - destruct (onend_cases (Page.input s)) as [(H & ->)|(_ & ->)]; simpl; auto.
  - now left.
  - destruct (nth_error (Page.inflight s) k) as [ctx|]; [|now right; left].
    destruct (App.handleSendMessage_chunk (Page.app s) ctx chunk). now right; left.
  - destruct (nth_error (Page.inflight s) k); now right; left.
  - destruct (nth_error (App.messages (Page.app s)) k); now right; left.
Qed.

Lemma step_refTrimmed ra s e :
  refTrimmed (Page.input s) -> refTrimmed (Page.input (Page.step ra s e)).
Proof.
  intros H. destruct (step_ref ra s e) as [E|[E|(event & _ & _ & E)]];
    unfold refTrimmed; rewrite E.
  - discriminate.
  - exact H.
  - apply trim_not_blank.
Qed.

Lemma step_keeps_ref_empty ra s e :
  notFinalResult e = true ->
  ChatInput.latestFinalTranscriptRef (Page.input s) = [] ->
  ChatInput.latestFinalTranscriptRef (Page.input (Page.step ra s e)) = [].
Proof.
  intros Hnf Hr. destruct (step_ref ra s e) as [E|[E|(event & -> & F & _)]].
  - exact E.
  - congruence.
  - simpl in Hnf. rewrite F in Hnf. discriminate.
Qed.

Lemma run_keeps_ref_empty ra events s :
  forallb notFinalResult events = true ->
  ChatInput.latestFinalTranscriptRef (Page.input s) = [] ->
  ChatInput.latestFinalTranscriptRef (Page.input (Page.run ra s events)) = [].
Proof.
  revert s. induction events as [|e events IH]; intros s Hall Hr; simpl; [exact Hr|].
  simpl in Hall. apply andb_true_iff in Hall. destruct Hall as (He & Hall).
  apply IH; [exact Hall|]. now apply step_keeps_ref_empty.
Qed.

(* ================================================================== *)
(** * The invariant of the page *)
(* ================================================================== *)

Lemma greeting_not_assistant_id (i : jsstring) (now : Z) :
  isAssistantId i ->
  i <> lit "init-greet-" ++ Number_toString now /\
  i <> lit "reset-greet-" ++ Number_toString now.
Proof.
  intros (n & ->). split.
  - eapply send_id_not_greeting; reflexivity.
  - eapply send_id_not_greeting; reflexivity.
Qed.

(** A message that carries the id of a call is an assistant message of a
    call. *)
Lemma origin_of_assistant_id (m : Message) :
  MessageOrigin m -> isAssistantId (id m) ->
  exists clk t, m = aiMessageOf clk t.
Proof.
  intros [now date ->|now date ->|t clk _ ->|clk t ->] Hid.
  - destruct (greeting_not_assistant_id _ now Hid) as (H & _). now elim H.
  - destruct (greeting_not_assistant_id _ now Hid) as (_ & H). now elim H.
  - destruct Hid as (n & Hn). simpl in Hn. now apply user_id_not_ai_id in Hn.
  - eauto.
Qed.

Lemma replaceText_origin (i t : jsstring) (l : list Message) :
  isAssistantId i -> Forall MessageOrigin l -> Forall MessageOrigin (App.replaceText i t l).
Proof.
  intros Hi H. unfold App.replaceText. apply Forall_map.
  eapply Forall_impl; [|exact H]. intros m Hm. simpl.
  destruct (jsstring_eqb (id m) i) eqn:E; [|exact Hm].
  apply jsstring_eqb_eq in E. subst i.
  destruct (origin_of_assistant_id m Hm Hi) as (clk & t0 & ->).
  now apply (FromAssistant _ clk t).
Qed.

Lemma init_wellFormed API_KEY w now date : wellFormed (Page.init API_KEY w now date).
Proof.
  unfold wellFormed, Page.init, App.mount. repeat split.
  - destruct (negb (truthy_opt API_KEY)); simpl; constructor; [|constructor].
    now apply (FromMount _ now date).
  - constructor.
  - apply refTrimmed_empty. reflexivity.
Qed.

Lemma step_wellFormed ra s e : wellFormed s -> wellFormed (Page.step ra s e).
Proof.
  intros (Hm & Hi & Hr). unfold wellFormed.
  split; [|split; [|now apply step_refTrimmed]].
  - destruct (step_kind ra s e)
      as [_ E _ _|t clk _ Ht Hsrc E _|ctx t k _ Hin E _ _|w now date _ _ E _];
      rewrite E.
    + exact Hm.
    + apply Forall_app. split; [exact Hm|].
      constructor; [|constructor; [|constructor]].
      * apply (FromUser _ t clk); [|reflexivity].
        destruct Hsrc as [->| ->]; [now apply trim_not_blank|now apply Hr].
      * now apply (FromAssistant _ clk []).
    + apply replaceText_origin; [|exact Hm].
      rewrite Forall_forall in Hi. apply Hi. apply in_map.
      eapply nth_error_In; eauto.
    + constructor; [|constructor]. now apply (FromReset _ now date).
  - destruct (step_kind ra s e)
      as [_ _ I _|t clk _ _ _ _ E|ctx t k _ Hn _ I _|w now date _ _ _ E].
    + rewrite Forall_forall in *. intros x Hx. apply Hi.
      now apply (inflight_ids_kept App.aiMessageId _ _ I).
    + rewrite E, map_app. apply Forall_app. split; [exact Hi|].
      constructor; [|constructor]. now exists (App.aiNow clk).
    + rewrite Forall_forall in *. intros x Hx. apply Hi.
      now apply (inflight_ids_replaced k ctx t _ _ Hn I).
    + now rewrite E.
Qed.

Lemma reachable_wellFormed ra s : Page.reachable ra s -> wellFormed s.
Proof.
  induction 1 as [API_KEY w now date|s e _ IH].
  - apply init_wellFormed.
  - now apply step_wellFormed.
Qed.

Lemma run_reachable ra events s :
  Page.reachable ra s -> Page.reachable ra (Page.run ra s events).
Proof.
  revert s. induction events as [|e events IH]; intros s H; simpl; [exact H|].
  apply IH. now constructor.
Qed.

(* ================================================================== *)
(** * Blank input *)
(* ================================================================== *)

Lemma quiet_handler_keeps_transcript ra s e w clk st' :
  Page.react ra s e = Page.afterInput w clk s (st', []) ->
  App.messages (Page.app (Page.step ra s e)) = App.messages (Page.app s).
Proof.
  intros H. unfold Page.step. destruct (Page.enabled ra s e); [|reflexivity].
  now rewrite H.
Qed.

Lemma ref_empty_endsQuietly ra s :
  ChatInput.latestFinalTranscriptRef (Page.input s) = [] -> endsQuietly ra s.
Proof.
  intros Hr. destruct (onend_cases (Page.input s)) as [(_ & E)|(Hne & _)]; [|contradiction].
  split; [now rewrite E|].
  intros w clk. eapply quiet_handler_keeps_transcript. simpl. rewrite E. reflexivity.
Qed.

(** C3. In every reachable state of the page: submitting the composer
    while its text is empty or white space only (Enter key or send button)
    calls nothing and leaves the transcript as it is; the end of a
    recognition session while the captured transcript is empty or white
    space only does the same; a final recognition result whose transcript
    is empty or white space only leaves nothing for the end of the session
    to submit; and no user message of the transcript has an empty or
    white-space-only text. *)
Theorem blank_input_creates_no_user_message
    (ra : bool) (s : Page.Sys) (w : App.Window) (clk : App.SendClock) :
  Page.reachable ra s ->
  (blank (ChatInput.inputValue (Page.input s)) ->
   snd (ChatInput.handleSubmit (Page.propsOf s) (Page.input s)) = [] /\
   App.messages (Page.app (Page.step ra s (Page.PressEnter w clk)))
   = App.messages (Page.app s) /\
   App.messages (Page.app (Page.step ra s (Page.ClickSend w clk)))
   = App.messages (Page.app s)) /\
  (blank (ChatInput.latestFinalTranscriptRef (Page.input s)) -> endsQuietly ra s) /\
  (forall event,
     blank (ChatInput.currentTranscriptOf event) ->
     ChatInput.lastIsFinal event = true ->
     endsQuietly ra (Page.react ra s (Page.RecognitionResult event))) /\
  (forall m, In m (App.messages (Page.app s)) -> sender m = USER -> ~ blank (text m)).
Proof.
  intros Hreach. pose proof (reachable_wellFormed ra s Hreach) as (Hm & _ & Hr).
  split; [|split; [|split]].
  - intros Hb.
    assert (E : ChatInput.handleSubmit (Page.propsOf s) (Page.input s) = (Page.input s, [])).
    { unfold ChatInput.handleSubmit. now rewrite (trim_blank _ Hb). }
    split; [now rewrite E|].
    split; eapply quiet_handler_keeps_transcript; simpl; rewrite E; reflexivity.
  - intros Hb. apply ref_empty_endsQuietly.
    destruct (ChatInput.latestFinalTranscriptRef (Page.input s)) as [|c r] eqn:E;
      [reflexivity|].
    exfalso. apply Hr; [now rewrite E|now rewrite E].
  - intros event Hb Hfinal.
    apply ref_empty_endsQuietly. simpl. rewrite onresult_ref, Hfinal.
    now apply trim_blank.
  - intros m Hin Hs. rewrite Forall_forall in Hm.
    destruct (Hm m Hin) as [now date ->|now date ->|t clk0 Hnb ->|clk0 t ->];
      try discriminate.
    exact Hnb.
Qed.

Lemma blank_input_creates_no_user_message_witness :
  let w := App.mkWindow true false true in
  let clk := App.mkSendClock 7 7 8 8 in
  let s := Page.step true (Page.init (Some (lit "k")) w 5 5) (Page.TypeText (lit "  ")) in
  Page.reachable true s /\
  ((blank (ChatInput.inputValue (Page.input s)) ->
    snd (ChatInput.handleSubmit (Page.propsOf s) (Page.input s)) = [] /\
    App.messages (Page.app (Page.step true s (Page.PressEnter w clk)))
    = App.messages (Page.app s) /\
    App.messages (Page.app (Page.step true s (Page.ClickSend w clk)))
    = App.messages (Page.app s)) /\
   (blank (ChatInput.latestFinalTranscriptRef (Page.input s)) -> endsQuietly true s) /\
   (forall event,
      blank (ChatInput.currentTranscriptOf event) ->
      ChatInput.lastIsFinal event = true ->
      endsQuietly true (Page.react true s (Page.RecognitionResult event))) /\
   (forall m, In m (App.messages (Page.app s)) -> sender m = USER -> ~ blank (text m))).
Proof.
  intros w clk s. split.
  - subst s. apply Page.reachable_step. apply Page.reachable_init.
  - apply (blank_input_creates_no_user_message true s w clk).
    subst s. apply Page.reachable_step. apply Page.reachable_init.
Defined.

(** The text typed in the witness above is blank, and is in the box. *)
Example two_spaces_blank :
  blank (ChatInput.inputValue
           (Page.input (Page.step true
              (Page.init (Some (lit "k")) (App.mkWindow true false true) 5 5)
              (Page.TypeText (lit "  "))))).
Proof. repeat constructor. Qed.

(** Called on its own, [handleSendMessage] has no such guard: it is the
    two callers that keep blank text out. *)
Example handleSendMessage_takes_blank_text :
  App.messages
    (fst (App.handleSendMessage
            (App.mount (Some (lit "k")) (App.mkWindow true false true) 5 5 App.initialState)
            (App.mkWindow true false true) (lit " ") (App.mkSendClock 7 7 8 8)
            (inl Genai.IterReturn)))
  = [initialGreetingOf 5 5; userMessageOf (lit " ") (App.mkSendClock 7 7 8 8);
     aiMessageOf (App.mkSendClock 7 7 8 8) []].
Proof. reflexivity. Qed.

(* ================================================================== *)
(** * The end of a recognition session *)
(* ================================================================== *)

Lemma startsSession_ref ra s e :
  startsSession ra s e ->
  ChatInput.latestFinalTranscriptRef (Page.input (Page.react ra s e)) = [].
Proof.
  intros [(start & -> & Hin)| ->]; unfold Page.react; rewrite afterInput_input;
    [|reflexivity].
  revert Hin. unfold ChatInput.toggleRecording.
  destruct (negb ra || negb (ChatInput.speechRecognitionSupported (Page.propsOf s)));
    [simpl; intros [H|[]]; discriminate|].
  destruct (ChatInput.isRecording (Page.input s)); [simpl; intros [H|[]]; discriminate|].
  destruct start as [|name]; [reflexivity|].
  destruct (jsstring_eqb name (lit "NotAllowedError") || jsstring_eqb name (lit "SecurityError"));
    [reflexivity|].
  destruct (jsstring_eqb name (lit "InvalidStateError")); reflexivity.
Qed.

(** C4. The end of a recognition session does exactly one of two things:
    with nothing captured it calls nothing, and otherwise it submits the
    captured transcript, once, and clears it.  As long as no final result
    arrives, whatever else happens, the end of the session is a no-op
    after the start of a session (a session with no finalized transcript
    submits nothing), after an earlier end (a transcript that was
    submitted is not submitted again), and after a recognition error. *)
Theorem recognition_end_submits_once_or_not_at_all
    (ra : bool) (s : Page.Sys) (e : Page.Event) (events : list Page.Event) :
  forallb notFinalResult events = true ->
  startsSession ra s e \/
  (exists w clk, e = Page.RecognitionEnd w clk) \/
  (exists event, e = Page.RecognitionError event) ->
  ((ChatInput.latestFinalTranscriptRef (Page.input s) = [] /\
    ChatInput.onend (Page.input s) = (ChatInput.setIsRecording false (Page.input s), []))
   \/
   (ChatInput.latestFinalTranscriptRef (Page.input s) <> [] /\
    ChatInput.onend (Page.input s)
    = (ChatInput.mkState [] false [],
       [ChatInput.OnSendMessage (ChatInput.latestFinalTranscriptRef (Page.input s))]))) /\
  endsQuietly ra (Page.run ra (Page.react ra s e) events).
Proof.
  intros Hnf He. split; [apply onend_cases|].
  apply ref_empty_endsQuietly, run_keeps_ref_empty; [exact Hnf|].
  destruct He as [Hs|[(w & clk & ->)|(event & ->)]].
  - now apply startsSession_ref.
  - unfold Page.react. rewrite afterInput_input.
    destruct (onend_cases (Page.input s)) as [(H & ->)|(_ & ->)]; [exact H|reflexivity].
  - unfold Page.react. now rewrite afterInput_input.
Qed.

Lemma recognition_end_submits_once_or_not_at_all_witness :
  let w := App.mkWindow true false true in
  let clk := App.mkSendClock 7 7 8 8 in
  let heard := ChatInput.mkEvent 0 [ChatInput.mkResult true (lit " yo ")] in
  let hearing := ChatInput.mkEvent 0 [ChatInput.mkResult false (lit "yo")] in
  let s := Page.run true (Page.init (Some (lit "k")) w 5 5)
             [Page.ClickMic ChatInput.Started; Page.RecognitionResult heard] in
  let e := Page.RecognitionEnd w clk in
  let events := [Page.RecognitionResult hearing; Page.RecognitionEnd w clk;
                 Page.TypeText (lit "x")] in
  (forallb notFinalResult events = true /\
   (startsSession true s e \/
    (exists w clk, e = Page.RecognitionEnd w clk) \/
    (exists event, e = Page.RecognitionError event))) /\
  ((ChatInput.latestFinalTranscriptRef (Page.input s) = [] /\
    ChatInput.onend (Page.input s) = (ChatInput.setIsRecording false (Page.input s), []))
   \/
   (ChatInput.latestFinalTranscriptRef (Page.input s) <> [] /\
    ChatInput.onend (Page.input s)
    = (ChatInput.mkState [] false [],
       [ChatInput.OnSendMessage (ChatInput.latestFinalTranscriptRef (Page.input s))]))) /\
  endsQuietly true (Page.run true (Page.react true s e) events).
Proof.
  intros w clk heard hearing s e events. split.
  - split; [reflexivity|]. right. left. exists w, clk. reflexivity.
  - apply (recognition_end_submits_once_or_not_at_all true s e events).
    + reflexivity.
    + right. left. exists w, clk. reflexivity.
Defined.

(** In the session of the witness above the first end submits the
    trimmed transcript, and appends the two messages of the send. *)
Example session_submits_trimmed_transcript :
  let w := App.mkWindow true false true in
  let clk := App.mkSendClock 7 7 8 8 in
  let s := Page.run true (Page.init (Some (lit "k")) w 5 5)
             [Page.ClickMic ChatInput.Started;
              Page.RecognitionResult
                (ChatInput.mkEvent 0 [ChatInput.mkResult true (lit " yo ")])] in
  snd (ChatInput.onend (Page.input s)) = [ChatInput.OnSendMessage (lit "yo")] /\
  App.messages (Page.app (Page.step true s (Page.RecognitionEnd w clk)))
  = [initialGreetingOf 5 5; userMessageOf (lit "yo") clk; aiMessageOf clk []].
Proof. split; reflexivity. Qed.

(** A manual submit clears the ref as well, so text that was sent with the
    Enter key is not sent again by the end of the session. *)
Lemma handleSubmit_then_onend_quiet p st :
  snd (ChatInput.handleSubmit p st) <> [] ->
  snd (ChatInput.onend (fst (ChatInput.handleSubmit p st))) = [].
Proof.
  destruct (handleSubmit_cases p st) as [(-> & _)|(-> & _)]; simpl; [congruence|reflexivity].
Qed.

(* ================================================================== *)
(** * The speaking marker *)
(* ================================================================== *)

Lemma fold_deliver_marker w clk (l : list ChatInput.Action) s0 :
  App.currentlySpeakingMessageId (Page.app (fold_left (Page.deliver w clk) l s0)) = None \/
  App.currentlySpeakingMessageId (Page.app (fold_left (Page.deliver w clk) l s0))
  = App.currentlySpeakingMessageId (Page.app s0).
Proof.
  revert s0. induction l as [|a l IH]; intros s0; [now right|].
  cbn [fold_left].
  destruct (IH (Page.deliver w clk s0 a)) as [H|H]; [now left|].
  rewrite H. clear H IH.
  destruct a as [m|m| | |]; simpl; try (now right).
  unfold App.handleSendMessage_begin.
  destruct (App.apiKeyMissing (Page.app s0)); [now right|].
  destruct (App.synthSpeaking w); simpl; [now left|now right].
Qed.

(** An event leaves the marker as it is, clears it, or, for the start of
    an utterance, sets it to the id that utterance was created for. *)
Lemma step_marker ra s e :
  let marker' := App.currentlySpeakingMessageId (Page.app (Page.step ra s e)) in
  marker' = App.currentlySpeakingMessageId (Page.app s) \/
  marker' = None \/
  exists u, e = Page.UtteranceStart u /\ marker' = Some (App.utteranceMessageId u).
Proof.
  cbv zeta. unfold Page.step. destruct (Page.enabled ra s e); [|now left].
  assert (Hfold : forall w clk r,
             App.currentlySpeakingMessageId (Page.app (Page.afterInput w clk s r))
             = App.currentlySpeakingMessageId (Page.app s) \/
             App.currentlySpeakingMessageId (Page.app (Page.afterInput w clk s r)) = None).
  { intros w clk r. unfold Page.afterInput.
    destruct (fold_deliver_marker w clk (snd r)
                (Page.mkSys (Page.app s) (fst r) (Page.inflight s))) as [H|H]; auto. }
  destruct e as [value|w clk|w clk|start|start|event|w clk|event
                |k chunk|k|k thrown|w now date|w k|u| |];
    simpl; try (now left); try (now right; left);
    try (destruct (Hfold w clk (ChatInput.handleSubmit (Page.propsOf s) (Page.input s)));
         now auto).
  - destruct (Hfold Page.noWindow Page.noClock
                (ChatInput.toggleRecording ra (Page.propsOf s) start (Page.input s))); auto.
  - destruct (Hfold Page.noWindow Page.noClock (ChatInput.retryStart start (Page.input s)));
      auto.
  - destruct (Hfold w clk (ChatInput.onend (Page.input s))); auto.
  - destruct (nth_error (Page.inflight s) k) as [ctx|]; [|now left].
    unfold App.handleSendMessage_chunk.
    destruct (Genai.text chunk) as [[|c t]|]; now left.
  - destruct (nth_error (Page.inflight s) k); now left.
  - unfold App.handleResetConversation. destruct (App.synthSpeaking w); simpl; auto.
  - destruct (nth_error (App.messages (Page.app s)) k) as [msg|]; [|now left].
    unfold App.handleSpeakerClick, App.handleStopSpeech, App.handlePlaySpeech. simpl.
    destruct (App.isCurrentlySpeaking (Page.app s) msg).
    + destruct (App.speechSynthesisSupported (Page.app s) && App.speechSynthesis_speaking w);
        simpl; auto.
    + destruct (negb (App.speechSynthesisSupported (Page.app s)) || negb (truthy (text msg)));
        simpl; auto.
      match goal with |- context [if ?b then _ else _] => destruct b end; simpl; auto.
  - right; right. exists u. auto.
Qed.

(** C5. In every reachable state of the page at most one message id is
    marked as currently speaking, and any two messages rendered as speaking
    carry that one id.  Every event keeps it so: it leaves the marker as
    it is, clears it, or, for the start of an utterance, replaces it by the
    id that utterance was created for. *)
Theorem at_most_one_marked_speaking (ra : bool) (s : Page.Sys) :
  Page.reachable ra s ->
  (forall a b, markedSpeaking (Page.app s) a -> markedSpeaking (Page.app s) b -> a = b) /\
  (forall m1 m2,
     App.isCurrentlySpeaking (Page.app s) m1 = true ->
     App.isCurrentlySpeaking (Page.app s) m2 = true -> id m1 = id m2) /\
  (forall e,
     (forall a b,
        markedSpeaking (Page.app (Page.step ra s e)) a ->
        markedSpeaking (Page.app (Page.step ra s e)) b -> a = b) /\
     (forall a,
        markedSpeaking (Page.app (Page.step ra s e)) a ->
        markedSpeaking (Page.app s) a \/
        exists u, e = Page.UtteranceStart u /\ a = App.utteranceMessageId u)).
Proof.
  intros _. unfold markedSpeaking, App.isCurrentlySpeaking. repeat split.
  - intros a b Ha Hb. congruence.
  - intros m1 m2. destruct (App.currentlySpeakingMessageId (Page.app s)) as [cur|];
      [|discriminate].
    intros H1 H2. apply jsstring_eqb_eq in H1, H2. congruence.
  - intros a b Ha Hb. congruence.
  - intros a Ha. destruct (step_marker ra s e) as [H|[H|(u & He & H)]].
    + left. congruence.
    + congruence.
    + right. exists u. split; [exact He|congruence].
Qed.

Lemma at_most_one_marked_speaking_witness :
  let w := App.mkWindow true true true in
  let s := Page.run true (Page.init (Some (lit "k")) w 5 5)
             [Page.ClickSpeaker w 0;
              Page.UtteranceStart (App.mkUtterance App.initialGreetingText
                                     (id (initialGreetingOf 5 5)))] in
  Page.reachable true s /\
  (forall a b, markedSpeaking (Page.app s) a -> markedSpeaking (Page.app s) b -> a = b) /\
  (forall m1 m2,
     App.isCurrentlySpeaking (Page.app s) m1 = true ->
     App.isCurrentlySpeaking (Page.app s) m2 = true -> id m1 = id m2) /\
  (forall e,
     (forall a b,
        markedSpeaking (Page.app (Page.step true s e)) a ->
        markedSpeaking (Page.app (Page.step true s e)) b -> a = b) /\
     (forall a,
        markedSpeaking (Page.app (Page.step true s e)) a ->
        markedSpeaking (Page.app s) a \/
        exists u, e = Page.UtteranceStart u /\ a = App.utteranceMessageId u)).
Proof.
  intros w s.
  assert (R : Page.reachable true s).
  { subst s. apply run_reachable. apply Page.reachable_init. }
  split; [exact R|].
  exact (at_most_one_marked_speaking true s R).
Defined.

(** In the state of the witness above the greeting is the message marked
    as speaking. *)
Example greeting_marked_speaking :
  let w := App.mkWindow true true true in
  markedSpeaking
    (Page.app (Page.run true (Page.init (Some (lit "k")) w 5 5)
                 [Page.ClickSpeaker w 0;
                  Page.UtteranceStart (App.mkUtterance App.initialGreetingText
                                         (id (initialGreetingOf 5 5)))]))
    (id (initialGreetingOf 5 5)).
Proof. reflexivity. Qed.

(* ================================================================== *)
(** * Message identifiers *)
(* ================================================================== *)

Lemma sendIds_app used used' : sendIds (used ++ used') = sendIds used ++ sendIds used'.
Proof. unfold sendIds. apply flat_map_app. Qed.

Lemma in_sendIds i used :
  In i (sendIds used) ->
  exists c, In c used /\ (i = id (userMessageOf [] c) \/ i = id (aiMessageOf c [])).
Proof.
  unfold sendIds. rewrite in_flat_map. intros (c & Hc & [H|[H|[]]]); eauto.
Qed.

Lemma greeting_not_send_id i used : isGreetingId i -> ~ In i (sendIds used).
Proof.
  intros (now & Hi) Hin. apply in_sendIds in Hin.
  destruct Hin as (c & _ & [E|E]); simpl in E; subst i;
    destruct Hi as [Hi|Hi]; revert Hi;
    eapply send_id_not_greeting; reflexivity.
Qed.

Lemma idsWithin_NoDup used ids : idsWithin used ids -> NoDup ids.
Proof.
  intros (gid & rest & -> & [->|(i & -> & Hi)] & Hnd & Hincl); simpl; [exact Hnd|].
  constructor; [|exact Hnd].
  intros Hin. apply (greeting_not_send_id i used Hi). now apply Hincl.
Qed.

Lemma NoDup_map_fresh {A B} (f : A -> B) (used : list A) (c : A) (later : list A) :
  NoDup (map f (used ++ c :: later)) -> ~ In (f c) (map f used).
Proof.
  rewrite map_app. simpl. intros H Hin.
  apply NoDup_remove_2 in H. apply H. apply in_or_app. now left.
Qed.

(** A send whose clock readings are new extends a transcript with two new
    ids. *)
Lemma idsWithin_send used ids clk t :
  idsWithin used ids ->
  ~ In (App.userNow clk) (map App.userNow used) ->
  ~ In (App.aiNow clk) (map App.aiNow used) ->
  idsWithin (used ++ [clk]) (ids ++ map id [userMessageOf t clk; aiMessageOf clk []]).
Proof.
  intros (gid & rest & -> & Hg & Hnd & Hincl) Hu Ha.
  exists gid, (rest ++ map id [userMessageOf t clk; aiMessageOf clk []]).
  split; [now rewrite app_assoc|]. split; [exact Hg|]. split.
  - apply NoDup_app; [exact Hnd| |].
    + simpl. constructor; [|constructor; [auto|constructor]].
      intros [H|[]]. symmetry in H. now apply user_id_not_ai_id in H.
    + intros i Hi Hin. apply Hincl, in_sendIds in Hi.
      destruct Hi as (c & Hc & Hi). simpl in Hin, Hi.
      destruct Hin as [<-|[<-|[]]]; destruct Hi as [E|E].
      * apply user_id_inj in E. apply Hu. rewrite E. now apply in_map.
      * now apply user_id_not_ai_id in E.
      * symmetry in E. now apply user_id_not_ai_id in E.
      * apply ai_id_inj in E. apply Ha. rewrite E. now apply in_map.
  - rewrite sendIds_app. apply incl_app.
    + apply incl_appl. exact Hincl.
    + apply incl_appr. simpl. apply incl_refl.
Qed.

Lemma idsWithin_step ra s e used later :
  idsWithin used (map id (App.messages (Page.app s))) ->
  NoDup (map App.userNow (used ++ Page.sendClocks ra s (e :: later))) ->
  NoDup (map App.aiNow (used ++ Page.sendClocks ra s (e :: later))) ->
  exists used',
    used ++ Page.sendClocks ra s (e :: later)
    = used' ++ Page.sendClocks ra (Page.step ra s e) later /\
    idsWithin used' (map id (App.messages (Page.app (Page.step ra s e)))).
Proof.
  intros HJ Hu Ha. simpl in Hu, Ha |- *.
  destruct (step_kind ra s e)
    as [Hc E _ _|t clk Hc _ _ E _|ctx t k Hc _ E _ _|w now date Hc _ E _];
    rewrite Hc in *; rewrite E.
  - exists used. split; [reflexivity|exact HJ].
  - exists (used ++ [clk]). split; [now rewrite <- app_assoc|].
    rewrite map_app. apply idsWithin_send; [exact HJ| |].
    + eapply NoDup_map_fresh; eauto.
    + eapply NoDup_map_fresh; eauto.
  - exists used. split; [reflexivity|]. now rewrite replaceText_ids.
  - exists used. split; [reflexivity|].
    exists [id (resetGreetingOf now date)], []. split; [reflexivity|].
    split; [|split; [constructor|intros x []]].
    right. eexists. split; [reflexivity|]. exists now. now right.
Qed.

Lemma idsWithin_run ra events s used :
  idsWithin used (map id (App.messages (Page.app s))) ->
  NoDup (map App.userNow (used ++ Page.sendClocks ra s events)) ->
  NoDup (map App.aiNow (used ++ Page.sendClocks ra s events)) ->
  exists used', idsWithin used' (map id (App.messages (Page.app (Page.run ra s events)))).
Proof.
  revert s used. induction events as [|e events IH]; intros s used HJ Hu Ha.
  - exists used. exact HJ.
  - destruct (idsWithin_step ra s e used events HJ Hu Ha) as (used' & E & HJ').
    rewrite E in Hu, Ha. exact (IH _ _ HJ' Hu Ha).
Qed.

Lemma idsWithin_init API_KEY w now date :
  idsWithin [] (map id (App.messages (Page.app (Page.init API_KEY w now date)))).
Proof.
  unfold Page.init, App.mount.
  destruct (negb (truthy_opt API_KEY)); simpl.
  - exists [], []. repeat split; auto; try constructor. intros x [].
  - exists [id (initialGreetingOf now date)], []. split; [reflexivity|].
    split; [|split; [constructor|intros x []]].
    right. eexists. split; [reflexivity|]. exists now. now left.
Qed.

(** C6, as amended. Along any run of the page from the mount, if no two
    sends read the same [Date.now()] value for the id of their user
    message, nor for the id of their assistant message, the ids of the
    transcript are pairwise distinct. *)
Theorem message_ids_distinct_when_clock_readings_distinct
    (ra : bool) (API_KEY : option jsstring) (w : App.Window) (now date : Z)
    (events : list Page.Event) :
  let s0 := Page.init API_KEY w now date in
  NoDup (map App.userNow (Page.sendClocks ra s0 events)) ->
  NoDup (map App.aiNow (Page.sendClocks ra s0 events)) ->
  NoDup (map id (App.messages (Page.app (Page.run ra s0 events)))).
Proof.
  intros s0 Hu Ha.
  destruct (idsWithin_run ra events s0 [] (idsWithin_init API_KEY w now date) Hu Ha)
    as (used' & HJ).
  exact (idsWithin_NoDup _ _ HJ).
Qed.

Lemma message_ids_distinct_when_clock_readings_distinct_witness :
  let w := App.mkWindow true false true in
  let events := [Page.TypeText (lit "a"); Page.PressEnter w (App.mkSendClock 7 7 8 8);
                 Page.StreamEnd 0;
                 Page.TypeText (lit "b"); Page.PressEnter w (App.mkSendClock 9 9 9 9)] in
  let s0 := Page.init (Some (lit "k")) w 5 5 in
  (NoDup (map App.userNow (Page.sendClocks true s0 events)) /\
   NoDup (map App.aiNow (Page.sendClocks true s0 events))) /\
  NoDup (map id (App.messages (Page.app (Page.run true s0 events)))).
Proof.
  intros w events s0.
  assert (Hu : NoDup (map App.userNow (Page.sendClocks true s0 events))).
  { vm_compute. repeat constructor; simpl; intuition discriminate. }
  assert (Ha : NoDup (map App.aiNow (Page.sendClocks true s0 events))).
  { vm_compute. repeat constructor; simpl; intuition discriminate. }
  split; [split; assumption|].
  exact (message_ids_distinct_when_clock_readings_distinct true (Some (lit "k")) w 5 5
           events Hu Ha).
Defined.

(** C6, counterexample. The user sends typed text with the Enter key
    while a recognition session is open, and the session ends with a final
    transcript within the same millisecond: both sends read the same
    [Date.now()], and the transcript holds each of the two ids twice. *)
Lemma message_ids_repeat_within_a_millisecond :
  let w := App.mkWindow true false true in
  let clk := App.mkSendClock 5 5 5 5 in
  let events :=
    [Page.ClickMic ChatInput.Started;
     Page.TypeText (lit "a");
     Page.PressEnter w clk;
     Page.RecognitionResult (ChatInput.mkEvent 0 [ChatInput.mkResult true (lit "b")]);
     Page.RecognitionEnd w clk] in
  let s0 := Page.init (Some (lit "k")) w 1 1 in
  allEnabled true s0 events = true /\
  map id (App.messages (Page.app (Page.run true s0 events)))
  = [lit "init-greet-1"; lit "5-user"; lit "5-ai"; lit "5-user"; lit "5-ai"] /\
  ~ NoDup (map id (App.messages (Page.app (Page.run true s0 events)))).
Proof.
  intros w clk events s0.
  assert (E : map id (App.messages (Page.app (Page.run true s0 events)))
              = [lit "init-greet-1"; lit "5-user"; lit "5-ai"; lit "5-user"; lit "5-ai"])
    by (vm_compute; reflexivity).
  split; [vm_compute; reflexivity|]. split; [exact E|].
  rewrite E. intros H.
  apply NoDup_cons_iff in H. destruct H as (_ & H).
  apply NoDup_cons_iff in H. destruct H as (H & _).
  apply H. right. left. reflexivity.
Qed.

(* ================================================================== *)
(** * The error banner *)
(* ================================================================== *)



(* ================================================================== *)
(** * Changes of the transcript *)
(* ================================================================== *)

Lemma replaceText_nth (i t : jsstring) (l : list Message) (k : nat) (m m' : Message) :
  nth_error l k = Some m ->
  nth_error (App.replaceText i t l) k = Some m' ->
  m' = (if jsstring_eqb (id m) i then withText m t else m).
Proof.
  unfold App.replaceText. intros H. rewrite nth_error_map, H. simpl. congruence.
Qed.

(** With distinct ids, and the message of the call at the end of the
    transcript, the replacement changes that last message only. *)
Lemma replaceText_only_last (i t : jsstring) (before : list Message) (m : Message) :
  NoDup (map id (before ++ [m])) -> id m = i ->
  App.replaceText i t (before ++ [m]) = before ++ [withText m t].
Proof.
  intros Hnd Hid. rewrite replaceText_app. simpl.
  rewrite Hid, jsstring_eqb_refl. f_equal.
  unfold App.replaceText. rewrite <- (map_id before) at 2. apply map_ext_in.
  intros x Hx. destruct (jsstring_eqb (id x) i) eqn:E; [|reflexivity].
  apply jsstring_eqb_eq in E. exfalso.
  rewrite map_app in Hnd. simpl in Hnd. apply NoDup_remove_2 in Hnd.
  apply Hnd. rewrite app_nil_r, Hid, <- E. now apply in_map.
Qed.

(** C8, as amended. In every reachable state of the page, an event
    changes the transcript in one of three ways: it appends messages at
    the end (possibly none); it clears the whole sequence down to one
    fresh greeting; or it replaces the text of the messages that carry the
    id of a call of [handleSendMessage] still in flight, which are
    assistant messages, keeping the length and the order of the transcript
    and the id, sender and timestamp of every message. *)
Theorem transcript_changes_as_coded (ra : bool) (s : Page.Sys) (e : Page.Event) :
  Page.reachable ra s ->
  changeAsCoded (Page.inflight s) (App.messages (Page.app s))
    (App.messages (Page.app (Page.step ra s e))).
Proof.
  intros Hreach. destruct (reachable_wellFormed ra s Hreach) as (Hm & Hi & _).
  destruct (step_kind ra s e)
    as [_ E _ _|t clk _ _ _ E _|ctx t k0 _ Hn E _ _|w now date _ _ E _]; rewrite E.
  - left. exists []. now rewrite app_nil_r.
  - left. eauto.
  - assert (Hin : In ctx (Page.inflight s)) by (eapply nth_error_In; eauto).
    right; right. exists ctx, t. split; [exact Hin|]. split; [reflexivity|].
    split; [apply replaceText_length|].
    intros k m m' Hk Hk'. rewrite (replaceText_nth _ _ _ _ _ _ Hk Hk').
    destruct (jsstring_eqb (id m) (App.aiMessageId ctx)) eqn:Eid; [|now auto].
    simpl. repeat split. right.
    apply jsstring_eqb_eq in Eid. repeat split; [|exact Eid].
    rewrite Forall_forall in Hm, Hi.
    assert (Ha : isAssistantId (id m)).
    { rewrite Eid. apply Hi. now apply in_map. }
    destruct (origin_of_assistant_id m (Hm m (nth_error_In _ _ Hk)) Ha) as (clk & t0 & ->).
    reflexivity.
  - right; left. eauto.
Qed.

Lemma transcript_changes_as_coded_witness :
  let w := App.mkWindow true false true in
  let s := Page.run true (Page.init (Some (lit "k")) w 5 5)
             [Page.TypeText (lit "hi"); Page.PressEnter w (App.mkSendClock 7 7 8 8)] in
  let e := Page.StreamChunk 0 (Genai.mkChunk (Some (lit "Hey"))) in
  Page.reachable true s /\
  changeAsCoded (Page.inflight s) (App.messages (Page.app s))
    (App.messages (Page.app (Page.step true s e))).
Proof.
  intros w s e.
  assert (R : Page.reachable true s).
  { subst s. apply run_reachable. apply Page.reachable_init. }
  split; [exact R|].
  exact (transcript_changes_as_coded true s e R).
Defined.

(** C8, counterexample. The user sends typed text with the Enter key
    while a recognition session is open; the session then ends with a
    final transcript, which starts a second send while the first is still
    streaming.  The next chunk of the first stream changes the text of the
    first assistant message, at position 2, which is not the most recently
    appended assistant message, at position 4. *)
Lemma chunk_changes_an_earlier_assistant_message :
  let w := App.mkWindow true false true in
  let events :=
    [Page.ClickMic ChatInput.Started;
     Page.TypeText (lit "hi");
     Page.PressEnter w (App.mkSendClock 10 10 11 11);
     Page.RecognitionResult (ChatInput.mkEvent 0 [ChatInput.mkResult true (lit "yo")]);
     Page.RecognitionEnd w (App.mkSendClock 20 20 21 21);
     Page.StreamChunk 0 (Genai.mkChunk (Some (lit "Hey")))] in
  let s0 := Page.init (Some (lit "k")) w 1 1 in
  let old := App.messages (Page.app (Page.run true s0 (removelast events))) in
  let new := App.messages (Page.app (Page.run true s0 events)) in
  allEnabled true s0 events = true /\
  lastAssistantIndex old = Some 4 /\
  option_map text (nth_error old 2) = Some [] /\
  option_map text (nth_error new 2) = Some (lit "Hey") /\
  ~ changeAsSpecified old new.
Proof.
  intros w events s0 old new.
  split; [vm_compute; reflexivity|].
  split; [vm_compute; reflexivity|].
  split; [vm_compute; reflexivity|].
  split; [vm_compute; reflexivity|].
  intros [(added & H)|[(g & H)|(_ & H)]].
  - vm_compute in H. discriminate.
  - vm_compute in H. discriminate.
  - destruct (nth_error old 2) as [m|] eqn:Eo; [|vm_compute in Eo; discriminate].
    destruct (nth_error new 2) as [m'|] eqn:En; [|vm_compute in En; discriminate].
    destruct (H 2 m m' Eo En) as [Hsame|(Hlast & _)].
    + vm_compute in Eo, En. congruence.
    + vm_compute in Hlast. discriminate.
Qed.

(* ================================================================== *)
(** * Overlapping calls with distinct ids stay in step *)
(* ================================================================== *)









(* ================================================================== *)
(** * Whole calls *)
(* ================================================================== *)


(** A failure of the chat initialisation reaches the user through the loop
    of [handleSendMessage]: the iterable the service resolves to throws at
    the first turn, and the call ends with the error notice in the
    assistant message and the banner set. *)
Lemma init_failure_reaches_the_transcript
    (API_KEY : option jsstring) (PROMPT : jsstring) (e : JsThrown)
    (sendOutcome : Genai.Chat -> jsstring -> Genai.AsyncIterable + JsThrown)
    (service : GeminiService.ServiceState)
    (st : App.State) (w : App.Window) (text : jsstring) (clk : App.SendClock) :
  App.apiKeyMissing st = false ->
  snd (GeminiService.initializeChat API_KEY PROMPT (Some e) service) = inr e ->
  let outcome := snd (GeminiService.sendMessageToTejaswiStream API_KEY PROMPT (Some e)
                        (fun sv => sv) sendOutcome text service) in
  let st' := fst (App.handleSendMessage st w text clk outcome) in
  outcome = inl (Genai.IterThrow e) /\
  (exists before,
      App.messages st'
      = before ++ [aiMessageOf clk (App.streamErrorNotice (App.errorMessageOf e))]) /\
  App.error st' = Some (App.streamErrorBanner (App.errorMessageOf e)) /\
  App.isLoading st' = false.
Proof.
  intros Hkey Hinit outcome st'.
  assert (Hout : outcome = inl (Genai.IterThrow e)).
  { subst outcome. unfold GeminiService.sendMessageToTejaswiStream.
    destruct (GeminiService.initializeChat API_KEY PROMPT (Some e) service) as [sv r].
    simpl in Hinit. now subst r. }
  split; [exact Hout|].
  subst st'. rewrite Hout.
  destruct (begin_eq st w text clk Hkey) as (st1 & Hbegin & Hmsgs & _).
  unfold App.handleSendMessage. rewrite Hbegin. simpl.
  split; [|split; reflexivity].
  exists (App.replaceText (Number_toString (App.aiNow clk) ++ lit "-ai")
            (App.streamErrorNotice (App.errorMessageOf e))
            (App.messages st ++ [userMessageOf text clk])).
  rewrite Hmsgs.
  replace (App.messages st ++ [userMessageOf text clk; aiMessageOf clk []])
    with ((App.messages st ++ [userMessageOf text clk]) ++ [aiMessageOf clk []])
    by now rewrite <- app_assoc.
  rewrite replaceText_app. simpl. now rewrite jsstring_eqb_refl.
Qed.

(* ================================================================== *)
(** * Streaming with other events in between *)
(* ================================================================== *)





(** A send that goes through, as a step of the page: which event it is
    and where its text comes from. *)
Lemma send_source ra s e clk :
  Page.sendClockOf ra s e = Some clk ->
  Page.enabled ra s e = true /\
  App.apiKeyMissing (Page.app s) = false /\
  exists t,
    truthy t = true /\
    App.messages (Page.app (Page.step ra s e))
    = App.messages (Page.app s) ++ [userMessageOf t clk; aiMessageOf clk []] /\
    Page.inflight (Page.step ra s e)
    = Page.inflight s ++ [App.mkSendCtx (id (aiMessageOf clk [])) []] /\
    ((exists w, (e = Page.PressEnter w clk \/ e = Page.ClickSend w clk) /\
                t = trim (ChatInput.inputValue (Page.input s))) \/
     (exists w, e = Page.RecognitionEnd w clk /\
                t = ChatInput.latestFinalTranscriptRef (Page.input s))).
Proof.
  unfold Page.sendClockOf.
  destruct (Page.enabled ra s e) eqn:En; [|discriminate].
  destruct (App.apiKeyMissing (Page.app s)) eqn:Hk; [discriminate|]. simpl.
  intros H. split; [reflexivity|]. split; [reflexivity|].
  rewrite (step_enabled _ _ _ En).
  destruct e as [value|w c|w c|start|start|event|w c|event
                |k chunk|k|k thrown|w now date|w k|u| |]; try discriminate.
  - destruct (handleSubmit_cases (Page.propsOf s) (Page.input s))
      as [(Hs & _)|(Hs & Ht & _)]; rewrite Hs in H; [discriminate|].
    injection H as ->. exists (trim (ChatInput.inputValue (Page.input s))).
    split; [exact Ht|]. simpl. rewrite Hs.
    destruct (afterInput_send w clk s
                (ChatInput.mkState [] (ChatInput.isRecording (Page.input s)) [])
                (trim (ChatInput.inputValue (Page.input s))) Hk) as (Hm & Hi).
    split; [exact Hm|]. split; [exact Hi|]. left. exists w. auto.
  - destruct (handleSubmit_cases (Page.propsOf s) (Page.input s))
      as [(Hs & _)|(Hs & Ht & _)]; rewrite Hs in H; [discriminate|].
    injection H as ->. exists (trim (ChatInput.inputValue (Page.input s))).
    split; [exact Ht|]. simpl. rewrite Hs.
    destruct (afterInput_send w clk s
                (ChatInput.mkState [] (ChatInput.isRecording (Page.input s)) [])
                (trim (ChatInput.inputValue (Page.input s))) Hk) as (Hm & Hi).
    split; [exact Hm|]. split; [exact Hi|]. left. exists w. auto.
  - destruct (onend_cases (Page.input s)) as [(_ & Hs)|(Hne & Hs)];
      rewrite Hs in H; [discriminate|].
    injection H as ->. exists (ChatInput.latestFinalTranscriptRef (Page.input s)).
    split; [destruct (ChatInput.latestFinalTranscriptRef (Page.input s));
            [contradiction|reflexivity]|].
    simpl. rewrite Hs.
    destruct (afterInput_send w clk s (ChatInput.mkState [] false [])
                (ChatInput.latestFinalTranscriptRef (Page.input s)) Hk) as (Hm & Hi).
    split; [exact Hm|]. split; [exact Hi|]. right. exists w. auto.
Qed.





(** ** The bookkeeping of the assistant messages *)












(* ================================================================== *)
(** * More on the chat service *)
(* ================================================================== *)

(** X1. With no client cached and [API_KEY] unset or empty, a send
    resolves to an iterable that throws the "API_KEY environment variable
    not set" error, and leaves the module state as it was: nothing is
    cached, [chats.create] and [sendMessageStream] are not reached. *)
Theorem send_without_api_key_fails_in_stream
    (API_KEY : option jsstring) (PROMPT : jsstring) (createThrows : option JsThrown)
    (sendOutcome : Genai.Chat -> jsstring -> Genai.AsyncIterable + JsThrown)
    (userMessage : jsstring) (st : GeminiService.ServiceState) :
  truthy_opt API_KEY = false ->
  GeminiService.ai st = None ->
  GeminiService.sendMessageToTejaswiStream API_KEY PROMPT createThrows
    (fun sv => sv) sendOutcome userMessage st
  = (st, inl (Genai.IterThrow (ErrorObject (lit
       "API_KEY environment variable not set. Cannot initialize GoogleGenAI.")))).
Proof.
  intros Hkey Hai. destruct st as [c a]. simpl in Hai. subst a.
  unfold GeminiService.sendMessageToTejaswiStream, GeminiService.initializeChat,
    GeminiService.getAiInstance, GeminiService.bind, GeminiService.get. simpl.
  destruct API_KEY as [key|]; simpl in *; [rewrite Hkey|]; reflexivity.
Qed.

Lemma send_without_api_key_fails_in_stream_witness :
  let st := GeminiService.mkService None None in
  (truthy_opt (Some []) = false /\ GeminiService.ai st = None) /\
  GeminiService.sendMessageToTejaswiStream (Some []) (lit "persona") None
    (fun sv => sv) (fun _ _ => inl Genai.IterReturn) (lit "hi") st
  = (st, inl (Genai.IterThrow (ErrorObject (lit
       "API_KEY environment variable not set. Cannot initialize GoogleGenAI.")))).
Proof.
  intros st. split; [split; reflexivity|].
  apply (send_without_api_key_fails_in_stream (Some []) (lit "persona") None
           (fun _ _ => inl Genai.IterReturn) (lit "hi") st); reflexivity.
Defined.

(** X2. Once a client and a chat handle are cached, every send goes to
    that handle: the promise settles as [sendMessageStream] on it does,
    [chats.create] is not called (it may be one that would throw),
    [API_KEY] is not read (it may be gone), and the module state stays as
    it is, also when [sendMessageStream] throws. *)
Theorem cached_chat_handle_is_reused
    (API_KEY : option jsstring) (PROMPT : jsstring) (createThrows : option JsThrown)
    (sendOutcome : Genai.Chat -> jsstring -> Genai.AsyncIterable + JsThrown)
    (userMessage : jsstring) (st : GeminiService.ServiceState)
    (client : Genai.GoogleGenAI) (handle : Genai.Chat) :
  GeminiService.ai st = Some client ->
  GeminiService.chat st = Some handle ->
  GeminiService.sendMessageToTejaswiStream API_KEY PROMPT createThrows
    (fun sv => sv) sendOutcome userMessage st
  = (st, sendOutcome handle userMessage).
Proof.
  intros Hai Hchat. destruct st as [c a]. simpl in *. subst.
  unfold GeminiService.sendMessageToTejaswiStream, GeminiService.initializeChat,
    GeminiService.getAiInstance, GeminiService.bind, GeminiService.get. simpl.
  now destruct (sendOutcome handle userMessage).
Qed.

Lemma cached_chat_handle_is_reused_witness :
  let client := Genai.mkGoogleGenAI (lit "k") in
  let handle := Genai.mkChat client (lit "gemini-2.5-flash-preview-04-17") (lit "persona") in
  let st := GeminiService.mkService (Some handle) (Some client) in
  let sendOutcome := fun (_ : Genai.Chat) (m : jsstring) =>
                       inl (Genai.IterYield (Genai.mkChunk (Some m)) Genai.IterReturn)
                       : Genai.AsyncIterable + JsThrown in
  (GeminiService.ai st = Some client /\ GeminiService.chat st = Some handle) /\
  GeminiService.sendMessageToTejaswiStream None (lit "persona") (Some OtherValue)
    (fun sv => sv) sendOutcome (lit "hi") st
  = (st, sendOutcome handle (lit "hi")).
Proof.
  intros client handle st sendOutcome. split; [split; reflexivity|].
  apply (cached_chat_handle_is_reused None (lit "persona") (Some OtherValue)
           sendOutcome (lit "hi") st client handle); reflexivity.
Defined.

(** X3. The first send of a session, with a key and nothing cached,
    creates the client from the key and the handle from that client, the
    model name and the persona prompt, and caches both.  When
    [chats.create] throws instead, the error comes out of the stream, the
    client stays cached and no handle is: the next send calls
    [chats.create] again. *)
Theorem first_send_creates_and_caches
    (key PROMPT : jsstring) (createThrows : option JsThrown)
    (sendOutcome : Genai.Chat -> jsstring -> Genai.AsyncIterable + JsThrown)
    (userMessage : jsstring) :
  truthy key = true ->
  let client := Genai.mkGoogleGenAI key in
  let handle := Genai.mkChat client (lit "gemini-2.5-flash-preview-04-17") PROMPT in
  GeminiService.sendMessageToTejaswiStream (Some key) PROMPT createThrows
    (fun sv => sv) sendOutcome userMessage (GeminiService.mkService None None)
  = match createThrows with
    | None => (GeminiService.mkService (Some handle) (Some client),
               sendOutcome handle userMessage)
    | Some e => (GeminiService.mkService None (Some client),
                 inl (Genai.IterThrow e))
    end.
Proof.
  intros Hkey client handle.
  unfold GeminiService.sendMessageToTejaswiStream, GeminiService.initializeChat,
    GeminiService.getAiInstance, GeminiService.bind, GeminiService.get. simpl.
  rewrite Hkey. simpl.
  destruct createThrows as [e|]; simpl; [reflexivity|].
  subst handle client. cbv beta iota delta [GeminiService.set_chat GeminiService.set_ai
    GeminiService.ret GeminiService.throw GeminiService.try_catch]. simpl.
  match goal with |- context [sendOutcome ?c ?m] => destruct (sendOutcome c m) end;
    reflexivity.
Qed.

Lemma first_send_creates_and_caches_witness :
  let client := Genai.mkGoogleGenAI (lit "k") in
  let handle := Genai.mkChat client (lit "gemini-2.5-flash-preview-04-17") (lit "persona") in
  truthy (lit "k") = true /\
  GeminiService.sendMessageToTejaswiStream (Some (lit "k")) (lit "persona")
    (Some (ErrorObject (lit "quota")))
    (fun sv => sv) (fun _ _ => inl Genai.IterReturn) (lit "hi")
    (GeminiService.mkService None None)
  = (GeminiService.mkService None (Some client),
     inl (Genai.IterThrow (ErrorObject (lit "quota")))).
Proof.
  intros client handle. split; [reflexivity|].
  apply (first_send_creates_and_caches (lit "k") (lit "persona")
           (Some (ErrorObject (lit "quota")))
           (fun _ _ => inl Genai.IterReturn) (lit "hi")).
  reflexivity.
Defined.

(** X4. After [resetChatSession] the client is still cached and the
    handle is gone: the next send does not read [API_KEY]; it calls
    [chats.create] on the cached client, and either caches the new handle
    and sends on it, or, when the call throws, fails in the stream and
    leaves the session reset. *)
Theorem send_after_reset_creates_a_new_handle
    (API_KEY : option jsstring) (PROMPT : jsstring) (createThrows : option JsThrown)
    (sendOutcome : Genai.Chat -> jsstring -> Genai.AsyncIterable + JsThrown)
    (userMessage : jsstring) (st : GeminiService.ServiceState)
    (client : Genai.GoogleGenAI) :
  GeminiService.ai st = Some client ->
  let handle := Genai.mkChat client (lit "gemini-2.5-flash-preview-04-17") PROMPT in
  GeminiService.sendMessageToTejaswiStream API_KEY PROMPT createThrows
    (fun sv => sv) sendOutcome userMessage (GeminiService.resetChatSession st)
  = match createThrows with
    | None => (GeminiService.mkService (Some handle) (Some client),
               sendOutcome handle userMessage)
    | Some e => (GeminiService.resetChatSession st, inl (Genai.IterThrow e))
    end.
Proof.
  intros Hai handle. destruct st as [c a]. simpl in Hai. subst a.
  unfold GeminiService.sendMessageToTejaswiStream, GeminiService.initializeChat,
    GeminiService.getAiInstance, GeminiService.bind, GeminiService.get,
    GeminiService.resetChatSession. simpl.
  destruct createThrows as [e|]; simpl; [reflexivity|].
  subst handle. cbv beta iota delta [GeminiService.set_chat GeminiService.set_ai
    GeminiService.ret GeminiService.throw GeminiService.try_catch]. simpl.
  match goal with |- context [sendOutcome ?c ?m] => destruct (sendOutcome c m) end;
    reflexivity.
Qed.

Lemma send_after_reset_creates_a_new_handle_witness :
  let client := Genai.mkGoogleGenAI (lit "k") in
  let old := Genai.mkChat client (lit "gemini-2.5-flash-preview-04-17") (lit "persona") in
  let st := GeminiService.mkService (Some old) (Some client) in
  GeminiService.ai st = Some client /\
  GeminiService.sendMessageToTejaswiStream None (lit "persona") None
    (fun sv => sv) (fun _ _ => inr OtherValue) (lit "hi")
    (GeminiService.resetChatSession st)
  = (GeminiService.mkService (Some old) (Some client), inr OtherValue).
Proof.
  intros client old st. split; [reflexivity|].
  apply (send_after_reset_creates_a_new_handle None (lit "persona") None
           (fun _ _ => inr OtherValue) (lit "hi") st client).
  reflexivity.
Defined.

(* ================================================================== *)
(** * More on the page *)
(* ================================================================== *)

Lemma begin_frame st w t clk :
  sameConfiguration (fst (fst (App.handleSendMessage_begin st w t clk))) st.
Proof.
  unfold App.handleSendMessage_begin, sameConfiguration.
  destruct (App.apiKeyMissing st) eqn:K; simpl; [auto|].
  destruct (App.synthSpeaking w); simpl; auto.
Qed.

Lemma fold_deliver_frame w clk (l : list ChatInput.Action) s0 :
  sameConfiguration (Page.app (fold_left (Page.deliver w clk) l s0)) (Page.app s0).
Proof.
  revert s0. induction l as [|a l IH]; intros s0; [repeat split|].
  cbn [fold_left]. destruct (IH (Page.deliver w clk s0 a)) as (H1 & H2 & H3).
  unfold sameConfiguration. rewrite H1, H2, H3. clear.
  destruct a as [m|m| | |]; simpl; try (repeat split; fail).
  pose proof (begin_frame (Page.app s0) w m clk) as H.
  destruct (App.handleSendMessage_begin (Page.app s0) w m clk) as [[st' fx] o].
  exact H.
Qed.

Lemma afterInput_frame w clk s r :
  sameConfiguration (Page.app (Page.afterInput w clk s r)) (Page.app s).
Proof.
  exact (fold_deliver_frame w clk (snd r) (Page.mkSys (Page.app s) (fst r) (Page.inflight s))).
Qed.

(** No event changes whether the key is missing or what the browser
    supports. *)
Lemma step_frame ra s e :
  sameConfiguration (Page.app (Page.step ra s e)) (Page.app s).
Proof.
  unfold Page.step. destruct (Page.enabled ra s e); [|repeat split].
  destruct e as [value|w clk|w clk|start|start|event|w clk|event
                |k chunk|k|k thrown|w now date|w k|u| |];
    unfold Page.react; try apply afterInput_frame;
    try (repeat split; fail).
  - destruct (nth_error (Page.inflight s) k) as [ctx|]; [|repeat split].
    unfold App.handleSendMessage_chunk.
    destruct (Genai.text chunk) as [[|c t]|]; repeat split.
  - destruct (nth_error (Page.inflight s) k) as [ctx|]; repeat split.
  - unfold App.handleResetConversation. destruct (App.synthSpeaking w); repeat split.
  - destruct (nth_error (App.messages (Page.app s)) k) as [msg|]; [|repeat split].
    unfold App.handleSpeakerClick, App.handleStopSpeech, App.handlePlaySpeech. simpl.
    destruct (App.isCurrentlySpeaking (Page.app s) msg).
    + destruct (App.speechSynthesisSupported (Page.app s) && App.speechSynthesis_speaking w);
        repeat split.
    + destruct (negb (App.speechSynthesisSupported (Page.app s)) || negb (truthy (text msg)));
        [repeat split|].
      match goal with |- context [if ?b then _ else _] => destruct b end; repeat split.
Qed.

Lemma hidden_page_has_no_event ra s e :
  App.apiKeyMissing (Page.app s) = true ->
  App.messages (Page.app s) = [] -> Page.inflight s = [] ->
  Page.step ra s e = s.
Proof.
  intros Hk Hm Hi. apply step_disabled.
  assert (Hshown : Page.pageShown s = false).
  { unfold Page.pageShown. now rewrite Hk, Hm. }
  destruct e; simpl; rewrite ?Hshown, ?Hi; reflexivity.
Qed.

(** X5. Mounted without an API key (unset or empty), the page reports the
    missing key, shows the configuration notice only, and stays as it is
    whatever happens: the transcript stays empty and no call is started. *)
Theorem page_without_api_key_is_inert
    (ra : bool) (API_KEY : option jsstring) (w : App.Window) (now date : Z)
    (events : list Page.Event) :
  truthy_opt API_KEY = false ->
  let s0 := Page.init API_KEY w now date in
  Page.run ra s0 events = s0 /\
  Page.pageShown s0 = false /\
  App.apiKeyMissing (Page.app s0) = true /\
  App.messages (Page.app s0) = [] /\
  App.error (Page.app s0)
  = Some (lit "API_KEY environment variable is not set. This application requires an API key to function.").
Proof.
  intros Hkey s0.
  assert (E : Page.app s0
              = App.setError (Some (lit "API_KEY environment variable is not set. This application requires an API key to function."))
                  (App.setApiKeyMissing true App.initialState)).
  { subst s0. unfold Page.init, App.mount. now rewrite Hkey. }
  split; [|unfold Page.pageShown; rewrite E; repeat split].
  induction events as [|e events IH]; [reflexivity|].
  simpl. rewrite hidden_page_has_no_event; [exact IH| | |]; try now rewrite E.
  reflexivity.
Qed.

Lemma page_without_api_key_is_inert_witness :
  let w := App.mkWindow true false true in
  let events := [Page.TypeText (lit "hi"); Page.PressEnter w (App.mkSendClock 7 7 8 8);
                 Page.ClickNewChat w 9 9; Page.ClickMic ChatInput.Started] in
  let s0 := Page.init None w 5 5 in
  truthy_opt None = false /\
  Page.run true s0 events = s0 /\
  Page.pageShown s0 = false /\
  App.apiKeyMissing (Page.app s0) = true /\
  App.messages (Page.app s0) = [] /\
  App.error (Page.app s0)
  = Some (lit "API_KEY environment variable is not set. This application requires an API key to function.").
Proof.
  intros w events s0. split; [reflexivity|].
  apply (page_without_api_key_is_inert true None w 5 5 events). reflexivity.
Defined.

Lemma replaceText_keeps_greeting i t g rest :
  isAssistantId i -> isGreetingId (id g) ->
  App.replaceText i t (g :: rest) = g :: App.replaceText i t rest.
Proof.
  intros Hi (now & Hg). simpl.
  destruct (jsstring_eqb (id g) i) eqn:E; [|reflexivity].
  apply jsstring_eqb_eq in E. exfalso. subst i.
  destruct (greeting_not_assistant_id _ now Hi) as (H1 & H2).
  destruct Hg as [Hg|Hg]; auto.
Qed.

(** X6. In every reachable state of a page mounted with a key the
    transcript is never empty and its first message is a greeting, the one
    of the mount or the one of the latest reset, with its text as it was
    written; in a page mounted without a key the transcript is empty and
    no call is in flight. *)
Theorem transcript_starts_with_greeting (ra : bool) (s : Page.Sys) :
  Page.reachable ra s ->
  (App.apiKeyMissing (Page.app s) = true /\
   App.messages (Page.app s) = [] /\ Page.inflight s = []) \/
  (App.apiKeyMissing (Page.app s) = false /\
   startsWithGreeting (App.messages (Page.app s))).
Proof.
  induction 1 as [API_KEY w now date|s e Hreach IH].
  - unfold Page.init, App.mount. destruct (negb (truthy_opt API_KEY)); simpl.
    + left. repeat split.
    + right. split; [reflexivity|]. exists (initialGreetingOf now date), [].
      split; [reflexivity|]. exists now, date. now left.
  - destruct IH as [(Hk & Hm & Hi)|(Hk & g & rest & Hm & now & date & Hg)].
    + left. now rewrite (hidden_page_has_no_event ra s e Hk Hm Hi).
    + right. destruct (step_frame ra s e) as (Hf & _). split; [congruence|].
      destruct (reachable_wellFormed ra s Hreach) as (_ & Hids & _).
      destruct (step_kind ra s e)
        as [_ E _ _|t clk _ _ _ E _|ctx t k _ Hn E _ _|w' now' date' _ _ E _]; rewrite E.
      * exists g, rest. split; [exact Hm|]. eauto.
      * exists g, (rest ++ [userMessageOf t clk; aiMessageOf clk []]).
        split; [now rewrite Hm|]. eauto.
      * exists g, (App.replaceText (App.aiMessageId ctx) t rest).
        split; [|eauto]. rewrite Hm. apply replaceText_keeps_greeting.
        -- rewrite Forall_forall in Hids. apply Hids. apply in_map.
           eapply nth_error_In; eauto.
        -- exists now. destruct Hg as [->| ->]; simpl; auto.
      * exists (resetGreetingOf now' date'), []. split; [reflexivity|].
        exists now', date'. now right.
Qed.

Lemma transcript_starts_with_greeting_witness :
  let w := App.mkWindow true false true in
  let s := Page.run true (Page.init (Some (lit "k")) w 5 5)
             [Page.TypeText (lit "hi"); Page.PressEnter w (App.mkSendClock 7 7 8 8);
              Page.StreamChunk 0 (Genai.mkChunk (Some (lit "Hey")))] in
  Page.reachable true s /\
  ((App.apiKeyMissing (Page.app s) = true /\
    App.messages (Page.app s) = [] /\ Page.inflight s = []) \/
   (App.apiKeyMissing (Page.app s) = false /\
    startsWithGreeting (App.messages (Page.app s)))).
Proof.
  intros w s.
  assert (R : Page.reachable true s).
  { subst s. apply run_reachable. apply Page.reachable_init. }
  split; [exact R|].
  exact (transcript_starts_with_greeting true s R).
Defined.

Lemma fold_deliver_loading w clk (l : list ChatInput.Action) s0 :
  (App.isLoading (Page.app s0) = true -> Page.inflight s0 <> []) ->
  App.isLoading (Page.app (fold_left (Page.deliver w clk) l s0)) = true ->
  Page.inflight (fold_left (Page.deliver w clk) l s0) <> [].
Proof.
  revert s0. induction l as [|a l IH]; intros s0 H0; [exact H0|].
  cbn [fold_left]. apply IH. clear IH.
  destruct a as [m|m| | |]; simpl; try exact H0.
  unfold App.handleSendMessage_begin.
  destruct (App.apiKeyMissing (Page.app s0)); simpl.
  - rewrite app_nil_r. exact H0.
  - destruct (App.synthSpeaking w); simpl; intros _ H;
      apply app_eq_nil in H; destruct H as (_ & H); discriminate.
Qed.

(** X7. In every reachable state, while the loading flag is set at least
    one call of [handleSendMessage] is in flight: the typing indicator is
    never shown without a response being awaited. *)
Theorem loading_means_a_call_is_in_flight (ra : bool) (s : Page.Sys) :
  Page.reachable ra s ->
  App.isLoading (Page.app s) = true -> Page.inflight s <> [].
Proof.
  induction 1 as [API_KEY w now date|s e Hreach IH].
  - unfold Page.init, App.mount. destruct (negb (truthy_opt API_KEY)); discriminate.
  - unfold Page.step. destruct (Page.enabled ra s e); [|exact IH].
    destruct e as [value|w clk|w clk|start|start|event|w clk|event
                  |k chunk|k|k thrown|w now date|w k|u| |];
      unfold Page.react, Page.afterInput;
      try (apply fold_deliver_loading; exact IH); try exact IH; try discriminate.
    + destruct (nth_error (Page.inflight s) k) as [ctx|]; [|exact IH].
      unfold App.handleSendMessage_chunk.
      destruct (Genai.text chunk) as [[|c t]|]; simpl; intros _;
        unfold Page.updateNth; intros H; apply app_eq_nil in H;
        destruct H as (_ & H); discriminate.
    + destruct (nth_error (Page.inflight s) k) as [ctx|]; [discriminate|exact IH].
    + unfold App.handleResetConversation. destruct (App.synthSpeaking w); discriminate.
    + destruct (nth_error (App.messages (Page.app s)) k) as [msg|]; [|exact IH].
      unfold App.handleSpeakerClick, App.handleStopSpeech, App.handlePlaySpeech. simpl.
      destruct (App.isCurrentlySpeaking (Page.app s) msg).
      * destruct (App.speechSynthesisSupported (Page.app s)
                  && App.speechSynthesis_speaking w); exact IH.
      * destruct (negb (App.speechSynthesisSupported (Page.app s))
                  || negb (truthy (text msg))); [exact IH|].
        match goal with |- context [if ?b then _ else _] => destruct b end; exact IH.
Qed.

Lemma loading_means_a_call_is_in_flight_witness :
  let w := App.mkWindow true false true in
  let s := Page.run true (Page.init (Some (lit "k")) w 5 5)
             [Page.TypeText (lit "hi"); Page.PressEnter w (App.mkSendClock 7 7 8 8)] in
  (Page.reachable true s /\ App.isLoading (Page.app s) = true) /\
  Page.inflight s <> [].
Proof.
  intros w s.
  assert (R : Page.reachable true s).
  { subst s. apply run_reachable. apply Page.reachable_init. }
  split; [split; [exact R|reflexivity]|].
  exact (loading_means_a_call_is_in_flight true s R eq_refl).
Defined.

(** X8. While the loading flag is set the composer starts no send: the
    Enter key and the send button leave the page as it is, typed text
    included.  The one event that can start a send then is the end of a
    recognition session. *)
Theorem only_recognition_end_sends_while_loading
    (ra : bool) (s : Page.Sys) (e : Page.Event) (w : App.Window) (clk : App.SendClock) :
  App.isLoading (Page.app s) = true ->
  Page.step ra s (Page.PressEnter w clk) = s /\
  Page.step ra s (Page.ClickSend w clk) = s /\
  (forall clk', Page.sendClockOf ra s e = Some clk' ->
     exists w', e = Page.RecognitionEnd w' clk').
Proof.
  intros Hl.
  assert (E : ChatInput.handleSubmit (Page.propsOf s) (Page.input s) = (Page.input s, [])).
  { unfold ChatInput.handleSubmit, Page.propsOf. simpl. rewrite Hl.
    now rewrite andb_false_r. }
  assert (Hs : forall e', e' = Page.PressEnter w clk \/ e' = Page.ClickSend w clk ->
                          Page.step ra s e' = s).
  { intros e' He'. unfold Page.step. destruct (Page.enabled ra s e'); [|reflexivity].
    destruct He' as [->| ->]; simpl; unfold Page.afterInput; rewrite E; now destruct s. }
  split; [now apply Hs; left|]. split; [now apply Hs; right|].
  intros clk'. unfold Page.sendClockOf.
  destruct (Page.enabled ra s e && negb (App.apiKeyMissing (Page.app s))); [|discriminate].
  destruct e; try discriminate; rewrite ?E; try discriminate.
  destruct (snd (ChatInput.onend (Page.input s))) as [|[m|m| | |] l]; try discriminate.
  intros [= <-]. eauto.
Qed.

Lemma only_recognition_end_sends_while_loading_witness :
  let w := App.mkWindow true false true in
  let clk := App.mkSendClock 20 20 21 21 in
  let s := Page.run true (Page.init (Some (lit "k")) w 5 5)
             [Page.ClickMic ChatInput.Started;
              Page.TypeText (lit "hi"); Page.PressEnter w (App.mkSendClock 7 7 8 8);
              Page.RecognitionResult
                (ChatInput.mkEvent 0 [ChatInput.mkResult true (lit "yo")])] in
  let e := Page.RecognitionEnd w clk in
  App.isLoading (Page.app s) = true /\
  Page.sendClockOf true s e = Some clk /\
  Page.step true s (Page.PressEnter w clk) = s /\
  Page.step true s (Page.ClickSend w clk) = s /\
  (forall clk', Page.sendClockOf true s e = Some clk' ->
     exists w', e = Page.RecognitionEnd w' clk').
Proof.
  intros w clk s e. split; [reflexivity|]. split; [reflexivity|].
  apply (only_recognition_end_sends_while_loading true s e w clk). reflexivity.
Defined.

(** X9. After a reset, and until the next send that goes through or the
    next reset, the transcript stays the one fresh greeting whatever else
    happens.  Of the calls that were in flight at the reset: a chunk that
    arrives late changes nothing in the state of [App]; an error that
    arrives late changes no message either, but it does set the error
    banner, which the reset had cleared, and it clears the loading
    flag. *)
Theorem late_stream_events_after_a_reset
    (ra : bool) (s : Page.Sys) (w : App.Window) (now date : Z)
    (events : list Page.Event) :
  Page.reachable ra s ->
  Page.pageShown s = true ->
  forallb (fun e => negb (isClickNewChat e)) events = true ->
  Page.sendClocks ra (Page.step ra s (Page.ClickNewChat w now date)) events = [] ->
  let s1 := Page.step ra s (Page.ClickNewChat w now date) in
  let s2 := Page.run ra s1 events in
  App.error (Page.app s1) = None /\
  App.messages (Page.app s2) = [resetGreetingOf now date] /\
  (forall i chunk,
     Page.app (Page.step ra s2 (Page.StreamChunk i chunk)) = Page.app s2) /\
  (forall i e,
     nth_error (Page.inflight s2) i <> None ->
     let s3 := Page.step ra s2 (Page.StreamThrow i e) in
     App.messages (Page.app s3) = [resetGreetingOf now date] /\
     App.error (Page.app s3) = Some (App.streamErrorBanner (App.errorMessageOf e)) /\
     App.isLoading (Page.app s3) = false).
Proof.
  intros Hreach Hshown Hnr Hns s1 s2.
  assert (H1 : Page.reachable ra s1) by now constructor.
  assert (Hs1 : App.messages (Page.app s1) = [resetGreetingOf now date] /\
                App.error (Page.app s1) = None).
  { subst s1. unfold Page.step. simpl. rewrite Hshown. simpl.
    unfold App.handleResetConversation. now destruct (App.synthSpeaking w). }
  destruct Hs1 as (Hm1 & He1).
  assert (Hm2 : App.messages (Page.app s2) = [resetGreetingOf now date]).
  { change (Page.sendClocks ra s1 events = []) in Hns.
    subst s2. revert H1 Hm1 Hnr Hns. generalize s1. clear.
    induction events as [|e events IH]; intros p Hreach Hm Hnr Hns; [exact Hm|].
    simpl in Hnr, Hns |- *. apply andb_true_iff in Hnr. destruct Hnr as (He & Hnr).
    destruct (reachable_wellFormed ra p Hreach) as (_ & Hids & _).
    apply IH; [now constructor| |exact Hnr|].
    - destruct (step_kind ra p e)
        as [_ E _ _|t clk Hc _ _ _ _|ctx t k _ Hn E _ _|w' now' date' _ He' _ _].
      + now rewrite E.
      + rewrite Hc in Hns. discriminate.
      + rewrite E, Hm. rewrite replaceText_keeps_greeting; [reflexivity| |].
        * rewrite Forall_forall in Hids. apply Hids. apply in_map.
          eapply nth_error_In; eauto.
        * exists now. now right.
      + subst e. discriminate.
    - destruct (Page.sendClockOf ra p e); [discriminate|exact Hns]. }
  assert (H2 : Page.reachable ra s2) by (subst s2; now apply run_reachable).
  destruct (reachable_wellFormed ra s2 H2) as (_ & Hids & _).
  rewrite Forall_forall in Hids.
  assert (Hkeep : forall i ctx t,
            nth_error (Page.inflight s2) i = Some ctx ->
            App.replaceText (App.aiMessageId ctx) t (App.messages (Page.app s2))
            = [resetGreetingOf now date]).
  { intros i ctx t Hn. rewrite Hm2. rewrite replaceText_keeps_greeting; [reflexivity| |].
    - apply Hids. apply in_map. eapply nth_error_In; eauto.
    - exists now. now right. }
  split; [exact He1|]. split; [exact Hm2|]. split.
  - intros i chunk. unfold Page.step.
    destruct (Page.enabled ra s2 (Page.StreamChunk i chunk)); [|reflexivity].
    simpl. destruct (nth_error (Page.inflight s2) i) as [ctx|] eqn:Hn; [|reflexivity].
    unfold App.handleSendMessage_chunk.
    destruct (Genai.text chunk) as [[|c t]|]; simpl; try reflexivity.
    unfold App.setMessages.
    rewrite (Hkeep i ctx _ Hn), <- Hm2. now destruct (Page.app s2).
  - intros i e Hn s3.
    destruct (nth_error (Page.inflight s2) i) as [ctx|] eqn:Hn'; [clear Hn|now elim Hn].
    assert (Hi : i < length (Page.inflight s2)) by (apply nth_error_Some; congruence).
    assert (En : Page.enabled ra s2 (Page.StreamThrow i e) = true)
      by (simpl; now apply Nat.ltb_lt).
    subst s3. rewrite (step_enabled _ _ _ En). simpl. rewrite Hn'. simpl.
    split; [exact (Hkeep i ctx _ Hn')|]. split; reflexivity.
Qed.

Lemma late_stream_events_after_a_reset_witness :
  let ra := true in
  let w := App.mkWindow true false true in
  let now := 9%Z in
  let date := 9%Z in
  let s := Page.run ra (Page.init (Some (lit "k")) w 5 5)
             [Page.TypeText (lit "hi"); Page.PressEnter w (App.mkSendClock 7 7 8 8);
              Page.StreamChunk 0 (Genai.mkChunk (Some (lit "He")))] in
  let events := [Page.StreamChunk 0 (Genai.mkChunk (Some (lit "y")));
                 Page.TypeText (lit "again")] in
  (Page.reachable ra s /\ Page.pageShown s = true /\
   forallb (fun e => negb (isClickNewChat e)) events = true /\
   Page.sendClocks ra (Page.step ra s (Page.ClickNewChat w now date)) events = []) /\
  let s1 := Page.step ra s (Page.ClickNewChat w now date) in
  let s2 := Page.run ra s1 events in
  Page.inflight s2 = [App.mkSendCtx (lit "8-ai") (lit "Hey")] /\
  App.error (Page.app s1) = None /\
  App.messages (Page.app s2) = [resetGreetingOf now date] /\
  (forall i chunk,
     Page.app (Page.step ra s2 (Page.StreamChunk i chunk)) = Page.app s2) /\
  (forall i e,
     nth_error (Page.inflight s2) i <> None ->
     let s3 := Page.step ra s2 (Page.StreamThrow i e) in
     App.messages (Page.app s3) = [resetGreetingOf now date] /\
     App.error (Page.app s3) = Some (App.streamErrorBanner (App.errorMessageOf e)) /\
     App.isLoading (Page.app s3) = false).
Proof.
  intros ra w now date s events.
  assert (R : Page.reachable ra s).
  { subst s. apply run_reachable. apply Page.reachable_init. }
  split; [split; [exact R|split; [reflexivity|split; reflexivity]]|].
  intros s1 s2. split; [vm_compute; reflexivity|].
  exact (late_stream_events_after_a_reset ra s w now date events
           R eq_refl eq_refl eq_refl).
Defined.

(* ================================================================== *)
(** * A failing stream, with other events in between *)
(* ================================================================== *)












(** With a reset between the send and the failure, the message of the
    call is gone: the failure leaves the fresh greeting alone and sets the
    banner. *)
Example stream_failure_after_a_reset :
  let w := App.mkWindow true false true in
  let s := Page.run true (Page.init (Some (lit "k")) w 5 5)
             [Page.TypeText (lit "hi");
              Page.PressEnter w (App.mkSendClock 7 7 8 8);
              Page.ClickNewChat w 9 9;
              Page.StreamThrow 0 (ErrorObject (lit "boom"))] in
  App.messages (Page.app s) = [resetGreetingOf 9 9] /\
  App.error (Page.app s) = Some (App.streamErrorBanner (lit "boom")) /\
  App.isLoading (Page.app s) = false /\
  Page.inflight s = [].
Proof. repeat split; vm_compute; reflexivity. Qed.

(* ================================================================== *)
(** * More on speech synthesis *)
(* ================================================================== *)

Lemma neverSpeaksOver_cancel_first speaking rest :
  length (filter isSpeechSpeak rest) <= 1 ->
  neverSpeaksOver speaking (App.SpeechCancel :: rest).
Proof.
  intros H. split; [exact H|].
  intros _ [|b before] u after E; simpl in E; [discriminate|].
  injection E as <- _. now left.
Qed.

Lemma neverSpeaksOver_silent fx :
  length (filter isSpeechSpeak fx) <= 1 -> neverSpeaksOver false fx.
Proof. intros H. split; [exact H|discriminate]. Qed.

Lemma neverSpeaksOver_no_speak speaking fx :
  filter isSpeechSpeak fx = [] -> neverSpeaksOver speaking fx.
Proof.
  intros H. split; [rewrite H; simpl; lia|].
  intros _ before u after E. exfalso.
  assert (Hin : In (App.SpeechSpeak u) (filter isSpeechSpeak fx)).
  { apply filter_In. split; [|reflexivity]. rewrite E. apply in_or_app. right. now left. }
  now rewrite H in Hin.
Qed.

(** X10. No handler of [App] starts an utterance over one that is being
    spoken: each makes at most one [speak()] call, and when the
    synthesiser reports [speaking] a [cancel()] call comes first.  This
    holds for playing, for the speaker button, for stopping, for the start
    of a send and for the reset. *)
Theorem handlers_never_speak_over_an_utterance
    (st : App.State) (w : App.Window) (text messageId : jsstring) (msg : Message)
    (clk : App.SendClock) (now date : Z) :
  let speaking := App.speechSynthesis_speaking w in
  neverSpeaksOver speaking (snd (App.handlePlaySpeech st w text messageId)) /\
  neverSpeaksOver speaking (snd (App.handleSpeakerClick st w msg)) /\
  neverSpeaksOver speaking (snd (App.handleStopSpeech st w)) /\
  neverSpeaksOver speaking (snd (fst (App.handleSendMessage_begin st w text clk))) /\
  neverSpeaksOver speaking (snd (App.handleResetConversation st w now date)).
Proof.
  cbv zeta.
  assert (Hplay : forall t mid,
             neverSpeaksOver (App.speechSynthesis_speaking w)
               (snd (App.handlePlaySpeech st w t mid))).
  { intros t mid. unfold App.handlePlaySpeech.
    destruct (negb (App.speechSynthesisSupported st) || negb (truthy t));
      [now apply neverSpeaksOver_no_speak|].
    destruct (App.speechSynthesis_speaking w); simpl.
    - match goal with |- context [if ?b then _ else _] => destruct b end; simpl;
        apply neverSpeaksOver_cancel_first; simpl; lia.
    - apply neverSpeaksOver_silent. simpl. lia. }
  assert (Hstop : neverSpeaksOver (App.speechSynthesis_speaking w)
                    (snd (App.handleStopSpeech st w))).
  { unfold App.handleStopSpeech.
    destruct (App.speechSynthesisSupported st && App.speechSynthesis_speaking w);
      now apply neverSpeaksOver_no_speak. }
  split; [apply Hplay|]. split; [|split; [exact Hstop|split]].
  - unfold App.handleSpeakerClick. destruct (App.isCurrentlySpeaking st msg); auto.
  - unfold App.handleSendMessage_begin.
    destruct (App.apiKeyMissing st); [now apply neverSpeaksOver_no_speak|].
    destruct (App.synthSpeaking w); now apply neverSpeaksOver_no_speak.
  - unfold App.handleResetConversation.
    destruct (App.synthSpeaking w); now apply neverSpeaksOver_no_speak.
Qed.

(** What [handlePlaySpeech] does when there is nothing to play. *)
Lemma handlePlaySpeech_nothing_to_play st w text messageId :
  App.speechSynthesisSupported st = false \/ text = [] ->
  App.handlePlaySpeech st w text messageId = (st, []).
Proof.
  intros [H| ->]; unfold App.handlePlaySpeech; [now rewrite H|].
  simpl. now rewrite orb_true_r.
Qed.

(** [includes] finds exactly the strings that occur somewhere. *)
Lemma startsWith_iff s search :
  Voices.startsWith s search = true <-> exists post, s = search ++ post.
Proof.
  revert s. induction search as [|x search IH]; intros s; simpl.
  - destruct s; split; eauto.
  - destruct s as [|y s]; simpl;
      [split; [discriminate|intros (post & H); discriminate]|].
    rewrite andb_true_iff, N.eqb_eq, IH. split.
    + intros (-> & post & ->). eauto.
    + intros (post & [= -> ->]). eauto.
Qed.

Lemma includes_iff s search :
  Voices.includes s search = true <-> exists pre post, s = pre ++ search ++ post.
Proof.
  induction s as [|c s IH]; cbn [Voices.includes].
  - rewrite startsWith_iff. split.
    + intros (post & H). exists [], post. exact H.
    + intros (pre & post & H). symmetry in H.
      apply app_eq_nil in H. destruct H as (-> & H). eauto.
  - rewrite orb_true_iff, startsWith_iff, IH. split.
    + intros [(post & H)|(pre & post & ->)].
      * exists [], post. exact H.
      * exists (c :: pre), post. reflexivity.
    + intros ([|p pre] & post & H); simpl in H.
      * left. eauto.
      * injection H as <- ->. right. eauto.
Qed.

(** X11. The voice [handlePlaySpeech] puts on an utterance is one of the
    voices the browser lists, and its language tag contains "en".  It is
    a voice whose name contains "Google" and "Female" when the list has
    an "en" voice of that kind, and else one whose name contains "Female"
    when the list has an "en" voice of that kind. *)
Theorem chosen_voice_is_listed_and_english
    (toLowerCase : jsstring -> jsstring)
    (voices : list Voices.SpeechSynthesisVoice) (voice : Voices.SpeechSynthesisVoice) :
  Voices.tejaswiVoice toLowerCase voices = Some voice ->
  In voice voices /\
  (exists pre post, Voices.lang voice = pre ++ lit "en" ++ post) /\
  (forall other, In other voices -> Voices.isGoogleFemaleEnglish other = true ->
                 Voices.isGoogleFemaleEnglish voice = true) /\
  (forall other, In other voices -> Voices.isFemaleEnglish other = true ->
                 Voices.isFemaleEnglish voice = true).
Proof.
  unfold Voices.tejaswiVoice. intros H.
  assert (Hgf : forall v, Voices.isGoogleFemaleEnglish v = true ->
                          Voices.isFemaleEnglish v = true).
  { intros v. unfold Voices.isGoogleFemaleEnglish, Voices.isFemaleEnglish.
    rewrite !andb_true_iff. tauto. }
  destruct (find Voices.isGoogleFemaleEnglish voices) as [v1|] eqn:F1.
  - injection H as <-. apply find_some in F1. destruct F1 as (Hin & Hp).
    split; [exact Hin|]. split; [|split; auto].
    apply includes_iff. unfold Voices.isGoogleFemaleEnglish in Hp.
    rewrite !andb_true_iff in Hp. tauto.
  - pose proof (find_none _ _ F1) as N1.
    destruct (find Voices.isFemaleEnglish voices) as [v2|] eqn:F2.
    + injection H as <-. apply find_some in F2. destruct F2 as (Hin & Hp).
      split; [exact Hin|]. split; [|split].
      * apply includes_iff. unfold Voices.isFemaleEnglish in Hp.
        rewrite andb_true_iff in Hp. tauto.
      * intros other Ho Hg. rewrite (N1 other Ho) in Hg. discriminate.
      * auto.
    + pose proof (find_none _ _ F2) as N2.
      apply find_some in H. destruct H as (Hin & Hp).
      split; [exact Hin|]. split; [|split].
      * apply includes_iff. unfold Voices.isFallbackEnglish in Hp.
        rewrite andb_true_iff in Hp. tauto.
      * intros other Ho Hg. rewrite (N1 other Ho) in Hg. discriminate.
      * intros other Ho Hg. rewrite (N2 other Ho) in Hg. discriminate.
Qed.

Lemma chosen_voice_is_listed_and_english_witness :
  let fr := Voices.mkVoice (lit "fr-FR") (lit "Google Female") true in
  let uk := Voices.mkVoice (lit "en-GB") (lit "Daniel") true in
  let us := Voices.mkVoice (lit "en-US") (lit "Samantha Female") false in
  let voices := [fr; uk; us] in
  Voices.tejaswiVoice (fun s => s) voices = Some us /\
  In us voices /\
  (exists pre post, Voices.lang us = pre ++ lit "en" ++ post) /\
  (forall other, In other voices -> Voices.isGoogleFemaleEnglish other = true ->
                 Voices.isGoogleFemaleEnglish us = true) /\
  (forall other, In other voices -> Voices.isFemaleEnglish other = true ->
                 Voices.isFemaleEnglish us = true).
Proof.
  intros fr uk us voices. split; [reflexivity|].
  apply (chosen_voice_is_listed_and_english (fun s => s) voices us). reflexivity.
Defined.

(** X12. When no listed voice has "en" in its language tag, among them
    when the browser lists no voice yet, [handlePlaySpeech] leaves the
    voice of the utterance alone, whatever the names and defaults are. *)
Theorem no_english_voice_no_choice
    (toLowerCase : jsstring -> jsstring) (voices : list Voices.SpeechSynthesisVoice) :
  (forall voice, In voice voices -> Voices.includes (Voices.lang voice) (lit "en") = false) ->
  Voices.tejaswiVoice toLowerCase voices = None.
Proof.
  intros H. unfold Voices.tejaswiVoice.
  assert (Hnone : forall p,
             (forall v, p v = true -> Voices.includes (Voices.lang v) (lit "en") = true) ->
             find p voices = None).
  { intros p Hp. destruct (find p voices) as [v|] eqn:F; [|reflexivity].
    apply find_some in F. destruct F as (Hin & Hv).
    specialize (Hp v Hv). rewrite (H v Hin) in Hp. discriminate. }
  rewrite !Hnone; [reflexivity| | |]; intros v;
    unfold Voices.isFallbackEnglish, Voices.isFemaleEnglish, Voices.isGoogleFemaleEnglish;
    rewrite !andb_true_iff; tauto.
Qed.

Lemma no_english_voice_no_choice_witness :
  let voices := [Voices.mkVoice (lit "fr-FR") (lit "Google Female") true;
                 Voices.mkVoice (lit "de-DE") (lit "Anna female") false] in
  (forall voice, In voice voices -> Voices.includes (Voices.lang voice) (lit "en") = false) /\
  Voices.tejaswiVoice (fun s => s) voices = None.
Proof.
  intros voices.
  assert (H : forall voice, In voice voices ->
                            Voices.includes (Voices.lang voice) (lit "en") = false).
  { intros voice [<-|[<-|[]]]; reflexivity. }
  split; [exact H|].
  exact (no_english_voice_no_choice (fun s => s) voices H).
Defined.

(* ================================================================== *)
(** * More on the composer and the recognition handlers *)
(* ================================================================== *)

(** X13. When [toggleRecording] goes for a start (the recognition object
    exists, recognition is supported, no recording is on), the composer
    text and the captured transcript are cleared whatever
    [recognition.start()] does, and the recording flag is set exactly when
    the call returned; otherwise the flag stays off. *)
Theorem start_of_recording_clears_composer
    (p : ChatInput.Props) (start : ChatInput.StartOutcome) (st : ChatInput.State) :
  ChatInput.speechRecognitionSupported p = true ->
  ChatInput.isRecording st = false ->
  let r := ChatInput.toggleRecording true p start st in
  ChatInput.inputValue (fst r) = [] /\
  ChatInput.latestFinalTranscriptRef (fst r) = [] /\
  (ChatInput.isRecording (fst r) = true <-> start = ChatInput.Started) /\
  (In ChatInput.RecognitionStart (snd r) <-> start = ChatInput.Started).
Proof.
  intros Hs Hr. cbv zeta. unfold ChatInput.toggleRecording. rewrite Hs, Hr. simpl.
  destruct start as [|name]; simpl.
  - repeat split; auto.
  - destruct (jsstring_eqb name (lit "NotAllowedError")
              || jsstring_eqb name (lit "SecurityError")); simpl.
    + repeat split; try discriminate. intros [H|[]]; discriminate.
    + destruct (jsstring_eqb name (lit "InvalidStateError")); simpl;
        rewrite ?Hr; repeat split; try discriminate;
        intros H; repeat destruct H as [H|H]; try discriminate; contradiction.
Qed.

Lemma start_of_recording_clears_composer_witness :
  let p := ChatInput.mkProps false true in
  let st := ChatInput.mkState (lit "draft") false (lit "old") in
  let r := ChatInput.toggleRecording true p
             (ChatInput.StartThrows (lit "InvalidStateError")) st in
  (ChatInput.speechRecognitionSupported p = true /\ ChatInput.isRecording st = false) /\
  ChatInput.inputValue (fst r) = [] /\
  ChatInput.latestFinalTranscriptRef (fst r) = [] /\
  (ChatInput.isRecording (fst r) = true
   <-> ChatInput.StartThrows (lit "InvalidStateError") = ChatInput.Started) /\
  (In ChatInput.RecognitionStart (snd r)
   <-> ChatInput.StartThrows (lit "InvalidStateError") = ChatInput.Started).
Proof.
  intros p st r. split; [split; reflexivity|].
  apply (start_of_recording_clears_composer p
           (ChatInput.StartThrows (lit "InvalidStateError")) st); reflexivity.
Defined.

(** When it does not go for a start, [toggleRecording] leaves the composer
    alone. *)
Lemma toggleRecording_no_start ra p start st :
  ra = false \/ ChatInput.speechRecognitionSupported p = false
  \/ ChatInput.isRecording st = true ->
  fst (ChatInput.toggleRecording ra p start st) = st.
Proof.
  unfold ChatInput.toggleRecording.
  intros [->|[H|H]]; [reflexivity| |].
  - rewrite H, orb_true_r. reflexivity.
  - destruct (negb ra || negb (ChatInput.speechRecognitionSupported p)); [reflexivity|].
    now rewrite H.
Qed.

Lemma speechErrorMessage_truthy event : truthy (ChatInput.speechErrorMessage event) = true.
Proof. unfold ChatInput.speechErrorMessage. now destruct (ChatInput.error event). Qed.

(** X14. Every message the composer passes to [onSpeechError], from
    [toggleRecording], from the retry timer or from [onerror], is a
    non-empty string: once [handleSpeechError] has run, the banner of the
    page is rendered and shows that message. *)
Theorem speech_errors_reach_the_banner
    (ra : bool) (p : ChatInput.Props) (start : ChatInput.StartOutcome)
    (st : ChatInput.State) (event : ChatInput.SpeechRecognitionErrorEvent)
    (message : jsstring) (app : App.State) :
  In (ChatInput.OnSpeechError message)
     (snd (ChatInput.toggleRecording ra p start st)
      ++ snd (ChatInput.retryStart start st)
      ++ snd (ChatInput.onerror st event)) ->
  App.renderErrorBanner (App.handleSpeechError app message)
  = Some (App.mkBanner message []).
Proof.
  intros Hin.
  assert (Ht : truthy message = true).
  { apply in_app_or in Hin. destruct Hin as [Hin|Hin].
    - revert Hin. unfold ChatInput.toggleRecording.
      destruct (negb ra || negb (ChatInput.speechRecognitionSupported p));
        [intros [[= <-]|[]]; reflexivity|].
      destruct (ChatInput.isRecording st); [intros [H|[]]; discriminate|].
      destruct start as [|name]; [intros [H|[]]; discriminate|].
      destruct (jsstring_eqb name (lit "NotAllowedError")
                || jsstring_eqb name (lit "SecurityError"));
        [intros [[= <-]|[]]; reflexivity|].
      destruct (jsstring_eqb name (lit "InvalidStateError")).
      + intros [H|[H|[]]]; discriminate.
      + intros [[= <-]|[]]; reflexivity.
    - apply in_app_or in Hin. destruct Hin as [Hin|Hin].
      + destruct start; simpl in Hin; destruct Hin as [H|[]];
          [discriminate|injection H as <-; reflexivity].
      + simpl in Hin. destruct Hin as [[= <-]|[]]. apply speechErrorMessage_truthy. }
  unfold App.renderErrorBanner, App.handleSpeechError. simpl. now rewrite Ht.
Qed.

Lemma speech_errors_reach_the_banner_witness :
  let p := ChatInput.mkProps false true in
  let st := ChatInput.initialState in
  let event := ChatInput.mkErrorEvent ChatInput.network [] in
  let message := lit "Oops, voice input ran into a snag: network. " in
  In (ChatInput.OnSpeechError message)
     (snd (ChatInput.toggleRecording true p ChatInput.Started st)
      ++ snd (ChatInput.retryStart ChatInput.Started st)
      ++ snd (ChatInput.onerror st event)) /\
  App.renderErrorBanner (App.handleSpeechError App.initialState message)
  = Some (App.mkBanner message []).
Proof.
  intros p st event message.
  assert (Hin : In (ChatInput.OnSpeechError message)
                   (snd (ChatInput.toggleRecording true p ChatInput.Started st)
                    ++ snd (ChatInput.retryStart ChatInput.Started st)
                    ++ snd (ChatInput.onerror st event))).
  { simpl. right. right. left. reflexivity. }
  split; [exact Hin|].
  exact (speech_errors_reach_the_banner true p ChatInput.Started st event message
           App.initialState Hin).
Defined.

(** X15. A recognition error, as an event of the page: the banner shows
    the message for its error code, the recording flag is off, the
    captured transcript is dropped, and the transcript and the calls in
    flight are as they were; the end of the session that follows submits
    nothing. *)
Theorem recognition_error_on_the_page
    (ra : bool) (s : Page.Sys) (event : ChatInput.SpeechRecognitionErrorEvent) :
  Page.enabled ra s (Page.RecognitionError event) = true ->
  let s' := Page.step ra s (Page.RecognitionError event) in
  App.renderErrorBanner (Page.app s')
  = Some (App.mkBanner (ChatInput.speechErrorMessage event) []) /\
  ChatInput.isRecording (Page.input s') = false /\
  ChatInput.latestFinalTranscriptRef (Page.input s') = [] /\
  ChatInput.inputValue (Page.input s') = ChatInput.inputValue (Page.input s) /\
  App.messages (Page.app s') = App.messages (Page.app s) /\
  Page.inflight s' = Page.inflight s /\
  snd (ChatInput.onend (Page.input s')) = [].
Proof.
  intros En. cbv zeta. rewrite (step_enabled _ _ _ En). simpl.
  unfold App.renderErrorBanner. simpl. rewrite speechErrorMessage_truthy.
  repeat split.
Qed.

Lemma recognition_error_on_the_page_witness :
  let w := App.mkWindow true false true in
  let s := Page.run true (Page.init (Some (lit "k")) w 5 5)
             [Page.ClickMic ChatInput.Started;
              Page.RecognitionResult
                (ChatInput.mkEvent 0 [ChatInput.mkResult true (lit "yo")])] in
  let event := ChatInput.mkErrorEvent ChatInput.no_speech [] in
  let s' := Page.step true s (Page.RecognitionError event) in
  Page.enabled true s (Page.RecognitionError event) = true /\
  App.renderErrorBanner (Page.app s')
  = Some (App.mkBanner (ChatInput.speechErrorMessage event) []) /\
  ChatInput.isRecording (Page.input s') = false /\
  ChatInput.latestFinalTranscriptRef (Page.input s') = [] /\
  ChatInput.inputValue (Page.input s') = ChatInput.inputValue (Page.input s) /\
  App.messages (Page.app s') = App.messages (Page.app s) /\
  Page.inflight s' = Page.inflight s /\
  snd (ChatInput.onend (Page.input s')) = [].
Proof.
  intros w s event s'. split; [reflexivity|].
  apply (recognition_error_on_the_page true s event). reflexivity.
Defined.

(** [trim] cuts white space at both ends and nothing else. *)
Lemma trimStart_decompose (s : jsstring) :
  exists white, s = white ++ trimStart s /\ blank white.
Proof.
  induction s as [|c s (white & E & B)]; simpl.
  - exists []. split; [reflexivity|constructor].
  - destruct (isWhiteSpace c) eqn:W.
    + exists (c :: white). split; [simpl; now rewrite <- E|now constructor].
    + exists []. split; [reflexivity|constructor].
Qed.

Lemma trimStart_fixed_iff (s : jsstring) :
  trimStart s = s <-> match s with [] => True | c :: _ => isWhiteSpace c = false end.
Proof.
  destruct s as [|c s]; simpl; [tauto|].
  destruct (isWhiteSpace c) eqn:W; split; auto; try discriminate.
  intros H. exfalso.
  destruct (trimStart_decompose s) as (white & E & _).
  apply (f_equal (@length _)) in H. apply (f_equal (@length _)) in E.
  rewrite length_app in E. simpl in H. lia.
Qed.

Lemma trimStart_idempotent (s : jsstring) : trimStart (trimStart s) = trimStart s.
Proof.
  apply trimStart_fixed_iff. destruct (trimStart s) as [|c r] eqn:E; [exact I|].
  eapply trimStart_head; eauto.
Qed.

Lemma trimEnd_decompose (s : jsstring) :
  exists white, s = trimEnd s ++ white /\ blank white.
Proof.
  destruct (trimStart_decompose (rev s)) as (white & E & B).
  exists (rev white). split.
  - unfold trimEnd. rewrite <- rev_app_distr, <- E. now rewrite rev_involutive.
  - unfold blank in *. rewrite Forall_forall in *. intros c Hc. apply B.
    now apply in_rev.
Qed.

Lemma trim_idempotent (s : jsstring) : trim (trim s) = trim s.
Proof.
  unfold trim.
  assert (Hend : forall x, trimEnd (trimEnd x) = trimEnd x).
  { intros x. unfold trimEnd. now rewrite rev_involutive, trimStart_idempotent. }
  assert (Hstart : trimStart (trimEnd (trimStart s)) = trimEnd (trimStart s)).
  { apply trimStart_fixed_iff.
    destruct (trimEnd_decompose (trimStart s)) as (white & E & _).
    destruct (trimEnd (trimStart s)) as [|c r] eqn:T; [exact I|].
    pose proof (trimStart_idempotent s) as Hi. rewrite E in Hi at 2.
    rewrite E in Hi at 1. simpl in Hi.
    destruct (isWhiteSpace c) eqn:W; [|reflexivity]. exfalso.
    destruct (trimStart_decompose (r ++ white)) as (w' & E' & _).
    apply (f_equal (@length _)) in Hi. apply (f_equal (@length _)) in E'.
    simpl in Hi. rewrite !length_app in *. lia. }
  now rewrite Hstart, Hend.
Qed.

Lemma handleSubmit_sends_trimmed p st t :
  In (ChatInput.OnSendMessage t) (snd (ChatInput.handleSubmit p st)) -> trimmed t.
Proof.
  destruct (handleSubmit_cases p st) as [(-> & _)|(-> & Ht & _)]; simpl; [tauto|].
  intros [[= <-]|[]]. split; [apply trim_idempotent|].
  intros E. rewrite E in Ht. discriminate.
Qed.

Lemma run_snoc ra s events e :
  Page.run ra s (events ++ [e]) = Page.step ra (Page.run ra s events) e.
Proof. unfold Page.run. now rewrite fold_left_app. Qed.

Lemma submittedIn_later ra s0 events e t :
  submittedIn ra s0 events t -> submittedIn ra s0 (events ++ [e]) t.
Proof.
  intros (before & e0 & after & w & clk & -> & H).
  exists before, e0, (after ++ [e]), w, clk. split; [|exact H].
  now rewrite <- app_assoc.
Qed.

Lemma dictatedIn_later ra s0 events e t :
  dictatedIn ra s0 events t -> dictatedIn ra s0 (events ++ [e]) t.
Proof.
  intros (before & event & after & -> & H).
  exists before, event, (after ++ [e]). split; [|exact H].
  now rewrite <- app_assoc.
Qed.

(** X16. In every state the page reaches from the mount, the text of every
    user message of the transcript is the text the composer held when the
    Enter key or the send button was used at some point of the run, or the
    transcript of a final recognition result delivered at some point of
    the run, in both cases with the white space at both ends removed; it
    is not empty, and trimming it again changes nothing.  The captured
    transcript, whenever it is not empty, is the transcript of a final
    recognition result of the run with the white space at both ends
    removed. *)
Theorem user_messages_are_typed_or_dictated
    (ra : bool) (API_KEY : option jsstring) (w : App.Window) (now date : Z)
    (events : list Page.Event) :
  let s0 := Page.init API_KEY w now date in
  let s := Page.run ra s0 events in
  (forall m, In m (App.messages (Page.app s)) -> sender m = USER ->
     trimmed (text m) /\
     (submittedIn ra s0 events (text m) \/ dictatedIn ra s0 events (text m))) /\
  (ChatInput.latestFinalTranscriptRef (Page.input s) <> [] ->
   trimmed (ChatInput.latestFinalTranscriptRef (Page.input s)) /\
   dictatedIn ra s0 events (ChatInput.latestFinalTranscriptRef (Page.input s))).
Proof.
  intros s0 s. subst s.
  induction events as [|e events (IHm & IHr)] using rev_ind.
  - split.
    + unfold s0, Page.init, App.mount. simpl.
      destruct (negb (truthy_opt API_KEY)); simpl; [tauto|].
      intros m [<-|[]]. discriminate.
    + intros H. now elim H.
  - rewrite run_snoc.
    set (s := Page.run ra s0 events) in *.
    assert (Hreach : Page.reachable ra s).
    { subst s. apply run_reachable. apply Page.reachable_init. }
    assert (Href : ChatInput.latestFinalTranscriptRef (Page.input (Page.step ra s e)) <> [] ->
                   trimmed (ChatInput.latestFinalTranscriptRef (Page.input (Page.step ra s e))) /\
                   dictatedIn ra s0 (events ++ [e])
                     (ChatInput.latestFinalTranscriptRef (Page.input (Page.step ra s e)))).
    { intros Hne.
      destruct (Page.enabled ra s e) eqn:En.
      2:{ rewrite (step_disabled _ _ _ En) in *.
          destruct (IHr Hne) as (Ht & Hd). split; [exact Ht|now apply dictatedIn_later]. }
      destruct (step_ref ra s e) as [E|[E|(event & -> & F & E)]].
      - now elim Hne.
      - rewrite E in *. destruct (IHr Hne) as (Ht & Hd).
        split; [exact Ht|now apply dictatedIn_later].
      - split.
        + split; [rewrite E; apply trim_idempotent|exact Hne].
        + exists events, event, []. repeat split; assumption. }
    split; [|exact Href].
    destruct (reachable_wellFormed ra s Hreach) as (Horigin & Hids & _).
    destruct (Page.sendClockOf ra s e) as [clk|] eqn:Hc.
    + destruct (send_source ra s e clk Hc) as (En & _ & t & Ht & Em & _ & Hsrc).
      rewrite Em. intros m Hin Hs. apply in_app_or in Hin.
      destruct Hin as [Hin|[<-|[<-|[]]]]; [| |discriminate].
      * destruct (IHm m Hin Hs) as (H1 & [H2|H2]);
          (split; [exact H1|]); [left; now apply submittedIn_later
                                |right; now apply dictatedIn_later].
      * simpl.
        destruct Hsrc as [(w' & He & ->)|(w' & -> & ->)].
        -- split.
           ++ split; [apply trim_idempotent|]. intros E. rewrite E in Ht. discriminate.
           ++ left. exists events, e, [], w', clk. repeat split; assumption.
        -- assert (Hne : ChatInput.latestFinalTranscriptRef (Page.input s) <> [])
             by (intros E; rewrite E in Ht; discriminate).
           destruct (IHr Hne) as (H1 & H2).
           split; [exact H1|right; now apply dictatedIn_later].
    + assert (Hold : forall m, In m (App.messages (Page.app s)) -> sender m = USER ->
                trimmed (text m) /\
                (submittedIn ra s0 (events ++ [e]) (text m) \/
                 dictatedIn ra s0 (events ++ [e]) (text m))).
      { intros m Hin Hs. destruct (IHm m Hin Hs) as (H1 & [H2|H2]);
          (split; [exact H1|]); [left; now apply submittedIn_later
                                |right; now apply dictatedIn_later]. }
      destruct (step_kind ra s e)
        as [_ E _ _|t clk Hc' _ _ _ _|ctx t k _ Hn E _ _|w' now' date' _ _ E _];
        [| congruence | |]; rewrite E; clear E.
      * exact Hold.
      * intros m' Hin Hs.
        unfold App.replaceText in Hin. apply in_map_iff in Hin.
        destruct Hin as (m & <- & Hm).
        destruct (jsstring_eqb (id m) (App.aiMessageId ctx)) eqn:Eq; [|now apply Hold].
        exfalso. apply jsstring_eqb_eq in Eq.
        rewrite Forall_forall in Horigin, Hids.
        assert (Ha : isAssistantId (id m)).
        { rewrite Eq. apply Hids. apply in_map. eapply nth_error_In; eauto. }
        destruct (origin_of_assistant_id m (Horigin m Hm) Ha) as (clk & t0 & ->).
        discriminate.
      * intros m [<-|[]]. discriminate.
Qed.

Lemma user_messages_are_typed_or_dictated_witness :
  let ra := true in
  let API_KEY := Some (lit "k") in
  let w := App.mkWindow true false true in
  let now := 5%Z in
  let date := 5%Z in
  let events :=
    [Page.TypeText (lit "  hi there  ");
     Page.PressEnter w (App.mkSendClock 7 7 8 8);
     Page.StreamEnd 0;
     Page.ClickMic ChatInput.Started;
     Page.RecognitionResult (ChatInput.mkEvent 0 [ChatInput.mkResult true (lit " yo ")]);
     Page.RecognitionEnd w (App.mkSendClock 9 9 9 9);
     Page.RecognitionResult (ChatInput.mkEvent 0 [ChatInput.mkResult true (lit " more ")])] in
  let s0 := Page.init API_KEY w now date in
  let s := Page.run ra s0 events in
  map text (filter (fun m => SenderType_eqb (sender m) USER) (App.messages (Page.app s)))
  = [lit "hi there"; lit "yo"] /\
  ChatInput.latestFinalTranscriptRef (Page.input s) = lit "more" /\
  (forall m, In m (App.messages (Page.app s)) -> sender m = USER ->
     trimmed (text m) /\
     (submittedIn ra s0 events (text m) \/ dictatedIn ra s0 events (text m))) /\
  (ChatInput.latestFinalTranscriptRef (Page.input s) <> [] ->
   trimmed (ChatInput.latestFinalTranscriptRef (Page.input s)) /\
   dictatedIn ra s0 events (ChatInput.latestFinalTranscriptRef (Page.input s))).
Proof.
  intros ra API_KEY w now date events s0 s.
  split; [vm_compute; reflexivity|]. split; [vm_compute; reflexivity|].
  exact (user_messages_are_typed_or_dictated ra API_KEY w now date events).
Defined.

(** The user message holds the typed text without the spaces around
    it. *)
Example typed_text_is_sent_trimmed :
  let w := App.mkWindow true false true in
  map text
    (App.messages
       (Page.app (Page.run true (Page.init (Some (lit "k")) w 5 5)
                    [Page.TypeText (lit "  hi there  ");
                     Page.PressEnter w (App.mkSendClock 7 7 8 8)])))
  = [App.initialGreetingText; lit "hi there"; []].
Proof. reflexivity. Qed.

(** X17. What the end of a recognition session submits is the trimmed
    transcript of the last final result, if that is not empty: results
    that are not final, arriving after it, change the text shown in the
    composer but not what is submitted. *)
Theorem interim_results_keep_the_final_transcript
    (st : ChatInput.State) (final : ChatInput.SpeechRecognitionEvent)
    (interims : list ChatInput.SpeechRecognitionEvent) :
  ChatInput.lastIsFinal final = true ->
  forallb (fun event => negb (ChatInput.lastIsFinal event)) interims = true ->
  truthy (trim (ChatInput.currentTranscriptOf final)) = true ->
  let st' := fold_left ChatInput.onresult interims (ChatInput.onresult st final) in
  ChatInput.onend st'
  = (ChatInput.mkState [] false [],
     [ChatInput.OnSendMessage (trim (ChatInput.currentTranscriptOf final))]) /\
  ChatInput.inputValue st'
  = ChatInput.currentTranscriptOf (last interims final).
Proof.
  intros Hf Hi Ht. cbv zeta.
  assert (H : forall st0,
             ChatInput.latestFinalTranscriptRef
               (fold_left ChatInput.onresult interims st0)
             = ChatInput.latestFinalTranscriptRef st0 /\
             ChatInput.inputValue (fold_left ChatInput.onresult interims st0)
             = match interims with
               | [] => ChatInput.inputValue st0
               | _ => ChatInput.currentTranscriptOf (last interims final)
               end).
  { clear Hf Ht. induction interims as [|ev evs IH]; intros st0; [split; reflexivity|].
    simpl in Hi. apply andb_true_iff in Hi. destruct Hi as (Hev & Hi).
    apply negb_true_iff in Hev.
    cbn [fold_left]. destruct (IH Hi (ChatInput.onresult st0 ev)) as (H1 & H2).
    rewrite H1, H2, onresult_ref, Hev. split; [reflexivity|].
    destruct evs as [|ev' evs]; [|reflexivity].
    unfold ChatInput.onresult. rewrite Hev. reflexivity. }
  destruct (H (ChatInput.onresult st final)) as (Hr & Hv).
  rewrite onresult_ref, Hf in Hr.
  split.
  - destruct (onend_cases (fold_left ChatInput.onresult interims
                             (ChatInput.onresult st final))) as [(E & _)|(_ & E)].
    + rewrite Hr in E. rewrite E in Ht. discriminate.
    + rewrite E, Hr. reflexivity.
  - rewrite Hv. destruct interims; [|reflexivity].
    unfold ChatInput.onresult. simpl. now rewrite Hf.
Qed.

Lemma interim_results_keep_the_final_transcript_witness :
  let st := ChatInput.mkState [] true [] in
  let final := ChatInput.mkEvent 0 [ChatInput.mkResult true (lit " hello world ")] in
  let interims := [ChatInput.mkEvent 1 [ChatInput.mkResult true (lit " hello world ");
                                         ChatInput.mkResult false (lit "and")]] in
  let st' := fold_left ChatInput.onresult interims (ChatInput.onresult st final) in
  (ChatInput.lastIsFinal final = true /\
   forallb (fun event => negb (ChatInput.lastIsFinal event)) interims = true /\
   truthy (trim (ChatInput.currentTranscriptOf final)) = true) /\
  ChatInput.onend st'
  = (ChatInput.mkState [] false [],
     [ChatInput.OnSendMessage (trim (ChatInput.currentTranscriptOf final))]) /\
  ChatInput.inputValue st'
  = ChatInput.currentTranscriptOf (last interims final).
Proof.
  intros st final interims st'. split; [repeat split|].
  apply (interim_results_keep_the_final_transcript st final interims); reflexivity.
Defined.

(* ================================================================== *)
(** * formatText *)
(* ================================================================== *)

Example splitLinks_sample :
  ChatMessage.splitLinks (lit "see [docs](http://a.b) or https://x.y now")
  = [lit "see "; lit "[docs](http://a.b)"; lit " or "; lit "https://x.y"; lit " now"].
Proof. reflexivity. Qed.

Example renderPart_samples :
  map ChatMessage.renderPart [lit "[docs](http://a.b)"; lit "https://x.y"; lit "[a](b) c"; []]
  = [ChatMessage.Anchor (lit "http://a.b") (lit "docs");
     ChatMessage.Anchor (lit "https://x.y") (lit "https://x.y");
     ChatMessage.TextNode (lit "[a](b) c");
     ChatMessage.TextNode []].
Proof. reflexivity. Qed.

(** ** Lines *)

Lemma splitLines_nonempty s : ChatMessage.splitLines s <> [].
Proof.
  destruct s as [|c s]; simpl; [discriminate|].
  destruct (c =? 10)%N; [discriminate|].
  destruct (ChatMessage.splitLines s); discriminate.
Qed.

Lemma joinLines_cons_char c line lines :
  joinLines ((c :: line) :: lines) = c :: joinLines (line :: lines).
Proof. destruct lines; reflexivity. Qed.

Lemma joinLines_splitLines s : joinLines (ChatMessage.splitLines s) = s.
Proof.
  induction s as [|c s IH]; [reflexivity|].
  simpl. destruct (c =? 10)%N eqn:E.
  - apply N.eqb_eq in E. subst c.
    destruct (ChatMessage.splitLines s) as [|l ls] eqn:S;
      [now elim (splitLines_nonempty s)|].
    change (joinLines ([] :: l :: ls)) with (10%N :: joinLines (l :: ls)).
    f_equal. exact IH.
  - destruct (ChatMessage.splitLines s) as [|l ls] eqn:S;
      [now elim (splitLines_nonempty s)|].
    rewrite joinLines_cons_char. f_equal. exact IH.
Qed.

Lemma splitLines_length s : length (ChatMessage.splitLines s) = S (lineFeeds s).
Proof.
  unfold lineFeeds. induction s as [|c s IH]; [reflexivity|].
  simpl. destruct (c =? 10)%N; simpl; [now rewrite IH|].
  destruct (ChatMessage.splitLines s) as [|l ls] eqn:S;
    [now elim (splitLines_nonempty s)|exact IH].
Qed.

Lemma splitLines_no_feed s line :
  In line (ChatMessage.splitLines s) -> ~ In 10%N line.
Proof.
  revert line. induction s as [|c s IH]; simpl; intros line.
  - intros [<-|[]] [].
  - destruct (c =? 10)%N eqn:E.
    + intros [<-|H]; [intros []|now apply IH].
    + destruct (ChatMessage.splitLines s) as [|l ls] eqn:S;
        [now elim (splitLines_nonempty s)|].
      intros [<-|H].
      * intros [->|H]; [now rewrite N.eqb_refl in E|].
        apply (IH l); [now left|exact H].
      * apply IH. now right.
Qed.

Lemma formatLines_nth count i lines k line :
  nth_error (ChatMessage.formatLines count i lines) k = Some line ->
  exists source,
    nth_error lines k = Some source /\
    ChatMessage.nodes line = map ChatMessage.renderPart (ChatMessage.splitLinks source) /\
    ChatMessage.lineBreak line = (i + k <? count - 1).
Proof.
  revert i k. induction lines as [|l lines IH]; intros i k; simpl.
  - destruct k; discriminate.
  - destruct k as [|k]; simpl.
    + intros [= <-]. exists l. rewrite Nat.add_0_r. auto.
    + intros H. destruct (IH (S i) k H) as (source & H1 & H2 & H3).
      exists source. rewrite H3.
      replace (i + S k) with (S i + k) by lia. auto.
Qed.

Lemma formatLines_length count i lines :
  length (ChatMessage.formatLines count i lines) = length lines.
Proof.
  revert i. induction lines as [|l lines IH]; intros i; simpl; [reflexivity|].
  now rewrite IH.
Qed.

(** ** The lazy dots *)

Lemma lazyDots_eq {A : Type} (k : jsstring -> option A) (s : jsstring) :
  ChatMessage.lazyDots k s =
  match k s with
  | Some r => Some ([], r)
  | None =>
      match s with
      | c :: s' =>
          if ChatMessage.isLineTerminator c then None
          else match ChatMessage.lazyDots k s' with
               | Some (dots, r) => Some (c :: dots, r)
               | None => None
               end
      | [] => None
      end
  end.
Proof. destruct s; reflexivity. Qed.

Lemma lazyDots_sound {A : Type} (k : jsstring -> option A) s d r :
  ChatMessage.lazyDots k s = Some (d, r) ->
  exists s', s = d ++ s' /\ k s' = Some r /\ dotText d.
Proof.
  revert d. induction s as [|c s IH]; intros d; rewrite lazyDots_eq.
  - destruct (k []) eqn:K; [|discriminate].
    intros [= <- <-]. exists []. repeat split; [exact K|constructor].
  - destruct (k (c :: s)) eqn:K.
    + intros [= <- <-]. exists (c :: s). repeat split; [exact K|constructor].
    + destruct (ChatMessage.isLineTerminator c) eqn:L; [discriminate|].
      destruct (ChatMessage.lazyDots k s) as [[d' r']|] eqn:D; [|discriminate].
      intros [= <- <-]. destruct (IH d' eq_refl) as (s' & -> & K' & F).
      exists s'. repeat split; [exact K'|now constructor].
Qed.

Lemma lazyDots_complete {A : Type} (k : jsstring -> option A) d s' r :
  dotText d -> k s' = Some r -> ChatMessage.lazyDots k (d ++ s') <> None.
Proof.
  intros F K. induction F as [|c d L F IH]; simpl app; rewrite lazyDots_eq.
  - rewrite K. discriminate.
  - destruct (k (c :: d ++ s')); [discriminate|]. rewrite L.
    destruct (ChatMessage.lazyDots k (d ++ s')) as [[? ?]|]; [discriminate|].
    now elim IH.
Qed.

(** ** The two patterns *)

Lemma markdownLink_sound {A : Type} (k : jsstring -> option A) s label href r :
  ChatMessage.markdownLink k s = Some (label, href, r) ->
  exists rest,
    s = markdownSource label href ++ rest /\ k rest = Some r /\
    dotText label /\ dotText href.
Proof.
  unfold ChatMessage.markdownLink. intros H.
  destruct s as [|c s1]; [discriminate|].
  literal c H.
  match type of H with
  | match ?x with _ => _ end = _ => destruct x as [[l [h r']]|] eqn:D; [|discriminate]
  end.
  injection H as <- <- <-.
  apply lazyDots_sound in D. destruct D as (s2 & -> & K2 & F1).
  destruct s2 as [|c2 s2]; [discriminate|]. literal c2 K2.
  destruct s2 as [|c3 s3]; [discriminate|]. literal c3 K2.
  apply lazyDots_sound in K2. destruct K2 as (s4 & -> & K4 & F2).
  destruct s4 as [|c4 s5]; [discriminate|]. literal c4 K4.
  exists s5. unfold markdownSource. repeat split; auto.
  simpl. rewrite <- app_assoc. simpl. rewrite <- app_assoc. reflexivity.
Qed.

Lemma markdownLink_complete {A : Type} (k : jsstring -> option A) label href rest r :
  dotText label -> dotText href -> k rest = Some r ->
  ChatMessage.markdownLink k (markdownSource label href ++ rest) <> None.
Proof.
  intros F1 F2 K. unfold markdownSource, ChatMessage.markdownLink.
  simpl. rewrite <- app_assoc. simpl. rewrite <- app_assoc. simpl.
  destruct (ChatMessage.lazyDots
              (fun s4 => match s4 with
                         | 41%N :: s5 => k s5
                         | _ => None
                         end) (href ++ 41%N :: rest)) as [[h r']|] eqn:D2.
  - match goal with
    | |- match ?x with _ => _ end <> None =>
        destruct x as [[l [h0 r0]]|] eqn:D; [discriminate|]
    end.
    exfalso. revert D. apply lazyDots_complete with (r := (h, r')); [exact F1|exact D2].
  - exfalso. revert D2. apply lazyDots_complete with (r := r); [exact F2|exact K].
Qed.

Lemma urlScheme_sound s scheme s' :
  ChatMessage.urlScheme s = Some (scheme, s') ->
  s = scheme ++ s' /\ (scheme = lit "http://" \/ scheme = lit "https://").
Proof.
  unfold ChatMessage.urlScheme. intros H.
  destruct s as [|c1 s]; [discriminate|]. literal c1 H.
  destruct s as [|c2 s]; [discriminate|]. literal c2 H.
  destruct s as [|c3 s]; [discriminate|]. literal c3 H.
  destruct s as [|c4 s]; [discriminate|]. literal c4 H.
  destruct s as [|c5 s]; [discriminate|].
  destruct c5 as [|c5]; [discriminate H|].
  do 7 (try (destruct c5 as [c5|c5|]; try discriminate H)).
  - destruct s as [|c6 s]; [discriminate|]. literal c6 H.
    destruct s as [|c7 s]; [discriminate|]. literal c7 H.
    destruct s as [|c8 s]; [discriminate|]. literal c8 H.
    injection H as <- <-. split; [reflexivity|now right].
  - destruct s as [|c6 s]; [discriminate|]. literal c6 H.
    destruct s as [|c7 s]; [discriminate|]. literal c7 H.
    injection H as <- <-. split; [reflexivity|now left].
Qed.

Lemma urlScheme_complete scheme s' :
  scheme = lit "http://" \/ scheme = lit "https://" ->
  ChatMessage.urlScheme (scheme ++ s') = Some (scheme, s').
Proof. intros [->| ->]; reflexivity. Qed.

Lemma nonSpaces_sound s run rest :
  ChatMessage.nonSpaces s = (run, rest) ->
  s = run ++ rest /\ spaceFree run /\
  match rest with [] => True | c :: _ => isWhiteSpace c = true end.
Proof.
  revert run. induction s as [|c s IH]; simpl; intros run.
  - intros [= <- <-]. repeat split. constructor.
  - destruct (isWhiteSpace c) eqn:W.
    + intros [= <- <-]. repeat split; [constructor|exact W].
    + destruct (ChatMessage.nonSpaces s) as [run' rest'].
      intros [= <- <-]. destruct (IH run' eq_refl) as (-> & F & R).
      repeat split; [now constructor|exact R].
Qed.

Lemma nonSpaces_complete run rest :
  spaceFree run ->
  match rest with [] => True | c :: _ => isWhiteSpace c = true end ->
  ChatMessage.nonSpaces (run ++ rest) = (run, rest).
Proof.
  intros F R. induction F as [|c run W F IH]; simpl.
  - destruct rest as [|c rest]; [reflexivity|]. simpl. now rewrite R.
  - now rewrite W, IH.
Qed.

(** The run of characters taken from a longer text starts with the run
    taken from the text. *)
Lemma nonSpaces_app run rest s :
  spaceFree run -> run <> [] ->
  exists run' rest', ChatMessage.nonSpaces (run ++ rest ++ s) = (run', rest') /\ run' <> [].
Proof.
  intros F N. destruct F as [|c run W F]; [now elim N|].
  simpl. rewrite W.
  destruct (ChatMessage.nonSpaces (run ++ rest ++ s)) as [run' rest'].
  exists (c :: run'), rest'. split; [reflexivity|discriminate].
Qed.

Lemma bareUrl_sound s g rest :
  ChatMessage.bareUrl s = Some (g, rest) -> s = g ++ rest /\ isUrlText g /\
  match rest with [] => True | c :: _ => isWhiteSpace c = true end.
Proof.
  unfold ChatMessage.bareUrl.
  destruct (ChatMessage.urlScheme s) as [[scheme s']|] eqn:U; [|discriminate].
  destruct (ChatMessage.nonSpaces s') as [[|c run] rest'] eqn:R; [discriminate|].
  intros [= <- <-].
  destruct (urlScheme_sound s scheme s' U) as (-> & Hs).
  destruct (nonSpaces_sound s' (c :: run) rest' R) as (-> & F & W).
  repeat split; [now rewrite <- app_assoc| |exact W].
  exists scheme, (c :: run). repeat split; [exact Hs|discriminate|exact F].
Qed.

Lemma bareUrl_complete g rest :
  isUrlText g ->
  match rest with [] => True | c :: _ => isWhiteSpace c = true end ->
  ChatMessage.bareUrl (g ++ rest) = Some (g, rest).
Proof.
  intros (scheme & run & Hs & -> & N & F) W. unfold ChatMessage.bareUrl.
  rewrite <- app_assoc, (urlScheme_complete scheme (run ++ rest) Hs).
  rewrite (nonSpaces_complete run rest F W).
  destruct run; [now elim N|reflexivity].
Qed.

Lemma bareUrl_prefix g s :
  isUrlText g -> ChatMessage.bareUrl (g ++ s) <> None.
Proof.
  intros (scheme & run & Hs & -> & N & F). unfold ChatMessage.bareUrl.
  rewrite <- app_assoc, (urlScheme_complete scheme (run ++ s) Hs).
  destruct F as [|c run W F]; [now elim N|].
  simpl. rewrite W. destruct (ChatMessage.nonSpaces (run ++ s)). discriminate.
Qed.

(** ** The pattern of the split *)

Lemma isLinkText_nonempty g : isLinkText g -> g <> [].
Proof.
  intros [(label & href & -> & _)|(scheme & run & Hs & -> & N & _)].
  - discriminate.
  - destruct scheme; [now destruct Hs|discriminate].
Qed.

Lemma linkAt_sound s g rest :
  ChatMessage.linkAt s = Some (g, rest) -> s = g ++ rest /\ isLinkText g.
Proof.
  unfold ChatMessage.linkAt.
  destruct (ChatMessage.markdownLink (fun rest => Some rest) s)
    as [[[label href] r]|] eqn:M.
  - intros [= <- <-].
    destruct (markdownLink_sound _ s label href r M) as (rest & -> & [= ->] & F1 & F2).
    split; [reflexivity|]. left. now exists label, href.
  - intros H. destruct (bareUrl_sound s g rest H) as (-> & U & _).
    split; [reflexivity|now right].
Qed.

Lemma linkAt_shorter s g rest :
  ChatMessage.linkAt s = Some (g, rest) -> length rest < length s.
Proof.
  intros H. destruct (linkAt_sound s g rest H) as (-> & L).
  apply isLinkText_nonempty in L. rewrite length_app.
  destruct g; [now elim L|simpl; lia].
Qed.

Lemma linkAt_complete g s : isLinkText g -> ChatMessage.linkAt (g ++ s) <> None.
Proof.
  intros L. unfold ChatMessage.linkAt.
  destruct (ChatMessage.markdownLink (fun rest => Some rest) (g ++ s))
    as [[[label href] r]|] eqn:M; [discriminate|].
  destruct L as [(label & href & -> & F1 & F2)|U].
  - exfalso. revert M. now apply markdownLink_complete with (r := s).
  - now apply bareUrl_prefix.
Qed.

(** ** The parts of a line *)

Lemma splitLinksFrom_concat fuel piece s :
  length s < fuel ->
  concat (ChatMessage.splitLinksFrom fuel piece s) = rev piece ++ s.
Proof.
  revert piece s. induction fuel as [|fuel IH]; intros piece s Hf; [lia|].
  destruct s as [|c s']; [reflexivity|].
  cbn [ChatMessage.splitLinksFrom].
  destruct (ChatMessage.linkAt (c :: s')) as [[g rest]|] eqn:L.
  - pose proof (linkAt_shorter _ _ _ L) as Hs.
    destruct (linkAt_sound _ _ _ L) as (E & _).
    cbn [concat]. rewrite IH by (simpl in *; lia). simpl. now rewrite E.
  - rewrite IH by (simpl in *; lia). simpl. now rewrite <- app_assoc.
Qed.

Lemma splitLinks_concat line : concat (ChatMessage.splitLinks line) = line.
Proof. unfold ChatMessage.splitLinks. now rewrite splitLinksFrom_concat by lia. Qed.

(** ** What a part is rendered as *)

Lemma renderPart_link g :
  isLinkText g -> exists href label, ChatMessage.renderPart g = ChatMessage.Anchor href label.
Proof.
  intros L. unfold ChatMessage.renderPart.
  destruct (ChatMessage.markdownLink _ g) as [[[label href] u]|] eqn:M; [now eauto|].
  destruct L as [(label & href & -> & F1 & F2)|U].
  - exfalso. revert M. rewrite <- (app_nil_r (markdownSource label href)).
    now apply markdownLink_complete with (r := tt).
  - unfold ChatMessage.isBareUrl.
    pose proof (bareUrl_complete g [] U I) as B. rewrite app_nil_r in B.
    rewrite B. eauto.
Qed.

Lemma renderPart_cases part :
  match ChatMessage.renderPart part with
  | ChatMessage.TextNode t => t = part
  | ChatMessage.Anchor href label =>
      (part = markdownSource label href /\ dotText label /\ dotText href) \/
      (isUrlText part /\ href = part /\ label = part)
  end.
Proof.
  unfold ChatMessage.renderPart.
  destruct (ChatMessage.markdownLink _ part) as [[[label href] u]|] eqn:M.
  - left. destruct (markdownLink_sound _ part label href u M) as (rest & -> & K & F1 & F2).
    destruct rest; [|discriminate]. now rewrite app_nil_r.
  - unfold ChatMessage.isBareUrl.
    destruct (ChatMessage.bareUrl part) as [[g [|c rest]]|] eqn:B; try reflexivity.
    right. destruct (bareUrl_sound part g [] B) as (-> & U & _).
    rewrite app_nil_r. auto.
Qed.

Lemma renderPart_text p s :
  ChatMessage.linkAt (p ++ s) = None ->
  ChatMessage.renderPart p = ChatMessage.TextNode p.
Proof.
  intros L. pose proof (renderPart_cases p) as C.
  destruct (ChatMessage.renderPart p) as [t|href label]; [now subst t|].
  exfalso. revert L. apply linkAt_complete.
  destruct C as [(-> & F1 & F2)|(U & _)]; [left; now exists label, href|now right].
Qed.

Lemma renderPart_piece piece s :
  piece = [] \/ ChatMessage.linkAt (rev piece ++ s) = None ->
  ChatMessage.renderPart (rev piece) = ChatMessage.TextNode (rev piece).
Proof.
  intros [->|L]; [reflexivity|]. exact (renderPart_text _ _ L).
Qed.

Lemma splitLinksFrom_alternating fuel piece s :
  length s < fuel ->
  piece = [] \/ ChatMessage.linkAt (rev piece ++ s) = None ->
  Alternating (map ChatMessage.renderPart (ChatMessage.splitLinksFrom fuel piece s)).
Proof.
  revert piece s. induction fuel as [|fuel IH]; intros piece s Hf Hp; [lia|].
  destruct s as [|c s'].
  - simpl. rewrite (renderPart_piece piece [] Hp). constructor.
  - cbn [ChatMessage.splitLinksFrom].
    destruct (ChatMessage.linkAt (c :: s')) as [[g rest]|] eqn:L.
    + pose proof (linkAt_shorter _ _ _ L) as Hs.
      destruct (linkAt_sound _ _ _ L) as (_ & G).
      destruct (renderPart_link g G) as (href & label & R).
      cbn [map]. rewrite (renderPart_piece piece (c :: s') Hp), R.
      constructor. apply IH; [simpl in *; lia|now left].
    + apply IH; [simpl in *; lia|]. right.
      simpl. rewrite <- app_assoc. simpl.
      destruct Hp as [->|Hp]; [exact L|exact Hp].
Qed.

Lemma splitLinks_alternating line :
  Alternating (map ChatMessage.renderPart (ChatMessage.splitLinks line)).
Proof. apply splitLinksFrom_alternating; [lia|now left]. Qed.

(** ** Lines without a link *)

Lemma isLinkText_marks g :
  isLinkText g ->
  Voices.includes g (lit "](") = true \/ Voices.includes g (lit "://") = true.
Proof.
  intros [(label & href & -> & _)|(scheme & run & Hs & -> & _)].
  - left. apply includes_iff. exists (91%N :: label), (href ++ [41%N]). reflexivity.
  - right. apply includes_iff.
    destruct Hs as [->| ->].
    + exists (lit "http"), run. reflexivity.
    + exists (lit "https"), run. reflexivity.
Qed.

Lemma includes_infix pre s post search :
  Voices.includes s search = true -> Voices.includes (pre ++ s ++ post) search = true.
Proof.
  rewrite !includes_iff. intros (a & b & ->).
  exists (pre ++ a), (b ++ post). now rewrite <- !app_assoc.
Qed.

Lemma includes_none pre s post search :
  Voices.includes (pre ++ s ++ post) search = false -> Voices.includes s search = false.
Proof.
  intros H. destruct (Voices.includes s search) eqn:E; [|reflexivity].
  now rewrite (includes_infix pre s post search E) in H.
Qed.

Lemma linkAt_plain s :
  Voices.includes s (lit "](") = false -> Voices.includes s (lit "://") = false ->
  ChatMessage.linkAt s = None.
Proof.
  intros H1 H2. destruct (ChatMessage.linkAt s) as [[g rest]|] eqn:L; [|reflexivity].
  destruct (linkAt_sound s g rest L) as (-> & G).
  apply (includes_none [] g rest) in H1, H2.
  destruct (isLinkText_marks g G); congruence.
Qed.

Lemma splitLinksFrom_plain fuel piece s :
  length s < fuel ->
  Voices.includes s (lit "](") = false -> Voices.includes s (lit "://") = false ->
  ChatMessage.splitLinksFrom fuel piece s = [rev piece ++ s].
Proof.
  revert piece s. induction fuel as [|fuel IH]; intros piece s Hf H1 H2; [lia|].
  destruct s as [|c s']; [simpl; now rewrite app_nil_r|].
  cbn [ChatMessage.splitLinksFrom]. rewrite (linkAt_plain _ H1 H2).
  rewrite IH; [simpl; now rewrite <- app_assoc|simpl in *; lia| |].
  - apply (includes_none [c] s' [] (lit "](")). simpl. now rewrite app_nil_r.
  - apply (includes_none [c] s' [] (lit "://")). simpl. now rewrite app_nil_r.
Qed.

Lemma plain_line line :
  Voices.includes line (lit "](") = false -> Voices.includes line (lit "://") = false ->
  map ChatMessage.renderPart (ChatMessage.splitLinks line) = [ChatMessage.TextNode line].
Proof.
  intros H1 H2. unfold ChatMessage.splitLinks.
  rewrite (splitLinksFrom_plain _ [] line (Nat.lt_succ_diag_r _) H1 H2). simpl.
  rewrite (renderPart_text line []); [reflexivity|].
  rewrite app_nil_r. now apply linkAt_plain.
Qed.

Lemma joinLines_infix lines line :
  In line lines -> exists pre post, joinLines lines = pre ++ line ++ post.
Proof.
  induction lines as [|l0 rest IH]; [intros []|].
  destruct rest as [|l1 rest].
  - intros [<-|[]]. exists [], []. simpl. now rewrite app_nil_r.
  - change (joinLines (l0 :: l1 :: rest)) with (l0 ++ 10%N :: joinLines (l1 :: rest)).
    intros [<-|H].
    + now exists [], (10%N :: joinLines (l1 :: rest)).
    + destruct (IH H) as (pre & post & ->).
      exists (l0 ++ 10%N :: pre), post. now rewrite <- app_assoc.
Qed.

Lemma splitLines_infix s line :
  In line (ChatMessage.splitLines s) -> exists pre post, s = pre ++ line ++ post.
Proof.
  intros H. destruct (joinLines_infix _ _ H) as (pre & post & E).
  rewrite joinLines_splitLines in E. now exists pre, post.
Qed.

Lemma formatLines_nodes count i lines :
  map ChatMessage.nodes (ChatMessage.formatLines count i lines)
  = map (fun line => map ChatMessage.renderPart (ChatMessage.splitLinks line)) lines.
Proof.
  revert i. induction lines as [|l lines IH]; intros i; simpl; [reflexivity|].
  now rewrite IH.
Qed.

Lemma formatLines_breaks count i lines :
  i + length lines = count ->
  map ChatMessage.lineBreak (ChatMessage.formatLines count i lines)
  = repeat true (length lines - 1) ++ match lines with [] => [] | _ => [false] end.
Proof.
  revert i. induction lines as [|l lines IH]; intros i H; simpl; [reflexivity|].
  simpl in H. rewrite (IH (S i)) by lia. rewrite Nat.sub_0_r.
  destruct lines as [|l' lines]; simpl; simpl in H.
  - f_equal. apply Nat.ltb_ge. lia.
  - rewrite Nat.sub_0_r. f_equal. apply Nat.ltb_lt. lia.
Qed.

Lemma isUrlText_splitLinks g :
  isUrlText g ->
  map ChatMessage.renderPart (ChatMessage.splitLinks g)
  = [ChatMessage.TextNode []; ChatMessage.Anchor g g; ChatMessage.TextNode []].
Proof.
  intros U. pose proof (bareUrl_complete g [] U I) as B. rewrite app_nil_r in B.
  assert (M : forall A (k : jsstring -> option A), ChatMessage.markdownLink k g = None).
  { intros A k. destruct U as (scheme & run & [->| ->] & -> & _); reflexivity. }
  assert (L : ChatMessage.linkAt g = Some (g, [])).
  { unfold ChatMessage.linkAt. now rewrite M. }
  unfold ChatMessage.splitLinks.
  destruct g as [|c g']; [discriminate|].
  cbn [length ChatMessage.splitLinksFrom]. rewrite L. simpl map.
  unfold ChatMessage.renderPart at 2. rewrite M.
  unfold ChatMessage.isBareUrl. rewrite B. reflexivity.
Qed.

(** ** A link in plain text *)

Lemma lazyDots_exact {A : Type} (k : jsstring -> option A) d s' r :
  dotText d ->
  (forall d1 d2, d = d1 ++ d2 -> d2 <> [] -> k (d2 ++ s') = None) ->
  k s' = Some r ->
  ChatMessage.lazyDots k (d ++ s') = Some (d, r).
Proof.
  intros F H K. induction F as [|c d L F IH]; simpl app; rewrite lazyDots_eq.
  - now rewrite K.
  - pose proof (H [] (c :: d) eq_refl ltac:(discriminate)) as K0.
    simpl in K0. rewrite K0, L.
    rewrite IH; [reflexivity|].
    intros d1 d2 -> N. exact (H (c :: d1) d2 eq_refl N).
Qed.

Lemma includes_head s search :
  Voices.includes (search ++ s) search = true.
Proof. apply includes_iff. now exists [], s. Qed.

Lemma includes_tail pre s search :
  Voices.includes (pre ++ s) search = false -> Voices.includes s search = false.
Proof.
  intros H. apply (includes_none pre s [] search). now rewrite app_nil_r.
Qed.

Lemma markdownLink_exact {A : Type} (k : jsstring -> option A) label href rest r :
  dotText label -> Voices.includes label (lit "](") = false ->
  dotText href -> Voices.includes href (lit ")") = false ->
  k rest = Some r ->
  ChatMessage.markdownLink k (markdownSource label href ++ rest) = Some (label, href, r).
Proof.
  intros F1 N1 F2 N2 K. unfold markdownSource, ChatMessage.markdownLink.
  simpl. rewrite <- app_assoc. simpl. rewrite <- app_assoc. simpl.
  rewrite (lazyDots_exact _ label (93%N :: 40%N :: href ++ 41%N :: rest) (href, r));
    [reflexivity|exact F1| |].
  - intros d1 d2 -> N. apply includes_tail in N1.
    destruct d2 as [|x d2]; [now elim N|]. simpl app.
    destruct x as [|x]; [reflexivity|].
    do 7 (try (destruct x as [x|x|]; try reflexivity)).
    destruct d2 as [|y d2]; [reflexivity|]. simpl app.
    destruct y as [|y]; [reflexivity|].
    do 7 (try (destruct y as [y|y|]; try reflexivity)).
    exfalso. exact (eq_true_false_abs _ (includes_head d2 (lit "](")) N1).
  - apply lazyDots_exact; [exact F2| |exact K].
    intros d1 d2 -> N. apply includes_tail in N2.
    destruct d2 as [|x d2]; [now elim N|]. simpl app.
    destruct x as [|x]; [reflexivity|].
    do 7 (try (destruct x as [x|x|]; try reflexivity)).
    exfalso. exact (eq_true_false_abs _ (includes_head d2 (lit ")")) N2).
Qed.

Lemma markdownLink_head {A : Type} (k : jsstring -> option A) c s :
  ChatMessage.markdownLink k (c :: s) <> None -> c = 91%N.
Proof.
  destruct (ChatMessage.markdownLink k (c :: s)) as [[[label href] r]|] eqn:M;
    [intros _|intros H; now elim H].
  destruct (markdownLink_sound k _ label href r M) as (rest & E & _).
  now injection E.
Qed.

Lemma scheme_chars scheme c :
  scheme = lit "http://" \/ scheme = lit "https://" ->
  In c scheme -> isWhiteSpace c = false /\ c <> 91%N.
Proof.
  intros [->| ->] H; simpl in H;
    repeat (destruct H as [<-|H]; [split; [reflexivity|discriminate]|]);
    destruct H.
Qed.

(** Where no scheme lies inside [p], a scheme found at the start of
    [p ++ s] runs over all of [p] and on into [s]. *)
Lemma urlScheme_straddle p s scheme s' :
  Voices.includes p (lit "://") = false ->
  ChatMessage.urlScheme (p ++ s) = Some (scheme, s') ->
  (scheme = lit "http://" \/ scheme = lit "https://") /\
  exists l, l <> [] /\ scheme = p ++ l /\ s = l ++ s'.
Proof.
  intros N U. destruct (urlScheme_sound _ _ _ U) as (E & Hs). split; [exact Hs|].
  assert (C : forall post, p <> scheme ++ post).
  { intros post ->.
    destruct Hs as [->| ->].
    - exact (eq_true_false_abs _
               (includes_infix (lit "http") (lit "://") post (lit "://") eq_refl) N).
    - exact (eq_true_false_abs _
               (includes_infix (lit "https") (lit "://") post (lit "://") eq_refl) N). }
  apply app_eq_app in E. destruct E as (l & [(E1 & E2)|(E1 & E2)]).
  - now elim (C l).
  - exists l. repeat split; [|exact E1|exact E2].
    intros ->. rewrite app_nil_r in E1. apply (C []). now rewrite app_nil_r.
Qed.

Lemma linkAt_in_prefix p s :
  p <> [] ->
  Voices.includes p (lit "[") = false -> Voices.includes p (lit "://") = false ->
  (forall c s', s = c :: s' -> c = 91%N) \/ endsWithSpace p ->
  ChatMessage.linkAt (p ++ s) = None.
Proof.
  intros Np N1 N2 B. unfold ChatMessage.linkAt.
  destruct (ChatMessage.markdownLink (fun rest => Some rest) (p ++ s)) eqn:M.
  - exfalso. destruct p as [|c p]; [now elim Np|].
    assert (c = 91%N) as ->.
    { apply (markdownLink_head (fun rest => Some rest) c (p ++ s)).
      change (c :: p ++ s) with ((c :: p) ++ s). rewrite M. discriminate. }
    exact (eq_true_false_abs _ (includes_head p (lit "[")) N1).
  - clear M. unfold ChatMessage.bareUrl.
    destruct (ChatMessage.urlScheme (p ++ s)) as [[scheme s']|] eqn:U; [|reflexivity].
    exfalso. destruct (urlScheme_straddle p s scheme s' N2 U) as (Hs & l & Nl & E1 & E2).
    destruct B as [B|B].
    + destruct l as [|c l]; [now elim Nl|].
      pose proof (B c (l ++ s') E2) as ->.
      destruct (scheme_chars scheme 91%N Hs) as (_ & C); [|now elim C].
      rewrite E1. apply in_or_app. right. now left.
    + unfold endsWithSpace, startsWithSpace in B.
      destruct (rev p) as [|w q] eqn:R.
      * apply (f_equal (@rev char16)) in R. rewrite rev_involutive in R. now elim Np.
      * apply (f_equal (@rev char16)) in R. rewrite rev_involutive in R. simpl in R.
        destruct (scheme_chars scheme w Hs) as (C & _); [|congruence].
        rewrite E1, R. apply in_or_app. left. apply in_or_app. right. now left.
Qed.

Lemma splitLinksFrom_skip fuel piece pre s :
  length (pre ++ s) < fuel ->
  (forall p1 p2, pre = p1 ++ p2 -> p2 <> [] -> ChatMessage.linkAt (p2 ++ s) = None) ->
  ChatMessage.splitLinksFrom fuel piece (pre ++ s)
  = ChatMessage.splitLinksFrom (fuel - length pre) (rev pre ++ piece) s.
Proof.
  revert fuel piece. induction pre as [|c pre IH]; intros fuel piece Hf H.
  - simpl. now rewrite Nat.sub_0_r.
  - destruct fuel as [|fuel]; [lia|].
    simpl app. cbn [ChatMessage.splitLinksFrom].
    pose proof (H [] (c :: pre) eq_refl ltac:(discriminate)) as L.
    simpl app in L. rewrite L.
    rewrite IH.
    + simpl. now rewrite <- app_assoc.
    + simpl in Hf. lia.
    + intros p1 p2 -> N. exact (H (c :: p1) p2 eq_refl N).
Qed.

Lemma endsWithSpace_suffix p1 p2 : p2 <> [] -> endsWithSpace (p1 ++ p2) -> endsWithSpace p2.
Proof.
  unfold endsWithSpace. rewrite rev_app_distr. intros N.
  destruct (rev p2) as [|w q] eqn:R; [|trivial].
  apply (f_equal (@rev char16)) in R. rewrite rev_involutive in R. now elim N.
Qed.

Lemma link_in_plain_text pre g post :
  Voices.includes pre (lit "[") = false -> Voices.includes pre (lit "://") = false ->
  (forall c s', g ++ post = c :: s' -> c = 91%N) \/ endsWithSpace pre ->
  ChatMessage.linkAt (g ++ post) = Some (g, post) ->
  Voices.includes post (lit "](") = false -> Voices.includes post (lit "://") = false ->
  ChatMessage.splitLinks (pre ++ g ++ post) = [pre; g; post].
Proof.
  intros N1 N2 B L P1 P2. unfold ChatMessage.splitLinks.
  rewrite splitLinksFrom_skip; [|lia|].
  - pose proof (linkAt_shorter _ _ _ L) as Hs.
    rewrite length_app.
    destruct (g ++ post) as [|c s'] eqn:E; [simpl in Hs; lia|].
    match goal with
    | |- ChatMessage.splitLinksFrom ?f _ _ = _ =>
        replace f with (S (length (c :: s'))) by (unfold jsstring, char16 in *; lia)
    end.
    cbn [ChatMessage.splitLinksFrom]. rewrite L.
    rewrite splitLinksFrom_plain; [|exact Hs|exact P1|exact P2].
    simpl. now rewrite app_nil_r, rev_involutive.
  - intros p1 p2 -> N. apply linkAt_in_prefix; [exact N| | |].
    + exact (includes_tail p1 p2 _ N1).
    + exact (includes_tail p1 p2 _ N2).
    + destruct B as [B|B]; [now left|right]. exact (endsWithSpace_suffix p1 p2 N B).
Qed.

Lemma renderPart_url g :
  isUrlText g -> ChatMessage.renderPart g = ChatMessage.Anchor g g.
Proof.
  intros U. pose proof (bareUrl_complete g [] U I) as B. rewrite app_nil_r in B.
  unfold ChatMessage.renderPart, ChatMessage.isBareUrl. rewrite B.
  destruct U as (scheme & run & [->| ->] & -> & _); reflexivity.
Qed.

Lemma linkAt_url g post :
  isUrlText g -> startsWithSpace post ->
  ChatMessage.linkAt (g ++ post) = Some (g, post).
Proof.
  intros U W. unfold ChatMessage.linkAt. rewrite (bareUrl_complete g post U W).
  destruct U as (scheme & run & [->| ->] & -> & _); reflexivity.
Qed.

Lemma renderPart_plain_prefix pre s :
  Voices.includes pre (lit "[") = false -> Voices.includes pre (lit "://") = false ->
  (forall c s', s = c :: s' -> c = 91%N) \/ endsWithSpace pre ->
  ChatMessage.renderPart pre = ChatMessage.TextNode pre.
Proof.
  intros N1 N2 B. destruct pre as [|c pre]; [reflexivity|].
  apply (renderPart_text (c :: pre) s).
  apply linkAt_in_prefix; [discriminate|exact N1|exact N2|exact B].
Qed.

Lemma renderPart_plain post :
  Voices.includes post (lit "](") = false -> Voices.includes post (lit "://") = false ->
  ChatMessage.renderPart post = ChatMessage.TextNode post.
Proof.
  intros P1 P2. apply (renderPart_text post []). rewrite app_nil_r.
  now apply linkAt_plain.
Qed.

(** X18. [formatText] renders one fragment for each line of the text, one
    more than the text has line feeds, and puts a [<br />] after every
    line but the last. *)
Theorem a_break_follows_every_line_but_the_last (text : jsstring) :
  map ChatMessage.lineBreak (ChatMessage.formatText text)
  = repeat true (lineFeeds text) ++ [false].
Proof.
  unfold ChatMessage.formatText.
  rewrite formatLines_breaks by reflexivity.
  rewrite splitLines_length. simpl. rewrite Nat.sub_0_r.
  destruct (ChatMessage.splitLines text) eqn:E; [|reflexivity].
  now elim (splitLines_nonempty text).
Qed.

(** X19. The two splits of [formatText] drop nothing: the parts of a line,
    put together, are the line, and the lines, joined by line feeds, are
    the text. *)
Theorem the_splits_lose_no_character (text : jsstring) :
  joinLines (map (fun line => concat (ChatMessage.splitLinks line))
               (ChatMessage.splitLines text)) = text.
Proof.
  rewrite (map_ext _ (fun line => line) splitLinks_concat), map_id.
  apply joinLines_splitLines.
Qed.

(** X20. What the callback of the inner [map] returns for a part: the part
    itself, or a link.  A link is made only of a part that is, as a whole,
    a markdown link [[label](href)] whose label and target have no line
    terminator, and then carries that label and target, or of a part that
    is, as a whole, a bare URL, [http://] or [https://] followed by at
    least one character and no white space, and then carries the part as
    target and as label. *)
Theorem rendered_part_is_the_part_or_a_link (part : jsstring) :
  match ChatMessage.renderPart part with
  | ChatMessage.TextNode t => t = part
  | ChatMessage.Anchor href label =>
      (part = markdownSource label href /\ dotText label /\ dotText href) \/
      (isUrlText part /\ href = part /\ label = part)
  end.
Proof. exact (renderPart_cases part). Qed.

(** X21. In every line [formatText] renders, text and links alternate,
    with text first and last: what the split puts at an even place is
    rendered as text (possibly empty), never as a link, and what it puts
    at an odd place, the text the pattern matched, is rendered as a
    link. *)
Theorem nodes_of_a_line_alternate (text : jsstring) :
  Forall (fun line => Alternating (ChatMessage.nodes line)) (ChatMessage.formatText text).
Proof.
  apply Forall_forall. intros line H.
  apply (in_map ChatMessage.nodes) in H. unfold ChatMessage.formatText in H.
  rewrite formatLines_nodes in H. apply in_map_iff in H.
  destruct H as (source & <- & _). apply splitLinks_alternating.
Qed.

(** X22. A text in which neither [](] nor [://] occurs is shown as it is:
    each of its lines is rendered as one text node, the line. *)
Theorem text_without_links_is_shown_as_is (text : jsstring) :
  Voices.includes text (lit "](") = false ->
  Voices.includes text (lit "://") = false ->
  map ChatMessage.nodes (ChatMessage.formatText text)
  = map (fun line => [ChatMessage.TextNode line]) (ChatMessage.splitLines text).
Proof.
  intros H1 H2. unfold ChatMessage.formatText. rewrite formatLines_nodes.
  apply map_ext_in. intros line Hin.
  destruct (splitLines_infix text line Hin) as (pre & post & ->).
  apply plain_line; [exact (includes_none pre line post _ H1)|exact (includes_none pre line post _ H2)].
Qed.

Lemma text_without_links_is_shown_as_is_witness :
  let text := lit "Hi (there) [x] :/" ++ 10%N :: lit "bye" in
  (Voices.includes text (lit "](") = false /\
   Voices.includes text (lit "://") = false) /\
  map ChatMessage.nodes (ChatMessage.formatText text)
  = [[ChatMessage.TextNode (lit "Hi (there) [x] :/")]; [ChatMessage.TextNode (lit "bye")]].
Proof.
  intros text. split; [split; reflexivity|].
  apply (text_without_links_is_shown_as_is text); reflexivity.
Defined.

(** X23. A bare URL standing between white space (or at an end of the
    line) in otherwise plain text becomes one link, with the URL as target
    and as label; the text before it and the text after it are rendered
    unchanged.  The URL runs up to the next white space, so punctuation
    that follows it without a space is part of the link. *)
Theorem url_between_spaces_becomes_a_link (pre url post : jsstring) :
  isUrlText url ->
  Voices.includes pre (lit "[") = false ->
  Voices.includes pre (lit "://") = false ->
  endsWithSpace pre ->
  startsWithSpace post ->
  Voices.includes post (lit "](") = false ->
  Voices.includes post (lit "://") = false ->
  map ChatMessage.renderPart (ChatMessage.splitLinks (pre ++ url ++ post))
  = [ChatMessage.TextNode pre; ChatMessage.Anchor url url; ChatMessage.TextNode post].
Proof.
  intros U N1 N2 E W P1 P2.
  pose proof (link_in_plain_text pre url post N1 N2 (or_intror E)
                (linkAt_url url post U W) P1 P2) as Hs.
  match goal with
  | |- map _ ?parts = _ => replace parts with [pre; url; post] by (symmetry; exact Hs)
  end.
  simpl. rewrite (renderPart_plain_prefix pre [] N1 N2 (or_intror E)).
  now rewrite (renderPart_url url U), (renderPart_plain post P1 P2).
Qed.

Lemma url_between_spaces_becomes_a_link_witness :
  let pre := lit "see " in
  let url := lit "https://a.b/c." in
  let post := lit " now" in
  (isUrlText url /\
   Voices.includes pre (lit "[") = false /\
   Voices.includes pre (lit "://") = false /\
   endsWithSpace pre /\ startsWithSpace post /\
   Voices.includes post (lit "](") = false /\
   Voices.includes post (lit "://") = false) /\
  map ChatMessage.renderPart (ChatMessage.splitLinks (lit "see https://a.b/c. now"))
  = [ChatMessage.TextNode pre; ChatMessage.Anchor url url; ChatMessage.TextNode post].
Proof.
  intros pre url post.
  assert (U : isUrlText url).
  { exists (lit "https://"), (lit "a.b/c.").
    repeat split; [now right|discriminate|repeat constructor]. }
  split; [repeat split; exact U|].
  apply (url_between_spaces_becomes_a_link pre url post U); reflexivity.
Defined.

(** X24. A markdown link [[label](href)] in otherwise plain text, whose
    label has no [](] and whose target has no [)], neither with a line
    terminator, becomes one link with that label and that target; the text
    before it and the text after it are rendered unchanged.  The target is
    used as it is written, whatever its scheme. *)
Theorem markdown_link_becomes_a_link (pre label href post : jsstring) :
  dotText label -> Voices.includes label (lit "](") = false ->
  dotText href -> Voices.includes href (lit ")") = false ->
  Voices.includes pre (lit "[") = false ->
  Voices.includes pre (lit "://") = false ->
  Voices.includes post (lit "](") = false ->
  Voices.includes post (lit "://") = false ->
  map ChatMessage.renderPart
    (ChatMessage.splitLinks (pre ++ markdownSource label href ++ post))
  = [ChatMessage.TextNode pre; ChatMessage.Anchor href label; ChatMessage.TextNode post].
Proof.
  intros F1 L1 F2 L2 N1 N2 P1 P2.
  assert (B : forall c s', markdownSource label href ++ post = c :: s' -> c = 91%N)
    by (intros c s' [= <- _]; reflexivity).
  assert (L : ChatMessage.linkAt (markdownSource label href ++ post)
              = Some (markdownSource label href, post)).
  { unfold ChatMessage.linkAt.
    now rewrite (markdownLink_exact (fun rest => Some rest) label href post post F1 L1 F2 L2 eq_refl). }
  pose proof (link_in_plain_text pre _ post N1 N2 (or_introl B) L P1 P2) as Hs.
  match goal with
  | |- map _ ?parts = _ =>
      replace parts with [pre; markdownSource label href; post] by (symmetry; exact Hs)
  end.
  simpl. rewrite (renderPart_plain_prefix pre _ N1 N2 (or_introl B)).
  rewrite (renderPart_plain post P1 P2). do 2 f_equal.
  unfold ChatMessage.renderPart.
  pose proof (markdownLink_exact
                (fun rest => match rest with [] => Some tt | _ => None end)
                label href [] tt F1 L1 F2 L2 eq_refl) as M.
  rewrite app_nil_r in M. unfold markdownSource in M. simpl in M.
  simpl. now rewrite M.
Qed.

Lemma markdown_link_becomes_a_link_witness :
  let pre := lit "my " in
  let label := lit "site (new)" in
  let href := lit "javascript:void" in
  let post := lit ", ok" in
  (dotText label /\ Voices.includes label (lit "](") = false /\
   dotText href /\ Voices.includes href (lit ")") = false /\
   Voices.includes pre (lit "[") = false /\
   Voices.includes pre (lit "://") = false /\
   Voices.includes post (lit "](") = false /\
   Voices.includes post (lit "://") = false) /\
  map ChatMessage.renderPart
    (ChatMessage.splitLinks (lit "my [site (new)](javascript:void), ok"))
  = [ChatMessage.TextNode pre; ChatMessage.Anchor href label; ChatMessage.TextNode post].
Proof.
  intros pre label href post.
  assert (F1 : dotText label) by (repeat constructor).
  assert (F2 : dotText href) by (repeat constructor).
  split; [repeat split; assumption|].
  apply (markdown_link_becomes_a_link pre label href post F1 eq_refl F2); reflexivity.
Defined.
